(** * OAuth discovery-and-authorization flow for MCP HTTP servers

    A shallow embedding of the OAuth surface of the Next.js agent:

    - [src/lib/mcp/oauth-detection.ts]   requirement detection, status update,
                                         token-expiry check;
    - [src/lib/mcp/oauth-provider.ts]    [ServerOAuthProvider], the credential
                                         provider backed by the database;
    - [src/lib/config/app-url.ts]        [getAppUrl];
    - [src/lib/agent/util.ts]            the sanitizer of tool schemas;
    - [src/lib/agent/mcp.ts]             the configuration of the MCP client;
    - [src/app/api/oauth/check/[serverId]/route.ts]     the check endpoint;
    - [src/app/api/oauth/callback/[serverId]/route.ts]  the callback endpoint.

    Handlers are [async] functions over a Prisma table and the network.  They
    are embedded in a state-and-exception monad over the table and a trace of
    the calls that leave the process; what the network and the MCP SDK answer
    is a parameter ([World]). *)

From Stdlib Require Import ZArith QArith Ascii String List Bool Lia.
From Stdlib Require PrimFloat Uint63.
From stdpp Require Import base option gmap strings list.

Local Open Scope Z_scope.

(* ===================================================================== *)
(** * JavaScript values and strings *)
(* ===================================================================== *)

(** A thrown JavaScript value: either an [Error] instance with its message,
    or any other value ([err instanceof Error] is false). *)
Inductive JsError : Type :=
| ErrorObj (message : string)
| NonError.

(** The outcome of evaluating an expression or awaiting a promise. *)
Inductive Completion (A : Type) : Type :=
| Normal (a : A)
| Throw (e : JsError).
Arguments Normal {A} a.
Arguments Throw {A} e.

Definition isNormal {A} (c : Completion A) : bool :=
  match c with Normal _ => true | Throw _ => false end.

(** [err instanceof Error ? err.message : fallback] *)
Definition error_message_or (err : JsError) (fallback : string) : string :=
  match err with
  | ErrorObj m => m
  | NonError => fallback
  end.

(** Truthiness of a [string | null] value: [null] and the empty string are
    falsy. *)
Definition truthy_str (o : option string) : bool :=
  match o with
  | Some (String _ _) => true
  | _ => false
  end.

(** The double-quote character. *)
Definition dquote : ascii := ascii_of_nat 34.
Definition dquote_str : string := String dquote EmptyString.

Module Str.

(** [s.startsWith(p)], returning what follows the prefix. *)
Fixpoint strip_prefix (p s : string) : option string :=
  match p with
  | EmptyString => Some s
  | String a p' =>
      match s with
      | EmptyString => None
      | String b s' => if Ascii.eqb a b then strip_prefix p' s' else None
      end
  end.

(** [hay.includes(needle)] *)
Fixpoint includes (hay needle : string) : bool :=
  match strip_prefix needle hay with
  | Some _ => true
  | None =>
      match hay with
      | EmptyString => false
      | String _ hay' => includes hay' needle
      end
  end.

(** [String.prototype.toLowerCase] on a byte string (header values are
    byte strings whose code units are Latin-1): the ASCII capitals, and the
    Latin-1 capitals U+00C0..U+00DE except the multiplication sign, move up
    by 32. *)
Definition lower_ascii (c : ascii) : ascii :=
  let n := nat_of_ascii c in
  if ((65 <=? n) && (n <=? 90))%nat then ascii_of_nat (n + 32)
  else if ((192 <=? n) && (n <=? 222) && negb (n =? 215))%nat
       then ascii_of_nat (n + 32)
       else c.

Fixpoint toLowerCase (s : string) : string :=
  match s with
  | EmptyString => EmptyString
  | String c s' => String (lower_ascii c) (toLowerCase s')
  end.

(** Characters [encodeURIComponent] leaves alone:
    [A-Z a-z 0-9 - _ . ! ~ * ' ( )]. *)
Definition is_unreserved (c : ascii) : bool :=
  let n := nat_of_ascii c in
  (((65 <=? n) && (n <=? 90)) || ((97 <=? n) && (n <=? 122))
   || ((48 <=? n) && (n <=? 57))
   || (n =? 45) || (n =? 95) || (n =? 46) || (n =? 33) || (n =? 126)
   || (n =? 42) || (n =? 39) || (n =? 40) || (n =? 41))%nat.

Definition hex_digit (n : nat) : ascii :=
  if (n <? 10)%nat then ascii_of_nat (48 + n) else ascii_of_nat (55 + n).

Definition percent_encode (c : ascii) : string :=
  let n := nat_of_ascii c in
  String "%" (String (hex_digit (n / 16)) (String (hex_digit (n mod 16)) "")).

(** [encodeURIComponent] on the UTF-8 bytes of a well-formed string: every
    byte outside the unreserved set becomes [%XX] in upper-case hex.  A
    string with a lone surrogate, on which JavaScript throws a [URIError],
    has no UTF-8 bytes and is not among the strings of this model. *)
Fixpoint encodeURIComponent (s : string) : string :=
  match s with
  | EmptyString => EmptyString
  | String c s' =>
      (if is_unreserved c then String c "" else percent_encode c)
      +:+ encodeURIComponent s'
  end.

(** [s.replace] of the pattern [/\/$/] by the empty string: drop one
    trailing slash. *)
Fixpoint strip_trailing_slash (s : string) : string :=
  match s with
  | EmptyString => EmptyString
  | String c EmptyString => if Ascii.eqb c "/" then EmptyString else s
  | String c s' => String c (strip_trailing_slash s')
  end.

End Str.

(* ===================================================================== *)
(** * The regular expressions of [extractResourceMetadataUrl] *)
(* ===================================================================== *)

Module Regex.
Import Str.

(** The pattern is [KEY=Q([^Q]+)Q], where Q stands for the double quote.
    Its literal part: the key, [=] and the opening quote. *)
Definition literal (key : string) : string := key +:+ "=" +:+ dquote_str.

(** [([^Q]+)Q] anchored at the head of [s]: the characters before the next
    double quote.  [None] when the input ends before a quote is met. *)
Fixpoint until_quote (s : string) : option string :=
  match s with
  | EmptyString => None
  | String c s' =>
      if Ascii.eqb c dquote then Some EmptyString
      else match until_quote s' with
           | Some x => Some (String c x)
           | None => None
           end
  end.

(** The whole pattern anchored at the head of [s]; the capture group [+]
    needs at least one character. *)
Definition match_here (key s : string) : option string :=
  match strip_prefix (literal key) s with
  | None => None
  | Some rest =>
      match until_quote rest with
      | Some (String c x) => Some (String c x)
      | _ => None
      end
  end.

(** [s.match(pattern)?.[1]]: the capture of the leftmost match. *)
Fixpoint first_match (key s : string) : option string :=
  match match_here key s with
  | Some x => Some x
  | None =>
      match s with
      | EmptyString => None
      | String _ s' => first_match key s'
      end
  end.

(** No double quote occurs in [x]. *)
Fixpoint quote_free (x : string) : Prop :=
  match x with
  | EmptyString => True
  | String c x' => c <> dquote /\ quote_free x'
  end.

(** The text [key=QxQ] occurs in [h] after the prefix [pre], with [x]
    non-empty and free of quotes: a place where the pattern matches. *)
Definition occurs_at (key h pre x post : string) : Prop :=
  h = pre +:+ literal key +:+ x +:+ dquote_str +:+ post
  /\ x <> EmptyString /\ quote_free x.

(** [x] is the quoted value at the leftmost such occurrence in [h]. *)
Definition first_occurrence (key h x : string) : Prop :=
  exists pre post,
    occurs_at key h pre x post
    /\ forall pre' x' post',
         occurs_at key h pre' x' post' ->
         (String.length pre <= String.length pre')%nat.

(** The text [key=QxQ], with [x] non-empty, occurs nowhere in [h]. *)
Definition no_occurrence (key h : string) : Prop :=
  forall pre x post, ~ occurs_at key h pre x post.

End Regex.

(** The header as the specification reads it: a challenge is a scheme
    followed by parameters [name=value] separated by commas, a value being a
    token or a quoted string.  This reading is not the code's; it is what
    the code's extraction is compared with. *)
Module Challenge.

Definition space : ascii := " "%char.

(** The scheme: the characters before the first space. *)
Fixpoint scheme (h : string) : string :=
  match h with
  | EmptyString => EmptyString
  | String c h' => if Ascii.eqb c space then EmptyString else String c (scheme h')
  end.

(** What follows the first space. *)
Fixpoint after_scheme (h : string) : string :=
  match h with
  | EmptyString => EmptyString
  | String c h' => if Ascii.eqb c space then h' else after_scheme h'
  end.

(** The pieces between commas that stand outside quoted strings. *)
Fixpoint pieces (s : string) (in_quotes : bool) (current : string) : list string :=
  match s with
  | EmptyString => [current]
  | String c s' =>
      if Ascii.eqb c dquote
      then pieces s' (negb in_quotes) (current +:+ String c EmptyString)
      else if Ascii.eqb c ","%char && negb in_quotes
           then current :: pieces s' false EmptyString
           else pieces s' in_quotes (current +:+ String c EmptyString)
  end.

Fixpoint ltrim (s : string) : string :=
  match s with
  | String c s' => if Ascii.eqb c space then ltrim s' else s
  | EmptyString => EmptyString
  end.

Fixpoint rtrim (s : string) : string :=
  match s with
  | EmptyString => EmptyString
  | String c s' =>
      match rtrim s' with
      | EmptyString => if Ascii.eqb c space then EmptyString else String c EmptyString
      | t => String c t
      end
  end.

Definition trim (s : string) : string := rtrim (ltrim s).

(** A piece split at its first equals sign. *)
Fixpoint name_value (piece : string) : option (string * string) :=
  match piece with
  | EmptyString => None
  | String c piece' =>
      if Ascii.eqb c "="%char then Some (EmptyString, piece')
      else match name_value piece' with
           | Some (name, value) => Some (String c name, value)
           | None => None
           end
  end.

(** The value of a quoted string, or the token as it stands. *)
Definition unquote (v : string) : string :=
  match v with
  | String c v' =>
      if Ascii.eqb c dquote then default v' (Regex.until_quote v') else v
  | EmptyString => EmptyString
  end.

Definition params (h : string) : list (string * string) :=
  omap (fun piece =>
          match name_value piece with
          | Some (name, value) => Some (trim name, unquote (trim value))
          | None => None
          end)
    (pieces (after_scheme h) false EmptyString).

(** The value of the first parameter called [name]. *)
Definition param (name h : string) : option string :=
  snd <$> List.find (fun nv => String.eqb (fst nv) name) (params h).

End Challenge.

(* ===================================================================== *)
(** * Data model *)
(* ===================================================================== *)

(** The five status constants of [OAuthStatus] (oauth-detection.ts).  The
    column that stores them is a nullable string, so they are kept as the
    strings the code writes. *)
Module OAuthStatus.
Definition UNKNOWN : string := "UNKNOWN".
Definition NOT_REQUIRED : string := "NOT_REQUIRED".
Definition REQUIRED : string := "REQUIRED".
Definition CONNECTED : string := "CONNECTED".
Definition EXPIRED : string := "EXPIRED".

Definition values : list string :=
  [UNKNOWN; NOT_REQUIRED; REQUIRED; CONNECTED; EXPIRED].
End OAuthStatus.

(** JavaScript numbers: IEEE 754 binary64, with the kernel's primitive
    floats, whose operations round as JavaScript's do. *)
Module Number.

Definition t : Set := PrimFloat.float.

(** The number of an integer; exact below 2^53 in absolute value. *)
Definition of_Z (z : Z) : t :=
  if z <? 0 then PrimFloat.opp (PrimFloat.of_uint63 (Uint63.of_Z (- z)))
  else PrimFloat.of_uint63 (Uint63.of_Z z).

Definition sub (x y : t) : t := PrimFloat.sub x y.
Definition div (x y : t) : t := PrimFloat.div x y.

(** [x > y]; false when either side is NaN. *)
Definition gt (x y : t) : bool := PrimFloat.ltb y x.

(** [!x]: zero of either sign, or NaN. *)
Definition falsy (x : t) : bool :=
  PrimFloat.eqb x (of_Z 0) || negb (PrimFloat.eqb x x).

End Number.

(** The token bundle stored in [authTokens]; [expires_at] is epoch seconds. *)
Record OAuthTokens : Type := {
  access_token : string;
  token_type : string;
  refresh_token : option string;
  scope : option string;
  expires_at : option Number.t
}.

(** The registered client stored in [clientInfo]. *)
Record OAuthClientInformation : Type := {
  client_id : string;
  client_secret : option string
}.

(** What [ServerOAuthProvider.clientMetadata] submits at registration. *)
Record OAuthClientMetadata : Type := {
  client_name : string;
  client_uri : string;
  redirect_uris : list string;
  grant_types : list string;
  response_types : list string;
  cm_scope : string;
  token_endpoint_auth_method : string
}.

(** One row of the [MCPServer] table (the fields the flow reads or writes). *)
Record MCPServer : Type := {
  srv_name : string;
  srv_type : string;
  srv_url : option string;
  srv_requiresAuth : option bool;
  srv_authTokens : option OAuthTokens;
  srv_clientInfo : option OAuthClientInformation;
  srv_codeVerifier : option string;
  srv_oauthStatus : option string
}.

(** The [data] argument of [prisma.mCPServer.update]: the fields to set. *)
Record UpdateData : Type := {
  set_oauthStatus : option string;
  set_requiresAuth : option bool;
  set_codeVerifier : option (option string);
  set_clientInfo : option OAuthClientInformation;
  set_authTokens : option OAuthTokens
}.

Definition apply_update (d : UpdateData) (r : MCPServer) : MCPServer :=
  {| srv_name := srv_name r;
     srv_type := srv_type r;
     srv_url := srv_url r;
     srv_requiresAuth :=
       match set_requiresAuth d with Some b => Some b | None => srv_requiresAuth r end;
     srv_authTokens :=
       match set_authTokens d with Some t => Some t | None => srv_authTokens r end;
     srv_clientInfo :=
       match set_clientInfo d with Some c => Some c | None => srv_clientInfo r end;
     srv_codeVerifier :=
       match set_codeVerifier d with Some v => v | None => srv_codeVerifier r end;
     srv_oauthStatus :=
       match set_oauthStatus d with Some s => Some s | None => srv_oauthStatus r end |}.

(** The response of the unauthenticated probe: status and the value of
    [headers.get] for the [WWW-Authenticate] header. *)
Record HttpResponse : Type := {
  http_status : Z;
  www_authenticate : option string
}.

Record OAuthDetectionResult : Type := {
  det_requiresAuth : bool;
  det_resourceMetadataUrl : option string;
  det_error : option string
}.

(** Protected-resource metadata and authorization-server metadata, as far as
    the check endpoint looks into them. *)
Record ResourceMetadata : Type := {
  authorization_servers : option (list string)
}.

Record AuthServerMetadata : Type := {
  issuer : string;
  authorization_endpoint : string;
  token_endpoint : string;
  registration_endpoint : option string
}.

(** The JSON body and HTTP status of the check endpoint. *)
Record CheckOAuthResponse : Type := {
  resp_status : Z;
  resp_serverId : string;
  resp_requiresAuth : bool;
  resp_connected : bool;
  resp_oauthStatus : string;
  resp_authorizationUrl : option string;
  resp_error : option string
}.

(** [new URL(input, base)]: the reference and the base it is resolved
    against. *)
Record URL : Type := {
  url_input : string;
  url_base : option string
}.

(** [NextResponse.redirect(url)] *)
Record RedirectResponse : Type := {
  redirect_to : URL
}.

(** The query parameters the callback reads, as [searchParams.get] returns
    them (decoded; [None] for an absent parameter). *)
Record CallbackParams : Type := {
  q_code : option string;
  q_error : option string;
  q_error_description : option string
}.

(** Calls that leave the handler, in the order they are made. *)
Inductive Event : Type :=
| EvFetch (url : string)
| EvDiscoverResourceMetadata (serverUrl : string) (hint : option string)
| EvDiscoverAuthServerMetadata (authServerUrl : string)
| EvRegisterClient (authServerUrl : string) (cm : OAuthClientMetadata)
| EvStartAuthorization (authServerUrl : string)
    (ci : OAuthClientInformation) (redirectUrl : string)
| EvSdkRequest (label : string)
| EvDbUpdate (id : string) (data : UpdateData).


Definition is_registration (e : Event) : bool :=
  match e with EvRegisterClient _ _ => true | _ => false end.

(** The status an event writes to the table, if any. *)
Definition written_status (e : Event) : option string :=
  match e with
  | EvDbUpdate _ d => set_oauthStatus d
  | _ => None
  end.

(** What [transport.finishAuth] of the MCP SDK may do: requests of its own,
    and calls of the methods of the [OAuthClientProvider] it was given, each
    of which it may catch.  The answers of the network are part of the
    tree; the answers of the provider are the arguments of the
    continuations. *)
Inductive SdkProg : Type :=
| SdkResolve
| SdkReject (e : JsError)
| SdkRequest (label : string) (k : SdkProg)
| SdkRedirectUrl (k : Completion string -> SdkProg)
| SdkClientMetadata (k : Completion OAuthClientMetadata -> SdkProg)
| SdkClientInformation (k : Completion (option OAuthClientInformation) -> SdkProg)
| SdkSaveClientInformation (info : OAuthClientInformation) (k : Completion unit -> SdkProg)
| SdkTokens (k : Completion (option OAuthTokens) -> SdkProg)
| SdkSaveTokens (t : OAuthTokens) (k : Completion unit -> SdkProg)
| SdkRedirectToAuthorization (url : string) (k : Completion unit -> SdkProg)
| SdkSaveCodeVerifier (v : string) (k : Completion unit -> SdkProg)
| SdkCodeVerifier (k : Completion string -> SdkProg).

(** Everything outside the repository: process environment, clock, the URL
    parser, the network and the MCP SDK. *)
Record World : Type := {
  env_NEXT_PUBLIC_APP_URL : option string;
  env_NODE_ENV : option string;
  date_now : Z;
  url_parses : string -> bool;
  fetch : string -> Completion HttpResponse;
  discoverOAuthProtectedResourceMetadata :
    string -> option string -> Completion (option ResourceMetadata);
  discoverAuthorizationServerMetadata :
    string -> Completion (option AuthServerMetadata);
  registerClient :
    string -> AuthServerMetadata -> OAuthClientMetadata ->
    Completion OAuthClientInformation;
  startAuthorization :
    string -> AuthServerMetadata -> OAuthClientInformation -> string ->
    Completion (string * string);
  finishAuth : string -> string -> SdkProg
}.

(** The same world at another instant. *)
Definition at_time (w : World) (t : Z) : World :=
  {| env_NEXT_PUBLIC_APP_URL := env_NEXT_PUBLIC_APP_URL w;
     env_NODE_ENV := env_NODE_ENV w;
     date_now := t;
     url_parses := url_parses w;
     fetch := fetch w;
     discoverOAuthProtectedResourceMetadata := discoverOAuthProtectedResourceMetadata w;
     discoverAuthorizationServerMetadata := discoverAuthorizationServerMetadata w;
     registerClient := registerClient w;
     startAuthorization := startAuthorization w;
     finishAuth := finishAuth w |}.

(* ===================================================================== *)
(** * The monad of handlers *)
(* ===================================================================== *)

(** The table, keyed by server id, and the trace of calls so far. *)
Record St : Type := {
  st_db : gmap string MCPServer;
  st_trace : list Event
}.

Definition M (A : Type) : Type := St -> Completion A * St.

Definition ret {A} (a : A) : M A := fun s => (Normal a, s).

Definition throw {A} (e : JsError) : M A := fun s => (Throw e, s).

Definition bind {A B} (m : M A) (k : A -> M B) : M B :=
  fun s =>
    match m s with
    | (Normal a, s') => k a s'
    | (Throw e, s') => (Throw e, s')
    end.

(** [try { body } catch (err) { handler }] *)
Definition try_catch {A} (body : M A) (handler : JsError -> M A) : M A :=
  fun s =>
    match body s with
    | (Normal a, s') => (Normal a, s')
    | (Throw e, s') => handler e s'
    end.

Definition lift {A} (c : Completion A) : M A := fun s => (c, s).

Definition emit (e : Event) : M unit :=
  fun s => (Normal tt, {| st_db := st_db s; st_trace := st_trace s ++ [e] |}).

Notation "x <- m ;; k" := (bind m (fun x => k))
  (at level 100, m at next level, right associativity).
Notation "m ;;; k" := (bind m (fun _ => k))
  (at level 100, right associativity).

(** An external call: it is made, then it resolves or rejects. *)
Definition call {A} (e : Event) (c : Completion A) : M A :=
  emit e ;;; lift c.

(** Run a handler on a table, with an empty trace. *)
Definition run {A} (m : M A) (db : gmap string MCPServer)
  : Completion A * gmap string MCPServer * list Event :=
  let '(c, s) := m {| st_db := db; st_trace := [] |} in
  (c, st_db s, st_trace s).

(* ===================================================================== *)
(** * Prisma *)
(* ===================================================================== *)

(** The table answers every read, and rejects an update only when no row
    has the id; a store that fails is not modelled. *)
Module prisma.

Definition record_not_found : JsError :=
  ErrorObj "Record to update not found.".

(** [findUnique({ where: { id } })] *)
Definition findUnique (id : string) : M (option MCPServer) :=
  fun s => (Normal (st_db s !! id), s).

(** [findFirst({ where: { id, type: http, url: { not: null } } })] *)
Definition findFirst_http (id : string) : M (option MCPServer) :=
  fun s =>
    (Normal
       match st_db s !! id with
       | Some r =>
           if String.eqb (srv_type r) "http" && bool_decide (is_Some (srv_url r))
           then Some r else None
       | None => None
       end, s).

(** [update({ where: { id }, data })]: rejects when no row has the id. *)
Definition update (id : string) (data : UpdateData) : M unit :=
  fun s =>
    match st_db s !! id with
    | Some r =>
        (Normal tt,
         {| st_db := <[id := apply_update data r]> (st_db s);
            st_trace := st_trace s ++ [EvDbUpdate id data] |})
    | None => (Throw record_not_found, s)
    end.

End prisma.

(* ===================================================================== *)
(** * Platform helpers *)
(* ===================================================================== *)

Definition cbind {A B} (c : Completion A) (k : A -> Completion B) : Completion B :=
  match c with
  | Normal a => k a
  | Throw e => Throw e
  end.

(** Await a promise and keep its outcome, the way a caller that wraps the
    call in its own try/catch sees it. *)
Definition attempt {A} (m : M A) : M (Completion A) :=
  fun s => let '(c, s') := m s in (Normal c, s').

(** [new URL(input)] and [new URL(input, base)].  An absolute input must
    parse; a path-and-query reference resolves against any base that
    parses.  A failure is a [TypeError]. *)
Definition new_URL (w : World) (input : string) (base : option string)
  : Completion URL :=
  let absolute := match base with Some b => b | None => input end in
  if url_parses w absolute
  then Normal {| url_input := input; url_base := base |}
  else Throw (ErrorObj "Invalid URL").

(* ===================================================================== *)
(** * [getAppUrl] (lib/config/app-url.ts) *)
(* ===================================================================== *)

Definition app_url_required_message : string :=
  "NEXT_PUBLIC_APP_URL environment variable is required in production. " +:+
  "Set it to your application's public URL (e.g., https://myapp.com)".

Definition getAppUrl (w : World) : Completion string :=
  match env_NEXT_PUBLIC_APP_URL w with
  | Some (String c u) => Normal (Str.strip_trailing_slash (String c u))
  | _ =>
      if bool_decide (env_NODE_ENV w = Some "development")
      then Normal "http://localhost:3000"
      else Throw (ErrorObj app_url_required_message)
  end.

(** Production with the public base URL unconfigured. *)
Definition misconfigured (w : World) : Prop :=
  truthy_str (env_NEXT_PUBLIC_APP_URL w) = false
  /\ env_NODE_ENV w <> Some "development".

(* ===================================================================== *)
(** * [oauth-detection.ts] *)
(* ===================================================================== *)

Definition extractResourceMetadataUrl (wwwAuthHeader : string) : option string :=
  match Regex.first_match "resource_metadata" wwwAuthHeader with
  | Some x => Some x
  | None => Regex.first_match "realm" wwwAuthHeader
  end.

(** The header contains [bearer] in some letter case:
    [wwwAuth && wwwAuth.toLowerCase().includes(bearer)]. *)
Definition contains_bearer (wwwAuth : option string) : bool :=
  match wwwAuth with
  | Some h => truthy_str (Some h) && Str.includes (Str.toLowerCase h) "bearer"
  | None => false
  end.

Definition detectOAuthRequirement (w : World) (url : string)
  : M OAuthDetectionResult :=
  try_catch
    (response <- call (EvFetch url) (fetch w url) ;;
     if http_status response =? 401 then
       match www_authenticate response with
       | Some wwwAuth =>
           if contains_bearer (Some wwwAuth) then
             ret {| det_requiresAuth := true;
                    det_resourceMetadataUrl := extractResourceMetadataUrl wwwAuth;
                    det_error := None |}
           else
             ret {| det_requiresAuth := true;
                    det_resourceMetadataUrl := None;
                    det_error := None |}
       | None =>
           ret {| det_requiresAuth := true;
                  det_resourceMetadataUrl := None;
                  det_error := None |}
       end
     else
       ret {| det_requiresAuth := false;
              det_resourceMetadataUrl := None;
              det_error := None |})
    (fun error =>
       ret {| det_requiresAuth := false;
              det_resourceMetadataUrl := None;
              det_error := Some (error_message_or error "Unknown error") |}).

Definition updateServerOAuthStatus (serverId status : string) : M unit :=
  prisma.update serverId
    {| set_oauthStatus := Some status; set_requiresAuth := None;
       set_codeVerifier := None; set_clientInfo := None;
       set_authTokens := None |}.

(** [Date.now() / 1000 > tokens.expires_at - 60], in JavaScript numbers. *)
Definition past_buffer (now_ms : Z) (expires_at : Number.t) : bool :=
  Number.gt (Number.div (Number.of_Z now_ms) (Number.of_Z 1000))
    (Number.sub expires_at (Number.of_Z 60)).

(** [Date.now()] is [now_ms], in milliseconds.  The guard
    [!tokens || !tokens.expires_at] holds for a missing bundle, for an
    absent expiry, and for an expiry that is zero or NaN. *)
Definition isTokenExpired (now_ms : Z) (tokens : option OAuthTokens) : bool :=
  match tokens with
  | None => false
  | Some t =>
      match expires_at t with
      | None => false
      | Some e => if Number.falsy e then false else past_buffer now_ms e
      end
  end.

(* ===================================================================== *)
(** * [ServerOAuthProvider] (lib/mcp/oauth-provider.ts) *)
(* ===================================================================== *)

Record ServerOAuthProvider : Type := {
  serverId : string;
  serverName : string
}.

Module Provider.

Definition redirectUrl (w : World) (p : ServerOAuthProvider) : Completion string :=
  cbind (getAppUrl w) (fun appUrl =>
  Normal (appUrl +:+ "/api/oauth/callback/" +:+ serverId p)).

Definition clientMetadata (w : World) (p : ServerOAuthProvider)
  : Completion OAuthClientMetadata :=
  cbind (getAppUrl w) (fun appUrl =>
  cbind (redirectUrl w p) (fun redirect =>
  Normal {| client_name := "LangGraph Agent - " +:+ serverName p;
            client_uri := appUrl;
            redirect_uris := [redirect];
            grant_types := ["authorization_code"; "refresh_token"];
            response_types := ["code"];
            cm_scope := "read write";
            token_endpoint_auth_method := "none" |})).

Definition clientInformation (p : ServerOAuthProvider)
  : M (option OAuthClientInformation) :=
  server <- prisma.findUnique (serverId p) ;;
  ret (match server with Some r => srv_clientInfo r | None => None end).

Definition saveClientInformation (p : ServerOAuthProvider)
  (info : OAuthClientInformation) : M unit :=
  prisma.update (serverId p)
    {| set_oauthStatus := None; set_requiresAuth := None;
       set_codeVerifier := None; set_clientInfo := Some info;
       set_authTokens := None |}.

Definition tokens (p : ServerOAuthProvider) : M (option OAuthTokens) :=
  server <- prisma.findUnique (serverId p) ;;
  ret (match server with Some r => srv_authTokens r | None => None end).

Definition saveTokens (p : ServerOAuthProvider) (t : OAuthTokens) : M unit :=
  prisma.update (serverId p)
    {| set_oauthStatus := Some OAuthStatus.CONNECTED; set_requiresAuth := None;
       set_codeVerifier := None; set_clientInfo := None;
       set_authTokens := Some t |}.

Definition redirectToAuthorization (p : ServerOAuthProvider) (url : string)
  : M unit :=
  throw (ErrorObj ("REDIRECT_REQUIRED:" +:+ url)).

Definition saveCodeVerifier (p : ServerOAuthProvider) (verifier : string)
  : M unit :=
  prisma.update (serverId p)
    {| set_oauthStatus := None; set_requiresAuth := None;
       set_codeVerifier := Some (Some verifier); set_clientInfo := None;
       set_authTokens := None |}.

Definition codeVerifier (p : ServerOAuthProvider) : M string :=
  server <- prisma.findUnique (serverId p) ;;
  match server with
  | Some r =>
      match srv_codeVerifier r with
      | Some (String c v) => ret (String c v)
      | _ => throw (ErrorObj "No code verifier stored")
      end
  | None => throw (ErrorObj "No code verifier stored")
  end.

End Provider.

(** The SDK running against the provider it was given. *)
Fixpoint run_sdk (w : World) (p : ServerOAuthProvider) (prog : SdkProg) : M unit :=
  match prog with
  | SdkResolve => ret tt
  | SdkReject e => throw e
  | SdkRequest label k => emit (EvSdkRequest label) ;;; run_sdk w p k
  | SdkRedirectUrl k =>
      c <- ret (Provider.redirectUrl w p) ;; run_sdk w p (k c)
  | SdkClientMetadata k =>
      c <- ret (Provider.clientMetadata w p) ;; run_sdk w p (k c)
  | SdkClientInformation k =>
      c <- attempt (Provider.clientInformation p) ;; run_sdk w p (k c)
  | SdkSaveClientInformation info k =>
      c <- attempt (Provider.saveClientInformation p info) ;; run_sdk w p (k c)
  | SdkTokens k =>
      c <- attempt (Provider.tokens p) ;; run_sdk w p (k c)
  | SdkSaveTokens t k =>
      c <- attempt (Provider.saveTokens p t) ;; run_sdk w p (k c)
  | SdkRedirectToAuthorization url k =>
      c <- attempt (Provider.redirectToAuthorization p url) ;; run_sdk w p (k c)
  | SdkSaveCodeVerifier v k =>
      c <- attempt (Provider.saveCodeVerifier p v) ;; run_sdk w p (k c)
  | SdkCodeVerifier k =>
      c <- attempt (Provider.codeVerifier p) ;; run_sdk w p (k c)
  end.

(* ===================================================================== *)
(** * [GET /api/oauth/check/[serverId]] *)
(* ===================================================================== *)

Module Check.

(** [NextResponse.json(body)] and [NextResponse.json(body, { status })] *)
Definition json (status : Z) (id : string) (requiresAuth connected : bool)
  (oauthStatus : string) (authorizationUrl error : option string)
  : CheckOAuthResponse :=
  {| resp_status := status; resp_serverId := id;
     resp_requiresAuth := requiresAuth; resp_connected := connected;
     resp_oauthStatus := oauthStatus;
     resp_authorizationUrl := authorizationUrl; resp_error := error |}.

Definition required (id : string) (authorizationUrl error : option string)
  : CheckOAuthResponse :=
  json 200 id true false OAuthStatus.REQUIRED authorizationUrl error.

(** [!resourceMetadata?.authorization_servers?.length] is false: the first
    candidate authorization server. *)
Definition first_authorization_server (rm : option ResourceMetadata)
  : option string :=
  match rm with
  | Some m =>
      match authorization_servers m with
      | Some (a :: _) => Some a
      | _ => None
      end
  | None => None
  end.

(** Lines 158 to 174: start the authorization and save the verifier. *)
Definition authorize (w : World) (authProvider : ServerOAuthProvider)
  (authServerUrl : string) (metadata : AuthServerMetadata)
  (clientInfo : OAuthClientInformation) : M CheckOAuthResponse :=
  redirectUrl <- lift (Provider.redirectUrl w authProvider) ;;
  started <- call (EvStartAuthorization authServerUrl clientInfo redirectUrl)
               (startAuthorization w authServerUrl metadata clientInfo redirectUrl) ;;
  let '(authorizationUrl, codeVerifier) := started in
  Provider.saveCodeVerifier authProvider codeVerifier ;;;
  ret (required (serverId authProvider) (Some authorizationUrl) None).

(** Lines 135 to 174: reuse the stored client or register one, then
    authorize. *)
Definition client_and_authorize (w : World) (authProvider : ServerOAuthProvider)
  (authServerUrl : string) (metadata : AuthServerMetadata)
  : M CheckOAuthResponse :=
  clientInfo <- Provider.clientInformation authProvider ;;
  match clientInfo with
  | Some clientInfo =>
      authorize w authProvider authServerUrl metadata clientInfo
  | None =>
      if truthy_str (registration_endpoint metadata) then
        clientMetadata <- lift (Provider.clientMetadata w authProvider) ;;
        clientInfo <-
          call (EvRegisterClient authServerUrl clientMetadata)
            (registerClient w authServerUrl metadata clientMetadata) ;;
        Provider.saveClientInformation authProvider clientInfo ;;;
        authorize w authProvider authServerUrl metadata clientInfo
      else
        ret (required (serverId authProvider) None
               (Some "Server does not support dynamic client registration"))
  end.

(** [detection.resourceMetadataUrl ? { resourceMetadataUrl } : undefined] *)
Definition metadata_hint (detection : OAuthDetectionResult) : option string :=
  if truthy_str (det_resourceMetadataUrl detection)
  then det_resourceMetadataUrl detection else None.

(** Lines 100 to 184: discovery, registration and authorization, inside
    the try/catch. *)
Definition generate (w : World) (authProvider : ServerOAuthProvider)
  (serverUrl : string) (detection : OAuthDetectionResult)
  : M CheckOAuthResponse :=
  let id := serverId authProvider in
  try_catch
    (_ <- lift (new_URL w serverUrl None) ;;
     resourceMetadata <-
       call (EvDiscoverResourceMetadata serverUrl (metadata_hint detection))
         (discoverOAuthProtectedResourceMetadata w serverUrl
            (metadata_hint detection)) ;;
     match first_authorization_server resourceMetadata with
     | None =>
         ret (required id None
                (Some "Could not find authorization server in resource metadata"))
     | Some authServerUrl =>
         metadata <-
           call (EvDiscoverAuthServerMetadata authServerUrl)
             (discoverAuthorizationServerMetadata w authServerUrl) ;;
         match metadata with
         | None =>
             ret (required id None
                    (Some "Could not discover authorization server metadata"))
         | Some metadata =>
             client_and_authorize w authProvider authServerUrl metadata
         end
     end)
    (fun error =>
       ret (required id None
              (Some (error_message_or error "Failed to generate authorization URL")))).

(** Lines 81 to 98: the probe and the status it leads to. *)
Definition detect (w : World) (id : string) (server : MCPServer)
  : M CheckOAuthResponse :=
  let serverUrl := default "" (srv_url server) in
  detection <- detectOAuthRequirement w serverUrl ;;
  if negb (det_requiresAuth detection) then
    updateServerOAuthStatus id OAuthStatus.NOT_REQUIRED ;;;
    ret (json 200 id false false OAuthStatus.NOT_REQUIRED None None)
  else
    updateServerOAuthStatus id OAuthStatus.REQUIRED ;;;
    generate w {| serverId := id; serverName := srv_name server |}
      serverUrl detection.

(** [server.oauthStatus === OAuthStatus.CONNECTED && server.authTokens] *)
Definition connected_with_tokens (server : MCPServer) : bool :=
  bool_decide (srv_oauthStatus server = Some OAuthStatus.CONNECTED)
  && bool_decide (is_Some (srv_authTokens server)).

Definition GET (w : World) (id : string) : M CheckOAuthResponse :=
  server <- prisma.findFirst_http id ;;
  match server with
  | None =>
      ret (json 404 id false false OAuthStatus.NOT_REQUIRED None
             (Some "HTTP server not found"))
  | Some server =>
      if connected_with_tokens server then
        if negb (isTokenExpired (date_now w) (srv_authTokens server)) then
          ret (json 200 id true true OAuthStatus.CONNECTED None None)
        else
          updateServerOAuthStatus id OAuthStatus.EXPIRED ;;;
          detect w id server
      else
        detect w id server
  end.

End Check.

(* ===================================================================== *)
(** * [GET /api/oauth/callback/[serverId]] *)
(* ===================================================================== *)

Module Callback.

(** [NextResponse.redirect(new URL(target, appUrl))] *)
Definition redirect (w : World) (target appUrl : string) : M RedirectResponse :=
  u <- lift (new_URL w target (Some appUrl)) ;;
  ret {| redirect_to := u |}.

(** [errorDescription || error] *)
Definition description_or_error (errorDescription : option string)
  (error : string) : string :=
  match errorDescription with
  | Some (String c d) => String c d
  | _ => error
  end.

Definition connected_update : UpdateData :=
  {| set_oauthStatus := Some OAuthStatus.CONNECTED;
     set_requiresAuth := Some true;
     set_codeVerifier := Some None;
     set_clientInfo := None;
     set_authTokens := None |}.

Definition required_update : UpdateData :=
  {| set_oauthStatus := Some "REQUIRED";
     set_requiresAuth := None;
     set_codeVerifier := None;
     set_clientInfo := None;
     set_authTokens := None |}.

(** Lines 54 to 59: build the transport on the server URL and let the SDK
    exchange the authorization code. *)
Definition finish (w : World) (authProvider : ServerOAuthProvider)
  (url code : string) : M unit :=
  _ <- lift (new_URL w url None) ;;
  run_sdk w authProvider (finishAuth w url code).

Definition success_target (name : string) : string :=
  "/?oauth_success=true&server=" +:+ Str.encodeURIComponent name.

Definition error_target (reason : string) : string :=
  "/?oauth_error=" +:+ Str.encodeURIComponent reason.

(** Lines 50 to 92: the token exchange inside the try/catch. *)
Definition exchange (w : World) (id code appUrl : string) (server : MCPServer)
  : M RedirectResponse :=
  let url := default "" (srv_url server) in
  let authProvider := {| serverId := id; serverName := srv_name server |} in
  try_catch
    (finish w authProvider url code ;;;
     prisma.update id connected_update ;;;
     redirect w (success_target (srv_name server)) appUrl)
    (fun err =>
       prisma.update id required_update ;;;
       redirect w (error_target (error_message_or err "Token exchange failed"))
         appUrl).

Definition GET (w : World) (id : string) (q : CallbackParams)
  : M RedirectResponse :=
  appUrl <- lift (getAppUrl w) ;;
  match q_error q with
  | Some (String c e) =>
      redirect w
        (error_target (description_or_error (q_error_description q) (String c e)))
        appUrl
  | _ =>
      match q_code q with
      | Some (String c code) =>
          server <- prisma.findUnique id ;;
          match server with
          | Some server =>
              if truthy_str (srv_url server)
              then exchange w id (String c code) appUrl server
              else redirect w "/?oauth_error=server_not_found" appUrl
          | None => redirect w "/?oauth_error=server_not_found" appUrl
          end
      | _ => redirect w "/?oauth_error=missing_code" appUrl
      end
  end.

End Callback.

(** The operations of the flow, each in the world it runs in: the two
    endpoints, and a connection of the MCP client to a server, during which
    the SDK drives the provider it was given (lib/agent/mcp.ts). *)
Inductive Op : Type :=
| OpCheck (w : World) (id : string)
| OpCallback (w : World) (id : string) (q : CallbackParams)
| OpConnect (w : World) (authProvider : ServerOAuthProvider) (session : SdkProg).

(** The table after an operation, whether its handler returned or threw. *)
Definition step (op : Op) (db : gmap string MCPServer) : gmap string MCPServer :=
  match op with
  | OpCheck w id => (run (Check.GET w id) db).1.2
  | OpCallback w id q => (run (Callback.GET w id q) db).1.2
  | OpConnect w p session => (run (run_sdk w p session) db).1.2
  end.

Definition steps (ops : list Op) (db : gmap string MCPServer)
  : gmap string MCPServer :=
  fold_left (fun d op => step op d) ops db.

(** What an operation wrote, in order. *)
Definition step_trace (op : Op) (db : gmap string MCPServer) : list Event :=
  match op with
  | OpCheck w id => (run (Check.GET w id) db).2
  | OpCallback w id q => (run (Callback.GET w id q) db).2
  | OpConnect w p session => (run (run_sdk w p session) db).2
  end.

(** A stored status is one of the five constants. *)
Definition valid_status (o : option string) : Prop :=
  exists s, o = Some s /\ s ∈ OAuthStatus.values.

Definition statuses_valid (db : gmap string MCPServer) : Prop :=
  forall id r, db !! id = Some r -> valid_status (srv_oauthStatus r).

(** The shapes of [data] the flow passes to [update]. *)
Definition status_update (status : string) : UpdateData :=
  {| set_oauthStatus := Some status; set_requiresAuth := None;
     set_codeVerifier := None; set_clientInfo := None; set_authTokens := None |}.

Definition clientInfo_update (info : OAuthClientInformation) : UpdateData :=
  {| set_oauthStatus := None; set_requiresAuth := None;
     set_codeVerifier := None; set_clientInfo := Some info; set_authTokens := None |}.

Definition tokens_update (t : OAuthTokens) : UpdateData :=
  {| set_oauthStatus := Some OAuthStatus.CONNECTED; set_requiresAuth := None;
     set_codeVerifier := None; set_clientInfo := None; set_authTokens := Some t |}.

Definition verifier_update (v : string) : UpdateData :=
  {| set_oauthStatus := None; set_requiresAuth := None;
     set_codeVerifier := Some (Some v); set_clientInfo := None;
     set_authTokens := None |}.

Inductive flow_update : UpdateData -> Prop :=
| fu_status (st : string) : st ∈ OAuthStatus.values -> flow_update (status_update st)
| fu_clientInfo (info : OAuthClientInformation) : flow_update (clientInfo_update info)
| fu_tokens (t : OAuthTokens) : flow_update (tokens_update t)
| fu_verifier (v : string) : flow_update (verifier_update v)
| fu_connected : flow_update Callback.connected_update
| fu_required : flow_update Callback.required_update.

(** What detection answers to a given outcome of the probe. *)
Definition detection_of (c : Completion HttpResponse) : OAuthDetectionResult :=
  match c with
  | Normal response =>
      if http_status response =? 401 then
        match www_authenticate response with
        | Some wwwAuth =>
            if contains_bearer (Some wwwAuth)
            then {| det_requiresAuth := true;
                    det_resourceMetadataUrl := extractResourceMetadataUrl wwwAuth;
                    det_error := None |}
            else {| det_requiresAuth := true; det_resourceMetadataUrl := None;
                    det_error := None |}
        | None => {| det_requiresAuth := true; det_resourceMetadataUrl := None;
                     det_error := None |}
        end
      else {| det_requiresAuth := false; det_resourceMetadataUrl := None;
              det_error := None |}
  | Throw e =>
      {| det_requiresAuth := false; det_resourceMetadataUrl := None;
         det_error := Some (error_message_or e "Unknown error") |}
  end.

(* ===================================================================== *)
(** * Relations between the state before and after a computation *)
(* ===================================================================== *)

(** [m] moves every state to an [R]-related one, whether it returns or
    throws. *)
Definition stable (R : St -> St -> Prop) {A} (m : M A) : Prop :=
  forall s, R s (m s).2.

Definition push (e : Event) (s : St) : St :=
  {| st_db := st_db s; st_trace := st_trace s ++ [e] |}.

Definition updated (id : string) (d : UpdateData) (r : MCPServer) (s : St) : St :=
  {| st_db := <[id := apply_update d r]> (st_db s);
     st_trace := st_trace s ++ [EvDbUpdate id d] |}.

(** The rows are the same ones and the field [f] of each is unchanged. *)
Definition keeps {X} (f : MCPServer -> X) (s s' : St) : Prop :=
  forall id, f <$> (st_db s' !! id) = f <$> (st_db s !! id).

(** The trace grew by events that satisfy [P]. *)
Definition extends (P : Event -> Prop) (s s' : St) : Prop :=
  exists evs, st_trace s' = st_trace s ++ evs /\ Forall P evs.

(** Validity of the stored statuses carries over. *)
Definition carries_validity (s s' : St) : Prop :=
  statuses_valid (st_db s) -> statuses_valid (st_db s').

(** An event writes no status, or one of the five constants. *)
Definition writes_valid_status (e : Event) : Prop :=
  forall st, written_status e = Some st -> st ∈ OAuthStatus.values.

(** An update leaves the field [f] of every row as it is. *)
Definition leaves {X} (f : MCPServer -> X) (d : UpdateData) : Prop :=
  forall r, f (apply_update d r) = f r.

(** An update sets no status, or one of the five constants. *)
Definition sets_valid_status (d : UpdateData) : Prop :=
  forall st, set_oauthStatus d = Some st -> st ∈ OAuthStatus.values.

(** Whenever [m] returns, what it returns satisfies [P]. *)
Definition returns {A} (P : A -> Prop) (m : M A) : Prop :=
  forall s a, (m s).1 = Normal a -> P a.

(** The row a check is about: the stored server, when it is an HTTP server
    with a URL. *)
Definition http_row (db : gmap string MCPServer) (id : string) : option MCPServer :=
  match db !! id with
  | Some r =>
      if String.eqb (srv_type r) "http" && bool_decide (is_Some (srv_url r))
      then Some r else None
  | None => None
  end.

(** A response of the shape every exit of the authorization part has. *)
Definition is_required (id : string) (resp : CheckOAuthResponse) : Prop :=
  resp = Check.required id (resp_authorizationUrl resp) (resp_error resp).

(** With a client on record there is no registration, an authorization is
    started with that client, and no update touches the stored client. *)
Definition client_reused (ci : OAuthClientInformation) (e : Event) : Prop :=
  match e with
  | EvRegisterClient _ _ => False
  | EvStartAuthorization _ c _ => c = ci
  | EvDbUpdate _ d => set_clientInfo d = None
  | _ => True
  end.

Definition has_client (id : string) (ci : OAuthClientInformation) (s : St) : Prop :=
  srv_clientInfo <$> (st_db s !! id) = Some (Some ci).

Definition reuses_client (id : string) (ci : OAuthClientInformation)
  (s s' : St) : Prop :=
  has_client id ci s -> extends (client_reused ci) s s' /\ has_client id ci s'.

(** The status the check endpoint answers with, read off the table, the
    clock and the outcome of the probe. *)
Definition check_verdict (w : World) (db : gmap string MCPServer) (id : string)
  : string :=
  match http_row db id with
  | None => OAuthStatus.NOT_REQUIRED
  | Some r =>
      if Check.connected_with_tokens r
         && negb (isTokenExpired (date_now w) (srv_authTokens r))
      then OAuthStatus.CONNECTED
      else if det_requiresAuth (detection_of (fetch w (default "" (srv_url r))))
           then OAuthStatus.REQUIRED
           else OAuthStatus.NOT_REQUIRED
  end.



(** [NextResponse.redirect(new URL(target, appUrl))], once built. *)
Definition redirect_response (target appUrl : string) : RedirectResponse :=
  {| redirect_to := {| url_input := target; url_base := Some appUrl |} |}.

(** The initial state of a handler invocation. *)
Definition init (db : gmap string MCPServer) : St :=
  {| st_db := db; st_trace := [] |}.

(** Everything a sequence of operations wrote, in order. *)
Fixpoint steps_trace (ops : list Op) (db : gmap string MCPServer) : list Event :=
  match ops with
  | [] => []
  | op :: ops' => step_trace op db ++ steps_trace ops' (step op db)
  end.

(* ===================================================================== *)
(** * Scenarios *)
(* ===================================================================== *)

Module Scenario.

Definition metadata_url : string :=
  "https://rs.example/.well-known/oauth-protected-resource".

(** The challenge [Bearer resource_metadata=QXQ], for any value [X]. *)
Definition bearer_with (X : string) : string :=
  "Bearer resource_metadata=" +:+ dquote_str +:+ X +:+ dquote_str.

Definition bearer_challenge : string := bearer_with metadata_url.

Definition server_url : string := "https://rs.example/mcp".

Definition as_metadata : AuthServerMetadata :=
  {| issuer := "https://as.example";
     authorization_endpoint := "https://as.example/authorize";
     token_endpoint := "https://as.example/token";
     registration_endpoint := Some "https://as.example/register" |}.

Definition client : OAuthClientInformation :=
  {| client_id := "client-1"; client_secret := None |}.

Definition bundle (e : option Number.t) : OAuthTokens :=
  {| access_token := "at"; token_type := "Bearer"; refresh_token := None;
     scope := None; expires_at := e |}.

(** A resource server that answers the probe with [probe], an
    authorization server that supports registration, and an SDK whose
    token exchange is [exchange]. *)
Definition world (appUrl nodeEnv : option string)
  (probe : Completion HttpResponse) (exchange : SdkProg) : World :=
  {| env_NEXT_PUBLIC_APP_URL := appUrl;
     env_NODE_ENV := nodeEnv;
     date_now := 1700000000000;
     url_parses := fun _ => true;
     fetch := fun _ => probe;
     discoverOAuthProtectedResourceMetadata := fun _ _ =>
       Normal (Some {| authorization_servers := Some ["https://as.example"] |});
     discoverAuthorizationServerMetadata := fun _ => Normal (Some as_metadata);
     registerClient := fun _ _ _ => Normal client;
     startAuthorization := fun _ _ _ _ =>
       Normal ("https://as.example/authorize?code_challenge=c", "verifier-2");
     finishAuth := fun _ _ => exchange |}.

Definition unauthorized : Completion HttpResponse :=
  Normal {| http_status := 401; www_authenticate := Some bearer_challenge |}.

Definition app : option string := Some "https://app.example/".
Definition production : option string := Some "production".

(** The SDK's exchange: read the client and the verifier, post to the token
    endpoint, save the tokens. *)
Definition exchange_ok : SdkProg :=
  SdkClientInformation (fun _ =>
  SdkCodeVerifier (fun v =>
    match v with
    | Normal _ =>
        SdkRequest "POST https://as.example/token"
          (SdkSaveTokens (bundle None) (fun _ => SdkResolve))
    | Throw e => SdkReject e
    end)).


(** A stored HTTP server awaiting its callback. *)
Definition awaiting : MCPServer :=
  {| srv_name := "Files"; srv_type := "http"; srv_url := Some server_url;
     srv_requiresAuth := Some true; srv_authTokens := None;
     srv_clientInfo := Some client; srv_codeVerifier := Some "verifier-1";
     srv_oauthStatus := Some OAuthStatus.REQUIRED |}.

(** A freshly added HTTP server. *)
Definition fresh : MCPServer :=
  {| srv_name := "Files"; srv_type := "http"; srv_url := Some server_url;
     srv_requiresAuth := Some false; srv_authTokens := None;
     srv_clientInfo := None; srv_codeVerifier := None;
     srv_oauthStatus := Some OAuthStatus.UNKNOWN |}.

(** A connected server whose tokens ran out at the given epoch second. *)
Definition connected (e : option Number.t) : MCPServer :=
  {| srv_name := "Files"; srv_type := "http"; srv_url := Some server_url;
     srv_requiresAuth := Some true; srv_authTokens := Some (bundle e);
     srv_clientInfo := Some client; srv_codeVerifier := None;
     srv_oauthStatus := Some OAuthStatus.CONNECTED |}.

(** A stdio server: not an HTTP server, so not a subject of the flow. *)
Definition stdio : MCPServer :=
  {| srv_name := "Local"; srv_type := "stdio"; srv_url := None;
     srv_requiresAuth := Some false; srv_authTokens := None;
     srv_clientInfo := None; srv_codeVerifier := None;
     srv_oauthStatus := Some OAuthStatus.UNKNOWN |}.

Definition table (r : MCPServer) : gmap string MCPServer := {[ "srv1" := r ]}.

Definition denied : CallbackParams :=
  {| q_code := None; q_error := Some "access_denied";
     q_error_description := Some "User declined" |}.

Definition with_code : CallbackParams :=
  {| q_code := Some "abc"; q_error := None; q_error_description := None |}.

(** Production, base URL configured; the exchange goes through. *)
Definition w_ok : World := world app production unauthorized exchange_ok.


(** Production with the base URL left unconfigured. *)
Definition w_misconfigured : World := world None production unauthorized exchange_ok.

(** Production with a base URL that [new URL] does not take. *)
Definition w_unparsable : World :=
  {| env_NEXT_PUBLIC_APP_URL := Some "not a url";
     env_NODE_ENV := production;
     date_now := 1700000000000;
     url_parses := fun _ => false;
     fetch := fun _ => unauthorized;
     discoverOAuthProtectedResourceMetadata := fun _ _ =>
       Normal (Some {| authorization_servers := Some ["https://as.example"] |});
     discoverAuthorizationServerMetadata := fun _ => Normal (Some as_metadata);
     registerClient := fun _ _ _ => Normal client;
     startAuthorization := fun _ _ _ _ =>
       Normal ("https://as.example/authorize?code_challenge=c", "verifier-2");
     finishAuth := fun _ _ => exchange_ok |}.

End Scenario.

(* ===================================================================== *)
(** * Percent-decoding, the inverse a reader of the query applies *)
(* ===================================================================== *)

(** Every character of [s] passes the test [f]. *)
Fixpoint all_chars (f : ascii -> bool) (s : string) : bool :=
  match s with
  | EmptyString => true
  | String c s' => f c && all_chars f s'
  end.

(** What [encodeURIComponent] can put out: an unreserved character or the
    percent sign. *)
Definition is_encoded_char (c : ascii) : bool :=
  Str.is_unreserved c || Ascii.eqb c "%".

(** The characters that delimit a URL's query and its parameters. *)
Definition is_query_delimiter (c : ascii) : bool :=
  existsb (Ascii.eqb c) ["&"; "="; "#"; "?"; "/"; "+"; " "]%char.

(** The value of a hexadecimal digit. *)
Definition hex_value (c : ascii) : nat :=
  let n := nat_of_ascii c in
  if ((48 <=? n) && (n <=? 57))%nat then n - 48
  else if ((65 <=? n) && (n <=? 70))%nat then n - 55
  else if ((97 <=? n) && (n <=? 102))%nat then n - 87
  else 0.

(** Percent-decoding of a byte string: [%XY] becomes the byte with that
    hexadecimal code, every other character stands for itself. *)
Fixpoint percent_decode (s : string) : string :=
  match s with
  | EmptyString => EmptyString
  | String c s' =>
      match s' with
      | String h1 (String h2 rest) =>
          if Ascii.eqb c "%"
          then String (ascii_of_nat (16 * hex_value h1 + hex_value h2))
                 (percent_decode rest)
          else String c (percent_decode s')
      | _ => String c (percent_decode s')
      end
  end.


(* ===================================================================== *)
(** * Which rows an operation touches *)
(* ===================================================================== *)

(** Every row other than [id0] is as it was. *)
Definition isolates (id0 : string) (s s' : St) : Prop :=
  forall id', id' <> id0 -> st_db s' !! id' = st_db s !! id'.

(** A table update, if the event is one, is of row [id0]. *)
Definition targets (id0 : string) (e : Event) : Prop :=
  match e with
  | EvDbUpdate i _ => i = id0
  | _ => True
  end.

(* ===================================================================== *)
(** * What a returned check response stands for *)
(* ===================================================================== *)

(** Whenever [m] returns, the result and the state it leaves satisfy [Q]. *)
Definition ensures {A} (Q : A -> St -> Prop) (m : M A) : Prop :=
  forall s a s', m s = (Normal a, s') -> Q a s'.

(** The redirect URI of a server: the base URL, the callback path, the id. *)
Definition callback_uri (appUrl id : string) : string :=
  appUrl +:+ "/api/oauth/callback/" +:+ id.

(** A response that carries an authorization URL is backed by the table:
    the URL and the stored verifier come from one [startAuthorization]
    call, made with the stored client and the server's redirect URI, and
    the response is an error-free REQUIRED. *)
Definition url_backed (w : World) (id : string)
  (resp : CheckOAuthResponse) (s : St) : Prop :=
  forall au,
    resp_authorizationUrl resp = Some au ->
    exists appUrl a md ci v,
      getAppUrl w = Normal appUrl
      /\ startAuthorization w a md ci (callback_uri appUrl id) = Normal (au, v)
      /\ srv_codeVerifier <$> (st_db s !! id) = Some (Some v)
      /\ srv_clientInfo <$> (st_db s !! id) = Some (Some ci)
      /\ (exists tr0,
            st_trace s
            = tr0 ++ [EvStartAuthorization a ci (callback_uri appUrl id);
                      EvDbUpdate id (verifier_update v)])
      /\ resp_error resp = None
      /\ resp_oauthStatus resp = OAuthStatus.REQUIRED.

(** The shapes a response of the check endpoint can have. *)
Inductive check_shape (id : string) : CheckOAuthResponse -> Prop :=
| shape_not_found :
    check_shape id (Check.json 404 id false false OAuthStatus.NOT_REQUIRED None
                      (Some "HTTP server not found"))
| shape_connected :
    check_shape id (Check.json 200 id true true OAuthStatus.CONNECTED None None)
| shape_not_required :
    check_shape id (Check.json 200 id false false OAuthStatus.NOT_REQUIRED None None)
| shape_authorize (authorizationUrl : string) :
    check_shape id (Check.json 200 id true false OAuthStatus.REQUIRED
                      (Some authorizationUrl) None)
| shape_failed (error : string) :
    check_shape id (Check.json 200 id true false OAuthStatus.REQUIRED None
                      (Some error)).

(** The stage of the flow an outbound call belongs to; table updates have
    none. *)
Definition stage (e : Event) : option nat :=
  match e with
  | EvFetch _ => Some 1%nat
  | EvDiscoverResourceMetadata _ _ => Some 2%nat
  | EvDiscoverAuthServerMetadata _ => Some 3%nat
  | EvRegisterClient _ _ => Some 4%nat
  | EvStartAuthorization _ _ _ => Some 5%nat
  | EvSdkRequest _ => Some 6%nat
  | EvDbUpdate _ _ => None
  end.

(** The calls of [evs] have strictly increasing stages, from [lo] on and
    below [hi]. *)
Fixpoint ascending (lo hi : nat) (evs : list Event) : Prop :=
  match evs with
  | [] => (lo <= hi)%nat
  | e :: evs' =>
      match stage e with
      | Some k => (lo <= k)%nat /\ ascending (S k) hi evs'
      | None => ascending lo hi evs'
      end
  end.

(** [m] adds calls of strictly increasing stages between [lo] and [hi]. *)
Definition within (lo hi : nat) {A} (m : M A) : Prop :=
  forall s, exists evs,
    st_trace (m s).2 = st_trace s ++ evs /\ ascending lo hi evs.

(** How many calls of stage [k] a trace has. *)
Definition calls_at (k : nat) (evs : list Event) : nat :=
  length (filter (fun e => stage e = Some k) evs).

(** A registration or an authorization start that uses the redirect URI
    [u]; other events are unconstrained. *)
Definition uses_redirect (u : string) (e : Event) : Prop :=
  match e with
  | EvRegisterClient _ cm => redirect_uris cm = [u]
  | EvStartAuthorization _ _ u' => u' = u
  | _ => True
  end.

(* ===================================================================== *)
(** * Tool schemas (lib/agent/util.ts) *)
(* ===================================================================== *)

Local Set Warnings "-register-all".

(** A JSON value.  The entries of an object are in the order of
    [Object.entries], which lists every key once. *)
Inductive Json : Type :=
| JNull
| JBool (b : bool)
| JNum (n : Q)
| JStr (s : string)
| JArr (items : list Json)
| JObj (entries : list (string * Json)).

(** Whether a value counts as true in a condition. *)
Definition js_truthy (v : Json) : bool :=
  match v with
  | JNull => false
  | JBool b => b
  | JNum n => negb (Qeq_bool n 0)
  | JStr s => negb (String.eqb s "")
  | JArr _ | JObj _ => true
  end.

(** [typeof v === object] for a value that is not null. *)
Definition is_object (v : Json) : bool :=
  match v with JArr _ | JObj _ => true | _ => false end.

Definition is_array (v : Json) : bool :=
  match v with JArr _ => true | _ => false end.

Definition is_string (v : Json) : bool :=
  match v with JStr _ => true | _ => false end.

Definition UNSUPPORTED_SCHEMA_KEYWORDS : list string :=
    ["$schema"; "$id"; "$ref"; "$defs"; "definitions"; "exclusiveMinimum";
     "exclusiveMaximum"; "multipleOf"; "minLength"; "maxLength"; "pattern";
     "minItems"; "maxItems"; "uniqueItems"; "minProperties"; "maxProperties";
     "additionalProperties"; "patternProperties"; "allOf"; "anyOf"; "oneOf";
     "not"; "if"; "then"; "else"; "contentMediaType"; "contentEncoding";
     "examples"; "default"; "const"; "readOnly"; "writeOnly"; "deprecated";
     "title"; "format"].

(** [UNSUPPORTED_SCHEMA_KEYWORDS.has(key)] *)
Definition unsupported (key : string) : bool :=
  bool_decide (key ∈ UNSUPPORTED_SCHEMA_KEYWORDS).

(** [t !== null-as-a-string]: the filter of [normalizeType]. *)
Definition is_null_name (t : Json) : bool :=
  match t with JStr s => String.eqb s "null" | _ => false end.

(** [normalizeType]; [None] is [undefined]. *)
Definition normalizeType (type : Json) : option Json :=
  match type with
  | JStr s => Some (JStr s)
  | JArr ts =>
      match List.filter (fun t => negb (is_null_name t)) ts with
      | t :: _ => Some t
      | [] => Some (JStr "string")
      end
  | _ => None
  end.

(** [sanitized[key] = value] on the object under construction: the new own
    property, if the assignment makes one.  An assignment to [__proto__]
    goes to the prototype and makes none. *)
Definition set_property (key : string) (value : Json) : option (string * Json) :=
  if String.eqb key "__proto__" then None else Some (key, value).

(** One turn of the loop of [sanitizeSchema], lines 119 to 149: the
    property it sets, if any. *)
Definition sanitize_entry (sanitize : Json -> Json) (key : string) (value : Json)
  : option (string * Json) :=
  if unsupported key then None
  else if String.eqb key "type" then
    match normalizeType value with
    | Some normalizedType =>
        if js_truthy normalizedType then set_property key normalizedType else None
    | None => None
    end
  else if String.eqb key "items" && is_array value then
    match value with
    | JArr (first :: _) => set_property key (sanitize first)
    | _ => None
    end
  else if js_truthy value && is_object value then set_property key (sanitize value)
  else set_property key value.

Definition sanitize_entries (sanitize : Json -> Json)
  (entries : list (string * Json)) : list (string * Json) :=
  omap (fun entry => sanitize_entry sanitize entry.1 entry.2) entries.

Fixpoint sanitizeSchema (schema : Json) : Json :=
  match schema with
  | JArr items => JArr (map sanitizeSchema items)
  | JObj entries => JObj (sanitize_entries sanitizeSchema entries)
  | _ => schema
  end.

(** The parts of a tool that [sanitizeTool] reads and writes; the schema
    under [lc_kwargs] is [None] when [lc_kwargs?.schema] is undefined. *)
Record DynamicStructuredTool : Type := {
  tool_name : string;
  tool_schema : Json;
  tool_lc_kwargs_schema : option Json
}.

Definition sanitizeTool (tool : DynamicStructuredTool) : DynamicStructuredTool :=
  let sanitizedSchema := sanitizeSchema (tool_schema tool) in
  {| tool_name := tool_name tool;
     tool_schema := sanitizedSchema;
     tool_lc_kwargs_schema :=
       match tool_lc_kwargs_schema tool with
       | Some s => if js_truthy s then Some sanitizedSchema else Some s
       | None => None
       end |}.

(** No unsupported keyword is a key of the schema, at any depth, outside
    the values stored under [type]. *)
Fixpoint stripped (schema : Json) : bool :=
  match schema with
  | JArr items => forallb stripped items
  | JObj entries =>
      forallb (fun entry =>
                 negb (unsupported entry.1)
                 && (String.eqb entry.1 "type" || stripped entry.2))
        entries
  | _ => true
  end.

(** What JSON Schema allows under [type]: a name or a list of names. *)
Definition type_names (v : Json) : bool :=
  match v with
  | JStr _ => true
  | JArr ts => forallb is_string ts
  | _ => false
  end.

(** Outside the unsupported keywords, every [type] is a name or a list of
    names, and the first schema of a tuple [items] is not itself an array. *)
Fixpoint well_typed (schema : Json) : bool :=
  match schema with
  | JArr items => forallb well_typed items
  | JObj entries =>
      forallb (fun entry =>
                 unsupported entry.1
                 || (if String.eqb entry.1 "type" then type_names entry.2
                     else if String.eqb entry.1 "items" && is_array entry.2 then
                       match entry.2 with
                       | JArr (first :: _) => negb (is_array first) && well_typed first
                       | _ => true
                       end
                     else well_typed entry.2))
        entries
  | _ => true
  end.

(** A schema in the form the model provider takes: no unsupported keyword
    and no [__proto__] key, every [type] one non-empty name, no tuple
    [items]. *)
Fixpoint plain (schema : Json) : bool :=
  match schema with
  | JArr items => forallb plain items
  | JObj entries =>
      forallb (fun entry =>
                 negb (unsupported entry.1)
                 && negb (String.eqb entry.1 "__proto__")
                 && (if String.eqb entry.1 "type"
                     then is_string entry.2 && js_truthy entry.2
                     else negb (String.eqb entry.1 "items" && is_array entry.2)
                          && plain entry.2))
        entries
  | _ => true
  end.

(** Induction on JSON values, with the hypothesis for every element of an
    array and every value of an object. *)
Section JsonInduction.
Variable P : Json -> Prop.
Hypothesis HNull : P JNull.
Hypothesis HBool : forall b, P (JBool b).
Hypothesis HNum : forall n, P (JNum n).
Hypothesis HStr : forall s, P (JStr s).
Hypothesis HArr : forall items, Forall P items -> P (JArr items).
Hypothesis HObj :
  forall entries, Forall (fun entry => P entry.2) entries -> P (JObj entries).

Fixpoint Json_induction (j : Json) : P j :=
  match j with
  | JNull => HNull
  | JBool b => HBool b
  | JNum n => HNum n
  | JStr s => HStr s
  | JArr items =>
      HArr items
        ((fix go (l : list Json) : Forall P l :=
            match l with
            | [] => @List.Forall_nil _ P
            | x :: l0 => @List.Forall_cons _ P x l0 (Json_induction x) (go l0)
            end) items)
  | JObj entries =>
      HObj entries
        ((fix go (l : list (string * Json)) : Forall (fun entry => P entry.2) l :=
            match l with
            | [] => @List.Forall_nil _ _
            | e :: l0 =>
                @List.Forall_cons _ (fun entry => P entry.2) e l0
                  (match e with (k, v) => Json_induction v end) (go l0)
            end) entries)
  end.

End JsonInduction.

(* ===================================================================== *)
(** * The MCP client configuration (lib/agent/mcp.ts) *)
(* ===================================================================== *)

Module Mcp.

(** A row of the server table as [getMCPServerConfigs] reads it: the
    columns of the OAuth flow, and those of the launch configuration. *)
Record ServerRow : Type := {
  row_id : string;
  row_enabled : bool;
  row_command : option string;
  row_args : option Json;
  row_env : option Json;
  row_headers : option Json;
  row_server : MCPServer
}.

Inductive MCPServerConfig : Type :=
| StdioMCPServerConfig (command : string) (args : option (list string))
    (env : option Json)
| HttpMCPServerConfig (url : string) (headers : option Json)
    (authProvider : option ServerOAuthProvider).

(** [args.filter((arg) => typeof arg === string)] *)
Definition string_args (args : list Json) : list string :=
  omap (fun arg => match arg with JStr s => Some s | _ => None end) args.

(** [v && typeof v === object && v !== null] *)
Definition object_or_none (v : option Json) : option Json :=
  match v with
  | Some v => if js_truthy v && is_object v then Some v else None
  | None => None
  end.

(** [server.requiresAuth && server.oauthStatus === OAuthStatus.CONNECTED] *)
Definition wants_provider (server : MCPServer) : bool :=
  bool_decide (srv_requiresAuth server = Some true)
  && bool_decide (srv_oauthStatus server = Some OAuthStatus.CONNECTED).

(** Lines 36 to 66: the configuration one server gives, if any. *)
Definition server_config (server : ServerRow) : option MCPServerConfig :=
  let s := row_server server in
  if String.eqb (srv_type s) "stdio" && truthy_str (row_command server) then
    Some (StdioMCPServerConfig (default "" (row_command server))
            (match row_args server with
             | Some (JArr args) => Some (string_args args)
             | _ => None
             end)
            (object_or_none (row_env server)))
  else if String.eqb (srv_type s) "http" && truthy_str (srv_url s) then
    Some (HttpMCPServerConfig (default "" (srv_url s))
            (object_or_none (row_headers server))
            (if wants_provider s
             then Some {| serverId := row_id server; serverName := srv_name s |}
             else None))
  else None.

(** The [authProvider] of a configuration, if it has one. *)
Definition authProvider_of (config : option MCPServerConfig)
  : option ServerOAuthProvider :=
  match config with
  | Some (HttpMCPServerConfig _ _ authProvider) => authProvider
  | _ => None
  end.

(** [configs[name] = config]; an assignment to [__proto__] makes no
    entry. *)
Definition set_config (name : string) (config : MCPServerConfig)
  (configs : gmap string MCPServerConfig) : gmap string MCPServerConfig :=
  if String.eqb name "__proto__" then configs else <[name := config]> configs.

Definition add_server (configs : gmap string MCPServerConfig) (server : ServerRow)
  : gmap string MCPServerConfig :=
  match server_config server with
  | Some config => set_config (srv_name (row_server server)) config configs
  | None => configs
  end.

(** [prisma.mCPServer.findMany({ where: { enabled: true } })] on a read of
    the table that may fail. *)
Definition findMany_enabled (table : Completion (list ServerRow))
  : Completion (list ServerRow) :=
  match table with
  | Normal rows => Normal (List.filter row_enabled rows)
  | Throw e => Throw e
  end.

Definition getMCPServerConfigs (table : Completion (list ServerRow))
  : gmap string MCPServerConfig :=
  match findMany_enabled table with
  | Normal servers => fold_left add_server servers ∅
  | Throw _ => ∅
  end.

(** The options [createMCPClient] builds the client with. *)
Record ClientOptions : Type := {
  mcpServers : gmap string MCPServerConfig;
  throwOnLoadError : bool;
  prefixToolNameWithServerName : bool
}.

(** The adapter library: whether [new MultiServerMCPClient(options)]
    throws, and what [client.getTools()] gives. *)
Record Adapter : Type := {
  construct : ClientOptions -> option JsError;
  getTools : ClientOptions -> Completion (list DynamicStructuredTool)
}.

(** [createMCPClient]; [None] is [null]. *)
Definition createMCPClient (adapter : Adapter) (table : Completion (list ServerRow))
  : option ClientOptions :=
  let mcpServers := getMCPServerConfigs table in
  if bool_decide (size mcpServers = 0%nat) then None
  else
    let options := {| mcpServers := mcpServers;
                      throwOnLoadError := false;
                      prefixToolNameWithServerName := true |} in
    match construct adapter options with
    | Some _ => None
    | None => Some options
    end.

Definition getMCPTools (adapter : Adapter) (table : Completion (list ServerRow))
  : list DynamicStructuredTool :=
  match createMCPClient adapter table with
  | None => []
  | Some client =>
      match getTools adapter client with
      | Normal tools => map sanitizeTool tools
      | Throw _ => []
      end
  end.

End Mcp.

(* ===================================================================== *)
(** * Facts about strings and the challenge patterns *)
(* ===================================================================== *)

Module StrFacts.
Import Str Regex.

Lemma app_cons (c : ascii) (s t : string) :
  String c s +:+ t = String c (s +:+ t).
Proof. reflexivity. Qed.

Lemma strip_prefix_app (p s : string) : strip_prefix p (p +:+ s) = Some s.
Proof.
  induction p as [|a p IH]; [done|].
  rewrite app_cons. simpl. by rewrite Ascii.eqb_refl.
Qed.

Lemma strip_prefix_Some (p s r : string) :
  strip_prefix p s = Some r -> s = p +:+ r.
Proof.
  revert s. induction p as [|a p IH]; intros s H; simpl in H.
  - by inversion H.
  - destruct s as [|b s]; [done|].
    destruct (Ascii.eqb_spec a b) as [->|]; [|done].
    rewrite app_cons. f_equal. by apply IH.
Qed.

Lemma until_quote_app (x post : string) :
  quote_free x -> until_quote (x +:+ dquote_str +:+ post) = Some x.
Proof.
  induction x as [|c x IH]; intros Hq.
  - reflexivity.
  - destruct Hq as [Hc Hx]. rewrite app_cons. simpl.
    destruct (Ascii.eqb_spec c dquote) as [|_]; [done|].
    by rewrite (IH Hx).
Qed.

Lemma until_quote_Some (s x : string) :
  until_quote s = Some x ->
  quote_free x /\ exists post, s = x +:+ dquote_str +:+ post.
Proof.
  revert x. induction s as [|c s IH]; intros x H; simpl in H; [done|].
  destruct (Ascii.eqb_spec c dquote) as [->|Hc].
  - inversion H; subst. split; [done|]. by exists s.
  - destruct (until_quote s) as [y|] eqn:Hy; [|done].
    inversion H; subst. destruct (IH y eq_refl) as [Hq [post ->]].
    split; [done|]. by exists post.
Qed.

Lemma match_here_occurs (key s x : string) :
  match_here key s = Some x <-> exists post, occurs_at key s "" x post.
Proof.
  unfold match_here, occurs_at. split.
  - destruct (strip_prefix (literal key) s) as [rest|] eqn:Hp; [|done].
    apply strip_prefix_Some in Hp as ->.
    destruct (until_quote rest) as [[|c y]|] eqn:Hu; [done| |done].
    intros [= <-]. apply until_quote_Some in Hu as [Hq [post ->]].
    by exists post.
  - intros (post & -> & Hne & Hq).
    change ("" +:+ ?t) with t. rewrite strip_prefix_app.
    rewrite (until_quote_app _ _ Hq). by destruct x.
Qed.

Lemma occurs_at_cons (key h pre x post : string) (c : ascii) :
  occurs_at key (String c h) (String c pre) x post <-> occurs_at key h pre x post.
Proof.
  unfold occurs_at. rewrite app_cons. split; intros (H & ? & ?); split_and!; try done.
  - by inversion H.
  - by rewrite H.
Qed.

Lemma occurs_at_head (key h pre x post : string) (c : ascii) :
  occurs_at key (String c h) pre x post ->
  (pre = "" \/ exists pre', pre = String c pre' /\ occurs_at key h pre' x post).
Proof.
  destruct pre as [|c' pre']; [by left|]. intros H. right.
  assert (c' = c) as ->.
  { pose proof H as [Heq _]. rewrite app_cons in Heq. by inversion Heq. }
  exists pre'. split; [done|]. exact (proj1 (occurs_at_cons _ _ _ _ _ _) H).
Qed.

Lemma first_match_here (key s x : string) :
  match_here key s = Some x -> first_match key s = Some x.
Proof. intros H. destruct s; simpl; by rewrite H. Qed.

(** The capture of the leftmost match is the value at the leftmost
    occurrence. *)
Lemma first_match_sound (key h x : string) :
  first_match key h = Some x -> first_occurrence key h x.
Proof.
  induction h as [|c h IH]; simpl.
  - destruct (match_here key "") as [y|] eqn:Hm; [|done].
    intros [= ->]. apply match_here_occurs in Hm as [post Hocc].
    exists "", post. split; [done|]. intros; simpl; lia.
  - destruct (match_here key (String c h)) as [y|] eqn:Hm.
    + intros [= ->]. apply match_here_occurs in Hm as [post Hocc].
      exists "", post. split; [done|]. intros; simpl; lia.
    + intros Hf. destruct (IH Hf) as (pre & post & Hocc & Hmin).
      exists (String c pre), post.
      split; [exact (proj2 (occurs_at_cons _ _ _ _ _ _) Hocc)|].
      intros pre' x' post' Hocc'.
      pose proof (occurs_at_head _ _ _ _ _ _ Hocc') as [->|(p & -> & Hp)].
      * assert (match_here key (String c h) = Some x') as Hm'
          by (apply match_here_occurs; eauto).
        congruence.
      * simpl. specialize (Hmin _ _ _ Hp). lia.
Qed.

Lemma first_match_None (key h : string) :
  first_match key h = None <-> no_occurrence key h.
Proof.
  split.
  - induction h as [|c h IH]; simpl.
    + destruct (match_here key "") as [y|] eqn:Hm; [done|].
      intros _ pre x post Hocc.
      destruct pre as [|c' pre'].
      * assert (match_here key "" = Some x) by (apply match_here_occurs; eauto).
        congruence.
      * destruct Hocc as [Hocc _]. by rewrite app_cons in Hocc.
    + destruct (match_here key (String c h)) as [y|] eqn:Hm; [done|].
      intros Hf pre x post Hocc.
      pose proof (occurs_at_head _ _ _ _ _ _ Hocc) as [->|(p & -> & Hp)].
      * assert (match_here key (String c h) = Some x)
          by (apply match_here_occurs; eauto).
        congruence.
      * by apply (IH Hf p x post).
  - intros Hno. destruct (first_match key h) as [x|] eqn:Hf; [|done].
    apply first_match_sound in Hf as (pre & post & Hocc & _).
    by destruct (Hno pre x post).
Qed.

(** The value at the leftmost occurrence is what the leftmost match
    captures. *)
Lemma first_match_complete (key h x : string) :
  first_occurrence key h x -> first_match key h = Some x.
Proof.
  intros (pre & post & Hocc & Hmin). revert h Hocc Hmin.
  induction pre as [|c pre IH]; intros h Hocc Hmin.
  - assert (match_here key h = Some x) as Hm
      by (apply match_here_occurs; eauto).
    destruct h; simpl; by rewrite Hm.
  - destruct h as [|c' h].
    { destruct Hocc as [Hocc _]. by rewrite app_cons in Hocc. }
    assert (c' = c) as ->.
    { pose proof Hocc as [Heq _]. rewrite app_cons in Heq. by inversion Heq. }
    simpl. destruct (match_here key (String c h)) as [y|] eqn:Hm.
    + apply match_here_occurs in Hm as [post' Hocc'].
      specialize (Hmin _ _ _ Hocc'). simpl in Hmin. lia.
    + apply IH; [exact (proj1 (occurs_at_cons _ _ _ _ _ _) Hocc)|].
      intros pre' x' post' Hocc'.
      assert (occurs_at key (String c h) (String c pre') x' post') as H
        by exact (proj2 (occurs_at_cons _ _ _ _ _ _) Hocc').
      specialize (Hmin _ _ _ H). simpl in Hmin. lia.
Qed.

End StrFacts.

(* ===================================================================== *)
(** * Requirement detection *)
(* ===================================================================== *)

Module DetectionFacts.
Import Str Regex StrFacts Scenario.

Local Arguments contains_bearer : simpl never.
Local Arguments extractResourceMetadataUrl : simpl never.

(** Detection makes the probe, never throws, and its answer is a function
    of the outcome of the probe alone. *)
Lemma detect_run (w : World) (url : string) (s : St) :
  detectOAuthRequirement w url s =
  (Normal (detection_of (fetch w url)),
   {| st_db := st_db s; st_trace := st_trace s ++ [EvFetch url] |}).
Proof.
  unfold detectOAuthRequirement, try_catch, call, bind, emit, lift, ret,
    detection_of.
  destruct (fetch w url) as [response|e]; simpl; [|done].
  destruct (http_status response =? 401); [|done].
  destruct (www_authenticate response) as [h|]; [|done].
  by destruct (contains_bearer (Some h)).
Qed.

Lemma detect_result (w : World) (url : string) (db : gmap string MCPServer) :
  run (detectOAuthRequirement w url) db =
  (Normal (detection_of (fetch w url)), db, [EvFetch url]).
Proof. unfold run. by rewrite detect_run. Qed.

Lemma extract_resource_metadata (h x : string) :
  first_occurrence "resource_metadata" h x -> extractResourceMetadataUrl h = Some x.
Proof.
  intros H. unfold extractResourceMetadataUrl.
  by rewrite (first_match_complete _ _ _ H).
Qed.

Lemma extract_realm (h y : string) :
  no_occurrence "resource_metadata" h -> first_occurrence "realm" h y ->
  extractResourceMetadataUrl h = Some y.
Proof.
  intros Hno H. unfold extractResourceMetadataUrl.
  rewrite (proj2 (first_match_None _ _) Hno).
  by apply first_match_complete.
Qed.

Lemma extract_nothing (h : string) :
  no_occurrence "resource_metadata" h -> no_occurrence "realm" h ->
  extractResourceMetadataUrl h = None.
Proof.
  intros Hrm Hrealm. unfold extractResourceMetadataUrl.
  rewrite (proj2 (first_match_None _ _) Hrm).
  by apply first_match_None.
Qed.

(** A header whose scheme is Bearer, in any letter case, names it. *)
Lemma scheme_bearer_contains_bearer (h rest : string) :
  toLowerCase h = "bearer" +:+ rest -> contains_bearer (Some h) = true.
Proof.
  intros H. unfold contains_bearer. rewrite H.
  destruct h as [|c h]; [done|]. unfold truthy_str. simpl.
  by destruct rest.
Qed.

Lemma bearer_with_extract (X : string) :
  X <> "" -> quote_free X -> extractResourceMetadataUrl (bearer_with X) = Some X.
Proof.
  intros Hne Hq. unfold extractResourceMetadataUrl.
  assert (first_match "resource_metadata" (bearer_with X) = Some X) as ->; [|done].
  assert (match_here "resource_metadata"
            (literal "resource_metadata" +:+ X +:+ dquote_str +:+ "") = Some X) as Hm.
  { apply match_here_occurs. by exists "". }
  unfold bearer_with.
  change ("Bearer resource_metadata=" +:+ dquote_str +:+ X +:+ dquote_str)
    with ("Bearer " +:+ literal "resource_metadata" +:+ X +:+ dquote_str +:+ "").
  set (tail := literal "resource_metadata" +:+ X +:+ dquote_str +:+ "") in *.
  assert (first_match "resource_metadata" tail = Some X) as Ht
    by (by apply first_match_here).
  change ("Bearer " +:+ tail) with
    (String "B" (String "e" (String "a" (String "r" (String "e" (String "r"
       (String " " tail))))))).
  assert (exists t', tail = String "r" (String "e" (String "s" t'))) as (t' & Et).
  { by eexists. }
  rewrite Et in *. simpl. exact Ht.
Qed.

End DetectionFacts.

Section Detection.
Import Regex DetectionFacts.

Local Arguments contains_bearer : simpl never.
Local Arguments extractResourceMetadataUrl : simpl never.

(** C3, as amended.  Detection is a function of the HTTP response of the
    probe: any two probes that receive the same response get the same
    answer.  On a 401 whose [WWW-Authenticate] header contains [bearer] in
    any letter case, as every header that names the Bearer scheme does, the
    answer is [requiresAuth = true], with [resourceMetadataUrl] the quoted
    value at the leftmost place of the header where the text
    [resource_metadata=QxQ] stands, with [x] non-empty -- whether or not
    that text is a parameter of its own --, else the quoted value at the
    leftmost place where [realm=QxQ] stands, else undefined; in particular
    the challenge [Bearer resource_metadata=QXQ] yields [X].  On a 200 the
    answer is [requiresAuth = false]. *)
Theorem detection_deterministic_on_response
  (w : World) (url : string) (db : gmap string MCPServer) (resp : HttpResponse) :
  fetch w url = Normal resp ->
  let result := (run (detectOAuthRequirement w url) db).1.1 in
  (forall w' url' db',
      fetch w' url' = Normal resp ->
      (run (detectOAuthRequirement w' url') db').1.1 = result)
  /\ (http_status resp = 401 ->
      forall h, www_authenticate resp = Some h -> contains_bearer (Some h) = true ->
      exists u,
        result = Normal {| det_requiresAuth := true;
                           det_resourceMetadataUrl := u;
                           det_error := None |}
        /\ (forall x, first_occurrence "resource_metadata" h x -> u = Some x)
        /\ (no_occurrence "resource_metadata" h ->
            forall y, first_occurrence "realm" h y -> u = Some y)
        /\ (no_occurrence "resource_metadata" h -> no_occurrence "realm" h -> u = None))
  /\ (http_status resp = 401 ->
      forall X, X <> "" -> quote_free X ->
      www_authenticate resp = Some (Scenario.bearer_with X) ->
      result = Normal {| det_requiresAuth := true;
                         det_resourceMetadataUrl := Some X;
                         det_error := None |})
  /\ (http_status resp = 200 ->
      result = Normal {| det_requiresAuth := false;
                         det_resourceMetadataUrl := None;
                         det_error := None |}).
Proof.
  intros Hfetch result. subst result. rewrite detect_result, Hfetch. simpl.
  split_and!.
  - intros w' url' db' Hfetch'. by rewrite detect_result, Hfetch'.
  - intros -> h -> Hb. rewrite Hb. simpl.
    exists (extractResourceMetadataUrl h). split_and!; [done| | |].
    + intros x Hx. by apply extract_resource_metadata.
    + intros Hno y Hy. by apply extract_realm.
    + intros Hrm Hrealm. by apply extract_nothing.
  - intros -> X Hne Hq ->. simpl.
    by rewrite bearer_with_extract.
  - by intros ->.
Qed.

(** The probe of the example: a 401 with the example challenge. *)
Lemma detection_deterministic_on_response_witness :
  (run (detectOAuthRequirement
          (Scenario.world Scenario.app Scenario.production
             Scenario.unauthorized SdkResolve)
          Scenario.server_url) ∅).1.1
  = Normal {| det_requiresAuth := true;
              det_resourceMetadataUrl := Some Scenario.metadata_url;
              det_error := None |}.
Proof.
  destruct (detection_deterministic_on_response
              (Scenario.world Scenario.app Scenario.production
                 Scenario.unauthorized SdkResolve)
              Scenario.server_url ∅
              {| http_status := 401;
                 www_authenticate := Some Scenario.bearer_challenge |}
              eq_refl) as (_ & _ & H & _).
  apply (H eq_refl Scenario.metadata_url).
  - discriminate.
  - vm_compute. intuition discriminate.
  - reflexivity.
Defined.

(** C3, as stated, fails: this challenge of the Bearer scheme has one
    parameter, called [xresource_metadata]; it has no [resource_metadata]
    and no [realm] parameter, and detection reports the value [pref]. *)
Lemma detection_reads_text_counterexample :
  let h := "Bearer xresource_metadata=" +:+ dquote_str +:+ "pref" +:+ dquote_str in
  Challenge.scheme h = "Bearer"
  /\ Challenge.params h = [("xresource_metadata", "pref")]
  /\ Challenge.param "resource_metadata" h = None
  /\ Challenge.param "realm" h = None
  /\ (run (detectOAuthRequirement
             (Scenario.world Scenario.app Scenario.production
                (Normal {| http_status := 401; www_authenticate := Some h |})
                SdkResolve)
             Scenario.server_url) ∅).1.1
     = Normal {| det_requiresAuth := true;
                 det_resourceMetadataUrl := Some "pref";
                 det_error := None |}.
Proof. vm_compute. by split_and!. Qed.

(** C4.  Whatever the probe meets, detection returns and does not throw,
    and it leaves the table alone.  A response with a status other than
    401 gives [requiresAuth = false] with no error; a probe that fails at
    the transport level gives [requiresAuth = false] with the message of
    the failure in [error]. *)
Theorem detection_advisory_on_failure
  (w : World) (url : string) (db : gmap string MCPServer) :
  let out := run (detectOAuthRequirement w url) db in
  (exists r, out.1.1 = Normal r)
  /\ out.1.2 = db
  /\ (forall resp,
        fetch w url = Normal resp -> http_status resp <> 401 ->
        out.1.1 = Normal {| det_requiresAuth := false;
                            det_resourceMetadataUrl := None;
                            det_error := None |})
  /\ (forall e,
        fetch w url = Throw e ->
        out.1.1 = Normal {| det_requiresAuth := false;
                            det_resourceMetadataUrl := None;
                            det_error := Some (error_message_or e "Unknown error") |}).
Proof.
  intros out. subst out. rewrite detect_result. simpl. split_and!.
  - by eexists.
  - done.
  - intros resp -> Hne. simpl.
    destruct (Z.eqb_spec (http_status resp) 401); [done|done].
  - by intros e ->.
Qed.

(** A connection refused, and a 503. *)
Lemma detection_advisory_on_failure_witness :
  (run (detectOAuthRequirement
          (Scenario.world Scenario.app Scenario.production
             (Throw (ErrorObj "connect ECONNREFUSED")) SdkResolve)
          Scenario.server_url) ∅).1.1
  = Normal {| det_requiresAuth := false;
              det_resourceMetadataUrl := None;
              det_error := Some "connect ECONNREFUSED" |}
  /\ (run (detectOAuthRequirement
             (Scenario.world Scenario.app Scenario.production
                (Normal {| http_status := 503; www_authenticate := None |})
                SdkResolve)
             Scenario.server_url) ∅).1.1
     = Normal {| det_requiresAuth := false;
                 det_resourceMetadataUrl := None;
                 det_error := None |}.
Proof.
  split.
  - destruct (detection_advisory_on_failure
                (Scenario.world Scenario.app Scenario.production
                   (Throw (ErrorObj "connect ECONNREFUSED")) SdkResolve)
                Scenario.server_url ∅) as (_ & _ & _ & H).
    exact (H (ErrorObj "connect ECONNREFUSED") eq_refl).
  - destruct (detection_advisory_on_failure
                (Scenario.world Scenario.app Scenario.production
                   (Normal {| http_status := 503; www_authenticate := None |})
                   SdkResolve)
                Scenario.server_url ∅) as (_ & _ & H & _).
    apply (H {| http_status := 503; www_authenticate := None |} eq_refl).
    simpl. lia.
Defined.

End Detection.


Section TokenExpiry.

(** C5.  The code at the failing input.  A bundle whose [expires_at] is
    zero carries expiry information, the epoch itself, and at every instant
    the guard reports it valid; at 2023-11-14T22:13:20Z the comparison the
    function is written to make, [Date.now() / 1000 > expires_at - 60],
    holds for it, and a bundle that ran out one second after the epoch is
    reported expired.  A bundle that ran out one second ago is reported
    expired, one that runs out in 120 seconds valid, and a bundle without
    [expires_at] and a missing bundle valid. *)
Theorem isTokenExpired_zero_expiry :
  (forall now_ms,
      isTokenExpired now_ms (Some (Scenario.bundle (Some (Number.of_Z 0)))) = false)
  /\ past_buffer 1700000000000 (Number.of_Z 0) = true
  /\ isTokenExpired 1700000000000 (Some (Scenario.bundle (Some (Number.of_Z 1))))
     = true
  /\ isTokenExpired 1700000000000
       (Some (Scenario.bundle (Some (Number.of_Z 1699999999)))) = true
  /\ isTokenExpired 1700000000000
       (Some (Scenario.bundle (Some (Number.of_Z 1700000120)))) = false
  /\ (forall now_ms, isTokenExpired now_ms (Some (Scenario.bundle None)) = false)
  /\ (forall now_ms, isTokenExpired now_ms None = false).
Proof.
  split_and!; try (intros now_ms; reflexivity); vm_compute; reflexivity.
Qed.

End TokenExpiry.


(* ===================================================================== *)
(** * Reasoning about handlers *)
(* ===================================================================== *)

Lemma update_found (id : string) (d : UpdateData) (r : MCPServer) (s : St) :
  st_db s !! id = Some r -> prisma.update id d s = (Normal tt, updated id d r s).
Proof. intros H. unfold prisma.update. by rewrite H. Qed.

Section Stable.
Context (R : St -> St -> Prop) `{!PreOrder R}.
Context (ok_event : Event -> Prop) (ok_update : UpdateData -> Prop).
Hypothesis R_push : forall e s, ok_event e -> R s (push e s).
Hypothesis R_updated :
  forall id d r s, ok_update d -> st_db s !! id = Some r -> R s (updated id d r s).

Lemma stable_ret {A} (a : A) : stable R (ret a).
Proof. intros s. reflexivity. Qed.

Lemma stable_throw {A} (e : JsError) : stable R (@throw A e).
Proof. intros s. reflexivity. Qed.

Lemma stable_lift {A} (c : Completion A) : stable R (lift c).
Proof. intros s. reflexivity. Qed.

Lemma stable_bind {A B} (m : M A) (k : A -> M B) :
  stable R m -> (forall a, stable R (k a)) -> stable R (bind m k).
Proof.
  intros Hm Hk s. unfold bind. specialize (Hm s).
  destruct (m s) as [[a|e] s1]; simpl in *; [|done].
  etrans; [exact Hm|]. apply Hk.
Qed.

Lemma stable_try_catch {A} (body : M A) (handler : JsError -> M A) :
  stable R body -> (forall e, stable R (handler e)) -> stable R (try_catch body handler).
Proof.
  intros Hb Hh s. unfold try_catch. specialize (Hb s).
  destruct (body s) as [[a|e] s1]; simpl in *; [done|].
  etrans; [exact Hb|]. apply Hh.
Qed.

Lemma stable_attempt {A} (m : M A) : stable R m -> stable R (attempt m).
Proof.
  intros Hm s. unfold attempt. specialize (Hm s). by destruct (m s).
Qed.

Lemma stable_emit (e : Event) : ok_event e -> stable R (emit e).
Proof. intros He s. by apply R_push. Qed.

Lemma stable_call {A} (e : Event) (c : Completion A) :
  ok_event e -> stable R (call e c).
Proof.
  intros He. apply stable_bind; [by apply stable_emit|]. intros _. apply stable_lift.
Qed.

Lemma stable_findUnique (id : string) : stable R (prisma.findUnique id).
Proof. intros s. reflexivity. Qed.

Lemma stable_findFirst_http (id : string) : stable R (prisma.findFirst_http id).
Proof. intros s. reflexivity. Qed.

Lemma stable_update (id : string) (d : UpdateData) :
  ok_update d -> stable R (prisma.update id d).
Proof.
  intros Hd s. unfold prisma.update.
  destruct (st_db s !! id) as [r|] eqn:Hr; simpl; [|reflexivity].
  by apply R_updated.
Qed.

Lemma stable_detectOAuthRequirement (w : World) (url : string) :
  ok_event (EvFetch url) -> stable R (detectOAuthRequirement w url).
Proof.
  intros He s. rewrite DetectionFacts.detect_run. simpl. by apply R_push.
Qed.

Lemma stable_clientInformation p : stable R (Provider.clientInformation p).
Proof.
  unfold Provider.clientInformation.
  apply stable_bind; [apply stable_findUnique|]. intros ?. apply stable_ret.
Qed.

Lemma stable_authorize w p a md ci :
  (forall u, ok_event (EvStartAuthorization a ci u)) ->
  (forall v, ok_update (verifier_update v)) ->
  stable R (Check.authorize w p a md ci).
Proof.
  intros He Hv. unfold Check.authorize.
  apply stable_bind; [apply stable_lift|]. intros redirectUrl.
  apply stable_bind; [by apply stable_call|]. intros [authorizationUrl codeVerifier].
  apply stable_bind; [apply stable_update, Hv|]. intros _. apply stable_ret.
Qed.

Lemma stable_redirect w target appUrl : stable R (Callback.redirect w target appUrl).
Proof.
  unfold Callback.redirect.
  apply stable_bind; [apply stable_lift|]. intros ?. apply stable_ret.
Qed.

Lemma stable_generate_with w p url det :
  (forall hint, ok_event (EvDiscoverResourceMetadata url hint)) ->
  (forall a, ok_event (EvDiscoverAuthServerMetadata a)) ->
  (forall a md, stable R (Check.client_and_authorize w p a md)) ->
  stable R (Check.generate w p url det).
Proof.
  intros Hrm Has Hk. unfold Check.generate. apply stable_try_catch.
  - apply stable_bind; [apply stable_lift|]. intros _.
    apply stable_bind; [by apply stable_call|]. intros rm.
    destruct (Check.first_authorization_server rm) as [a|]; [|apply stable_ret].
    apply stable_bind; [by apply stable_call|]. intros [md|]; [|apply stable_ret].
    apply Hk.
  - intros e. apply stable_ret.
Qed.

Lemma stable_check_with w id :
  (forall st, st ∈ OAuthStatus.values -> ok_update (status_update st)) ->
  (forall url, ok_event (EvFetch url)) ->
  (forall url hint, ok_event (EvDiscoverResourceMetadata url hint)) ->
  (forall a, ok_event (EvDiscoverAuthServerMetadata a)) ->
  (forall name a md,
      stable R (Check.client_and_authorize w
                  {| serverId := id; serverName := name |} a md)) ->
  stable R (Check.GET w id).
Proof.
  intros Hst Hfetch Hrm Has Hk.
  assert (forall st, st ∈ OAuthStatus.values ->
                     stable R (updateServerOAuthStatus id st)) as Hupd.
  { intros st Hin. by apply stable_update, Hst. }
  assert (forall server, stable R (Check.detect w id server)) as Hdet.
  { intros server. unfold Check.detect.
    apply stable_bind; [by apply stable_detectOAuthRequirement|].
    intros det. destruct (negb _).
    - apply stable_bind; [apply Hupd; set_solver|]. intros _. apply stable_ret.
    - apply stable_bind; [apply Hupd; set_solver|]. intros _.
      by apply stable_generate_with. }
  unfold Check.GET.
  apply stable_bind; [apply stable_findFirst_http|].
  intros [server|]; [|apply stable_ret].
  destruct (Check.connected_with_tokens server); [|apply Hdet].
  destruct (negb _); [apply stable_ret|].
  apply stable_bind; [apply Hupd; set_solver|]. intros _. apply Hdet.
Qed.

(** From here on, every event other than a table update is fine. *)
Hypothesis ok_other : forall e, (forall id d, e <> EvDbUpdate id d) -> ok_event e.

(** One step of a stability proof: peel a combinator, or split on what the
    computation branches on. *)
Ltac stable_step :=
  first
    [ apply stable_ret | apply stable_throw | apply stable_lift
    | apply stable_findUnique | apply stable_findFirst_http
    | apply stable_call; apply ok_other; discriminate
    | apply stable_emit; apply ok_other; discriminate
    | apply stable_attempt
    | apply stable_bind; [|intros ?]
    | apply stable_try_catch; [|intros ?]
    | match goal with
      | |- stable _ (match ?x with _ => _ end) => destruct x
      end ].

Section Sdk.
Hypothesis ok_clientInfo : forall info, ok_update (clientInfo_update info).
Hypothesis ok_tokens : forall t, ok_update (tokens_update t).
Hypothesis ok_verifier : forall v, ok_update (verifier_update v).

Lemma stable_run_sdk (w : World) (p : ServerOAuthProvider) (prog : SdkProg) :
  stable R (run_sdk w p prog).
Proof.
  induction prog as [|e|label k IH|k IH|k IH|k IH|info k IH|k IH|t k IH
                    |url k IH|v k IH|k IH]; simpl;
    try (apply stable_bind; [|intros c; apply IH]).
  - apply stable_ret.
  - apply stable_throw.
  - apply stable_emit, ok_other. discriminate.
  - apply stable_ret.
  - apply stable_ret.
  - apply stable_attempt, stable_clientInformation.
  - apply stable_attempt, stable_update, ok_clientInfo.
  - unfold Provider.tokens. repeat stable_step.
  - apply stable_attempt, stable_update, ok_tokens.
  - apply stable_attempt, stable_throw.
  - apply stable_attempt, stable_update, ok_verifier.
  - unfold Provider.codeVerifier. repeat stable_step.
Qed.

End Sdk.

Section CheckHandler.
Hypothesis ok_status :
  forall st, st ∈ OAuthStatus.values -> ok_update (status_update st).
Hypothesis ok_clientInfo : forall info, ok_update (clientInfo_update info).
Hypothesis ok_verifier : forall v, ok_update (verifier_update v).

Lemma stable_client_and_authorize w p a md :
  stable R (Check.client_and_authorize w p a md).
Proof.
  unfold Check.client_and_authorize.
  apply stable_bind; [apply stable_clientInformation|]. intros [ci|].
  - apply stable_authorize; [|exact ok_verifier].
    intros u. apply ok_other. discriminate.
  - destruct (truthy_str _); [|apply stable_ret].
    apply stable_bind; [apply stable_lift|]. intros cm.
    apply stable_bind; [apply stable_call, ok_other; discriminate|]. intros ci.
    apply stable_bind; [apply stable_update, ok_clientInfo|]. intros _.
    apply stable_authorize; [|exact ok_verifier].
    intros u. apply ok_other. discriminate.
Qed.

Lemma stable_generate w p url det : stable R (Check.generate w p url det).
Proof.
  apply stable_generate_with.
  - intros hint. apply ok_other. discriminate.
  - intros a. apply ok_other. discriminate.
  - apply stable_client_and_authorize.
Qed.

Lemma stable_check w id : stable R (Check.GET w id).
Proof.
  apply stable_check_with.
  - exact ok_status.
  - intros url. apply ok_other. discriminate.
  - intros url hint. apply ok_other. discriminate.
  - intros a. apply ok_other. discriminate.
  - intros name a md. apply stable_client_and_authorize.
Qed.

End CheckHandler.

Section CallbackHandler.
Hypothesis ok_clientInfo : forall info, ok_update (clientInfo_update info).
Hypothesis ok_tokens : forall t, ok_update (tokens_update t).
Hypothesis ok_verifier : forall v, ok_update (verifier_update v).
Hypothesis ok_connected : ok_update Callback.connected_update.
Hypothesis ok_required : ok_update Callback.required_update.

Lemma stable_exchange w id code appUrl server :
  stable R (Callback.exchange w id code appUrl server).
Proof.
  unfold Callback.exchange. apply stable_try_catch.
  - apply stable_bind.
    { unfold Callback.finish. apply stable_bind; [apply stable_lift|].
      intros _. by apply stable_run_sdk. }
    intros _.
    apply stable_bind; [apply stable_update, ok_connected|]. intros _.
    apply stable_redirect.
  - intros err. apply stable_bind; [apply stable_update, ok_required|]. intros _.
    apply stable_redirect.
Qed.

Lemma stable_callback w id q : stable R (Callback.GET w id q).
Proof.
  unfold Callback.GET.
  apply stable_bind; [apply stable_lift|]. intros appUrl.
  destruct (q_error q) as [[|c e]|]; try apply stable_redirect;
    (destruct (q_code q) as [[|c' code]|]; try apply stable_redirect;
     apply stable_bind; [apply stable_findUnique|];
     intros [server|]; [|apply stable_redirect];
     destruct (truthy_str (srv_url server));
       [apply stable_exchange|apply stable_redirect]).
Qed.

End CallbackHandler.

End Stable.

(** ** The relations used below *)

Lemma run_eq {A} (m : M A) (db : gmap string MCPServer) :
  run m db = ((m (init db)).1, st_db (m (init db)).2, st_trace (m (init db)).2).
Proof. unfold run, init. by destruct (m _). Qed.

Global Instance keeps_preorder {X} (f : MCPServer -> X) : PreOrder (keeps f).
Proof.
  split.
  - by intros s id.
  - intros s1 s2 s3 H12 H23 id. by rewrite H23, H12.
Qed.

Lemma keeps_push {X} (f : MCPServer -> X) (e : Event) (s : St) :
  keeps f s (push e s).
Proof. by intros id. Qed.

Lemma keeps_updated {X} (f : MCPServer -> X) id d r s :
  leaves f d -> st_db s !! id = Some r -> keeps f s (updated id d r s).
Proof.
  intros Hd Hr id'. simpl. destruct (decide (id = id')) as [<-|Hne].
  - rewrite lookup_insert_eq, Hr. simpl. by rewrite Hd.
  - by rewrite lookup_insert_ne.
Qed.

Global Instance extends_preorder (P : Event -> Prop) : PreOrder (extends P).
Proof.
  split.
  - intros s. exists []. by rewrite app_nil_r.
  - intros s1 s2 s3 (e12 & H12 & P12) (e23 & H23 & P23).
    exists (e12 ++ e23). split.
    + by rewrite H23, H12, <- app_assoc.
    + by apply Forall_app.
Qed.

Lemma extends_push (P : Event -> Prop) (e : Event) (s : St) :
  P e -> extends P s (push e s).
Proof. intros He. exists [e]. split; [done|]. by constructor. Qed.

Lemma extends_updated (P : Event -> Prop) id d r s :
  P (EvDbUpdate id d) -> extends P s (updated id d r s).
Proof. intros He. exists [EvDbUpdate id d]. split; [done|]. by constructor. Qed.

Global Instance carries_validity_preorder : PreOrder carries_validity.
Proof.
  split.
  - by intros s H.
  - intros s1 s2 s3 H12 H23 H. by apply H23, H12.
Qed.

Lemma carries_validity_updated id d r s :
  sets_valid_status d -> st_db s !! id = Some r ->
  carries_validity s (updated id d r s).
Proof.
  intros Hd Hr Hvalid id' r'. simpl.
  destruct (decide (id = id')) as [<-|Hne].
  - rewrite lookup_insert_eq. intros [= <-]. simpl.
    destruct (set_oauthStatus d) as [st|] eqn:Hst.
    + exists st. split; [done|]. by apply Hd.
    + by apply (Hvalid id r).
  - rewrite lookup_insert_ne by done. apply Hvalid.
Qed.

Lemma flow_update_sets_valid_status (d : UpdateData) :
  flow_update d -> sets_valid_status d.
Proof.
  intros [st Hst| | | | |] st'; simpl; intros [= <-];
    first [done | set_solver].
Qed.

(** Every handler carries the validity of the stored statuses over. *)
Lemma check_carries_validity w id : stable carries_validity (Check.GET w id).
Proof.
  apply (stable_check carries_validity (fun _ => True) sets_valid_status).
  - by intros e s _ H.
  - intros. by apply carries_validity_updated.
  - done.
  - intros st Hst. by apply flow_update_sets_valid_status, fu_status.
  - intros info. apply flow_update_sets_valid_status, fu_clientInfo.
  - intros v. apply flow_update_sets_valid_status, fu_verifier.
Qed.

Lemma callback_carries_validity w id q : stable carries_validity (Callback.GET w id q).
Proof.
  apply (stable_callback carries_validity (fun _ => True) sets_valid_status).
  - by intros e s _ H.
  - intros. by apply carries_validity_updated.
  - done.
  - intros info. apply flow_update_sets_valid_status, fu_clientInfo.
  - intros t. apply flow_update_sets_valid_status, fu_tokens.
  - intros v. apply flow_update_sets_valid_status, fu_verifier.
  - apply flow_update_sets_valid_status, fu_connected.
  - apply flow_update_sets_valid_status, fu_required.
Qed.

Lemma run_sdk_carries_validity w p prog : stable carries_validity (run_sdk w p prog).
Proof.
  apply (stable_run_sdk carries_validity (fun _ => True) sets_valid_status).
  - by intros e s _ H.
  - intros. by apply carries_validity_updated.
  - done.
  - intros info. apply flow_update_sets_valid_status, fu_clientInfo.
  - intros t. apply flow_update_sets_valid_status, fu_tokens.
  - intros v. apply flow_update_sets_valid_status, fu_verifier.
Qed.

(** Every handler writes valid statuses only. *)
Lemma writes_valid_status_other (e : Event) :
  (forall id d, e <> EvDbUpdate id d) -> writes_valid_status e.
Proof. intros He st. destruct e; simpl; try done. by destruct (He id data). Qed.

Lemma check_writes_valid w id : stable (extends writes_valid_status) (Check.GET w id).
Proof.
  apply (stable_check (extends writes_valid_status) writes_valid_status
           sets_valid_status).
  - intros e s He. by apply extends_push.
  - intros id' d r s Hd _. by apply extends_updated.
  - apply writes_valid_status_other.
  - intros st Hst. by apply flow_update_sets_valid_status, fu_status.
  - intros info. apply flow_update_sets_valid_status, fu_clientInfo.
  - intros v. apply flow_update_sets_valid_status, fu_verifier.
Qed.

Lemma callback_writes_valid w id q :
  stable (extends writes_valid_status) (Callback.GET w id q).
Proof.
  apply (stable_callback (extends writes_valid_status) writes_valid_status
           sets_valid_status).
  - intros e s He. by apply extends_push.
  - intros id' d r s Hd _. by apply extends_updated.
  - apply writes_valid_status_other.
  - intros info. apply flow_update_sets_valid_status, fu_clientInfo.
  - intros t. apply flow_update_sets_valid_status, fu_tokens.
  - intros v. apply flow_update_sets_valid_status, fu_verifier.
  - apply flow_update_sets_valid_status, fu_connected.
  - apply flow_update_sets_valid_status, fu_required.
Qed.

Lemma run_sdk_writes_valid w p prog :
  stable (extends writes_valid_status) (run_sdk w p prog).
Proof.
  apply (stable_run_sdk (extends writes_valid_status) writes_valid_status
           sets_valid_status).
  - intros e s He. by apply extends_push.
  - intros id' d r s Hd _. by apply extends_updated.
  - apply writes_valid_status_other.
  - intros info. apply flow_update_sets_valid_status, fu_clientInfo.
  - intros t. apply flow_update_sets_valid_status, fu_tokens.
  - intros v. apply flow_update_sets_valid_status, fu_verifier.
Qed.

Lemma step_carries_validity (op : Op) (db : gmap string MCPServer) :
  statuses_valid db -> statuses_valid (step op db).
Proof.
  intros H. destruct op as [w id|w id q|w p prog]; simpl; rewrite run_eq; simpl.
  - by apply (check_carries_validity w id (init db)).
  - by apply (callback_carries_validity w id q (init db)).
  - by apply (run_sdk_carries_validity w p prog (init db)).
Qed.

Lemma step_writes_valid (op : Op) (db : gmap string MCPServer) :
  Forall writes_valid_status (step_trace op db).
Proof.
  destruct op as [w id|w id q|w p prog]; simpl; rewrite run_eq; simpl.
  - destruct (check_writes_valid w id (init db)) as (evs & -> & H). done.
  - destruct (callback_writes_valid w id q (init db)) as (evs & -> & H). done.
  - destruct (run_sdk_writes_valid w p prog (init db)) as (evs & -> & H). done.
Qed.

Section Invariant.

(** C8.  Along every sequence of operations of the flow -- check and
    callback invocations and connections of the MCP client, in any worlds,
    with any SDK behaviour against the provider -- a table
    whose statuses are among UNKNOWN, NOT_REQUIRED, REQUIRED, CONNECTED and
    EXPIRED stays so, and every status the operations write is one of the
    five. *)
Theorem oauthStatus_always_enum (ops : list Op) (db : gmap string MCPServer) :
  statuses_valid db ->
  statuses_valid (steps ops db)
  /\ Forall writes_valid_status (steps_trace ops db).
Proof.
  revert db. induction ops as [|op ops IH]; intros db Hdb.
  - split; [done|constructor].
  - destruct (IH (step op db) (step_carries_validity op db Hdb)) as [Hs Ht].
    split; [exact Hs|]. simpl. apply Forall_app. split; [|exact Ht].
    apply step_writes_valid.
Qed.

End Invariant.

(** ** What handlers return *)

Section Returns.
Context {A : Type} (P : A -> Prop).

Lemma returns_ret (a : A) : P a -> returns P (ret a).
Proof. intros H s a' [= <-]. exact H. Qed.

Lemma returns_throw (e : JsError) : returns P (throw e).
Proof. by intros s a. Qed.

Lemma returns_bind {B} (m : M B) (k : B -> M A) :
  (forall b, returns P (k b)) -> returns P (bind m k).
Proof.
  intros Hk s a. unfold bind. destruct (m s) as [[b|e] s1]; [|done]. apply Hk.
Qed.

Lemma returns_try_catch (body : M A) (handler : JsError -> M A) :
  returns P body -> (forall e, returns P (handler e)) ->
  returns P (try_catch body handler).
Proof.
  intros Hb Hh s a. unfold try_catch. specialize (Hb s).
  destruct (body s) as [[b|e] s1]; simpl in *.
  - intros [= <-]. by apply Hb.
  - apply Hh.
Qed.

End Returns.

Lemma try_catch_total {A} (body : M A) (handler : JsError -> M A) (s : St) :
  (forall e s', isNormal (handler e s').1 = true) ->
  isNormal (try_catch body handler s).1 = true.
Proof.
  intros Hh. unfold try_catch. destruct (body s) as [[a|e] s1]; [done|]. apply Hh.
Qed.

Lemma generate_returns w p url det :
  returns (is_required (serverId p)) (Check.generate w p url det).
Proof.
  unfold Check.generate, Check.client_and_authorize, Check.authorize.
  repeat first
    [ apply returns_ret; reflexivity
    | apply returns_throw
    | apply returns_try_catch; [|intros ?]
    | apply returns_bind; intros ?
    | match goal with
      | |- returns _ (match ?x with _ => _ end) => destruct x
      end ].
Qed.

Lemma generate_total w p url det s :
  exists resp, (Check.generate w p url det s).1 = Normal resp
               /\ is_required (serverId p) resp.
Proof.
  pose proof (generate_returns w p url det s) as Hret.
  assert (isNormal (Check.generate w p url det s).1 = true) as Hn
    by (by apply try_catch_total).
  destruct (Check.generate w p url det s).1 as [resp|e]; [|done].
  exists resp. split; [done|]. by apply Hret.
Qed.

(** ** The check endpoint, step by step *)

Lemma findFirst_http_eq (id : string) (s : St) :
  prisma.findFirst_http id s = (Normal (http_row (st_db s) id), s).
Proof. reflexivity. Qed.

Lemma http_row_Some db id r : http_row db id = Some r -> db !! id = Some r.
Proof.
  unfold http_row. destruct (db !! id) as [r'|]; [|done].
  destruct (_ && _); [|done]. by intros [= ->].
Qed.

Lemma detect_eq (w : World) (id : string) (server r : MCPServer) (s : St) :
  st_db s !! id = Some r ->
  Check.detect w id server s =
  let url := default "" (srv_url server) in
  let det := detection_of (fetch w url) in
  let s1 := push (EvFetch url) s in
  if negb (det_requiresAuth det)
  then (Normal (Check.json 200 id false false OAuthStatus.NOT_REQUIRED None None),
        updated id (status_update OAuthStatus.NOT_REQUIRED) r s1)
  else Check.generate w {| serverId := id; serverName := srv_name server |} url det
         (updated id (status_update OAuthStatus.REQUIRED) r s1).
Proof.
  intros Hr. unfold Check.detect, bind at 1.
  rewrite DetectionFacts.detect_run. fold (push (EvFetch (default "" (srv_url server))) s).
  simpl. destruct (negb _); unfold bind, updateServerOAuthStatus;
    rewrite (update_found id _ r) by done; reflexivity.
Qed.

Lemma check_eq (w : World) (id : string) (s : St) :
  Check.GET w id s =
  match http_row (st_db s) id with
  | None =>
      (Normal (Check.json 404 id false false OAuthStatus.NOT_REQUIRED None
                 (Some "HTTP server not found")), s)
  | Some server =>
      if Check.connected_with_tokens server then
        if negb (isTokenExpired (date_now w) (srv_authTokens server))
        then (Normal (Check.json 200 id true true OAuthStatus.CONNECTED None None), s)
        else Check.detect w id server
               (updated id (status_update OAuthStatus.EXPIRED) server s)
      else Check.detect w id server s
  end.
Proof.
  unfold Check.GET, bind at 1. rewrite findFirst_http_eq.
  destruct (http_row (st_db s) id) as [server|] eqn:Hrow; [|done].
  apply http_row_Some in Hrow.
  destruct (Check.connected_with_tokens server); [|done].
  destruct (negb _); [done|].
  unfold bind, updateServerOAuthStatus. by rewrite (update_found id _ server).
Qed.

Lemma generate_keeps {X} (f : MCPServer -> X) w p url det :
  (forall info, leaves f (clientInfo_update info)) ->
  (forall v, leaves f (verifier_update v)) ->
  stable (keeps f) (Check.generate w p url det).
Proof.
  intros Hc Hv. apply (stable_generate (keeps f) (fun _ => True) (leaves f)).
  - intros. apply keeps_push.
  - intros. by apply keeps_updated.
  - done.
  - exact Hc.
  - exact Hv.
Qed.

Lemma generate_extends w p url det :
  stable (extends (fun _ => True)) (Check.generate w p url det).
Proof.
  apply (stable_generate (extends (fun _ => True)) (fun _ => True) (fun _ => True)).
  - intros. by apply extends_push.
  - intros. by apply extends_updated.
  - done.
  - done.
  - done.
Qed.

Lemma lookup_updated id d r s : st_db (updated id d r s) !! id = Some (apply_update d r).
Proof. simpl. apply lookup_insert_eq. Qed.

(** The probe and what follows it: the handler returns, with NOT_REQUIRED or
    REQUIRED, and that is the status it leaves in the table. *)
Lemma detect_outcome (w : World) (id : string) (server r : MCPServer) (s : St) :
  st_db s !! id = Some r ->
  exists resp s' evs,
    Check.detect w id server s = (Normal resp, s')
    /\ resp_oauthStatus resp =
       (if det_requiresAuth (detection_of (fetch w (default "" (srv_url server))))
        then OAuthStatus.REQUIRED else OAuthStatus.NOT_REQUIRED)
    /\ srv_oauthStatus <$> (st_db s' !! id) = Some (Some (resp_oauthStatus resp))
    /\ st_trace s' = st_trace s ++ EvFetch (default "" (srv_url server)) :: evs.
Proof.
  intros Hr. rewrite (detect_eq w id server r s Hr). cbv zeta.
  set (url := default "" (srv_url server)).
  set (det := detection_of (fetch w url)).
  destruct (det_requiresAuth det); simpl.
  - set (s1 := updated id (status_update OAuthStatus.REQUIRED) r (push (EvFetch url) s)).
    set (p := {| serverId := id; serverName := srv_name server |}).
    destruct (generate_total w p url det s1) as (resp & Hresp & Hreq).
    pose proof (generate_keeps srv_oauthStatus w p url det
                  (fun _ _ => eq_refl) (fun _ _ => eq_refl) s1 id) as Hkeep.
    destruct (generate_extends w p url det s1) as (evs & Hevs & _).
    destruct (Check.generate w p url det s1) as [c s'] eqn:Hg. simpl in *.
    subst c. exists resp, s', (EvDbUpdate id (status_update OAuthStatus.REQUIRED) :: evs).
    split_and!; [done| | |].
    + by rewrite Hreq.
    + rewrite Hkeep, lookup_insert_eq. simpl. by rewrite Hreq.
    + rewrite Hevs. by rewrite <- !app_assoc.
  - eexists _, _, [_]. split_and!; [done|done| |].
    + by rewrite lookup_updated.
    + simpl. by rewrite <- app_assoc.
Qed.

Section CheckEndpoint.

(** C10.  When the server id does not identify a stored server of type
    [http] with a URL, the check endpoint answers 404 with
    [requiresAuth = false], [connected = false], status NOT_REQUIRED and the
    error [HTTP server not found]; it leaves the table as it is and calls
    nothing. *)
Theorem check_unknown_server (w : World) (id : string) (db : gmap string MCPServer) :
  (forall r, db !! id = Some r ->
             ~ (srv_type r = "http" /\ is_Some (srv_url r))) ->
  run (Check.GET w id) db =
  (Normal {| resp_status := 404; resp_serverId := id;
             resp_requiresAuth := false; resp_connected := false;
             resp_oauthStatus := OAuthStatus.NOT_REQUIRED;
             resp_authorizationUrl := None;
             resp_error := Some "HTTP server not found" |},
   db, []).
Proof.
  intros Hno. rewrite run_eq, check_eq. simpl.
  assert (http_row db id = None) as ->; [|done].
  unfold http_row. destruct (db !! id) as [r|] eqn:Hr; [|done].
  destruct (String.eqb_spec (srv_type r) "http") as [Ht|]; [|done].
  simpl. case_bool_decide as Hu; [|done]. by destruct (Hno r eq_refl).
Qed.

(** A stdio server under the requested id. *)
Lemma check_unknown_server_witness :
  run (Check.GET
         (Scenario.world Scenario.app Scenario.production Scenario.unauthorized
            SdkResolve) "srv1")
      (Scenario.table Scenario.stdio) =
  (Normal {| resp_status := 404; resp_serverId := "srv1";
             resp_requiresAuth := false; resp_connected := false;
             resp_oauthStatus := OAuthStatus.NOT_REQUIRED;
             resp_authorizationUrl := None;
             resp_error := Some "HTTP server not found" |},
   Scenario.table Scenario.stdio, []).
Proof.
  apply check_unknown_server. intros r Hr [Ht _].
  unfold Scenario.table in Hr. apply lookup_singleton_Some in Hr as [_ <-].
  discriminate Ht.
Defined.

(** C9.  The check endpoint always returns, and never with status EXPIRED:
    the status of the response is CONNECTED, NOT_REQUIRED or REQUIRED, and it
    is CONNECTED only for a server whose stored tokens are not expired, in
    which case nothing is written.  For a server stored as CONNECTED whose
    tokens are expired, the handler first writes EXPIRED, then makes the
    probe in the same invocation, answers NOT_REQUIRED or REQUIRED, and
    leaves that status, not EXPIRED, in the table. *)
Theorem check_never_returns_expired
  (w : World) (id : string) (db : gmap string MCPServer) :
  exists resp db' tr,
    run (Check.GET w id) db = (Normal resp, db', tr)
    /\ (resp_oauthStatus resp = OAuthStatus.CONNECTED
        \/ resp_oauthStatus resp = OAuthStatus.NOT_REQUIRED
        \/ resp_oauthStatus resp = OAuthStatus.REQUIRED)
    /\ resp_oauthStatus resp <> OAuthStatus.EXPIRED
    /\ (resp_oauthStatus resp = OAuthStatus.CONNECTED ->
        exists r, db !! id = Some r
                  /\ isTokenExpired (date_now w) (srv_authTokens r) = false
                  /\ db' = db /\ tr = [])
    /\ (forall r,
          http_row db id = Some r ->
          srv_oauthStatus r = Some OAuthStatus.CONNECTED ->
          is_Some (srv_authTokens r) ->
          isTokenExpired (date_now w) (srv_authTokens r) = true ->
          exists tr',
            tr = EvDbUpdate id (status_update OAuthStatus.EXPIRED)
                   :: EvFetch (default "" (srv_url r)) :: tr'
            /\ (resp_oauthStatus resp = OAuthStatus.NOT_REQUIRED
                \/ resp_oauthStatus resp = OAuthStatus.REQUIRED)
            /\ srv_oauthStatus <$> (db' !! id) = Some (Some (resp_oauthStatus resp))).
Proof.
  rewrite run_eq, check_eq. simpl.
  destruct (http_row db id) as [server|] eqn:Hrow.
  2:{ eexists _, _, _. split; [reflexivity|]. simpl.
      split_and!; [by right; left|done|done|done]. }
  pose proof (http_row_Some _ _ _ Hrow) as Hr.
  destruct (Check.connected_with_tokens server) eqn:Hconn.
  - apply andb_prop in Hconn as [Hst Htok].
    apply bool_decide_eq_true in Hst. apply bool_decide_eq_true in Htok.
    destruct (isTokenExpired (date_now w) (srv_authTokens server)) eqn:Hexp; simpl.
    + destruct (detect_outcome w id server
                  (apply_update (status_update OAuthStatus.EXPIRED) server)
                  (updated id (status_update OAuthStatus.EXPIRED) server (init db)))
        as (resp & s' & evs & -> & Hresp & Hdb & Htr).
      { apply lookup_updated. }
      exists resp, (st_db s'), (st_trace s'). split; [done|].
      assert (resp_oauthStatus resp = OAuthStatus.NOT_REQUIRED
              \/ resp_oauthStatus resp = OAuthStatus.REQUIRED) as Hin.
      { rewrite Hresp. destruct (det_requiresAuth _); [by right|by left]. }
      split_and!.
      * by right.
      * by destruct Hin as [-> | ->].
      * by destruct Hin as [-> | ->].
      * intros r [= <-] _ _ _. exists evs. split_and!; [|done|done].
        simpl. by rewrite Htr.
    + eexists _, _, _. split; [reflexivity|]. simpl. split_and!.
      * by left.
      * done.
      * intros _. by exists server.
      * intros r [= <-] _ _ H. congruence.
  - destruct (detect_outcome w id server server (init db) Hr)
      as (resp & s' & evs & -> & Hresp & Hdb & Htr).
    exists resp, (st_db s'), (st_trace s'). split; [done|].
    assert (resp_oauthStatus resp = OAuthStatus.NOT_REQUIRED
            \/ resp_oauthStatus resp = OAuthStatus.REQUIRED) as Hin.
    { rewrite Hresp. destruct (det_requiresAuth _); [by right|by left]. }
    split_and!.
    + by right.
    + by destruct Hin as [-> | ->].
    + by destruct Hin as [-> | ->].
    + intros r [= <-] Hst Htok _. unfold Check.connected_with_tokens in Hconn.
      rewrite !bool_decide_eq_true_2 in Hconn by done. done.
Qed.

End CheckEndpoint.

(** ** Reuse of the registered client *)

Global Instance reuses_client_preorder id ci : PreOrder (reuses_client id ci).
Proof.
  split.
  - intros s H. split; [reflexivity|done].
  - intros s1 s2 s3 H12 H23 H1. destruct (H12 H1) as [E12 H2].
    destruct (H23 H2) as [E23 H3]. split; [by etrans|done].
Qed.

Lemma reuses_client_push id ci e s :
  client_reused ci e -> reuses_client id ci s (push e s).
Proof. intros He H. split; [by apply extends_push|done]. Qed.

Lemma reuses_client_updated id ci id' d r s :
  set_clientInfo d = None -> st_db s !! id' = Some r ->
  reuses_client id ci s (updated id' d r s).
Proof.
  intros Hd Hr H. split; [by apply extends_updated|].
  unfold has_client in *. simpl.
  destruct (decide (id' = id)) as [->|Hne].
  - rewrite lookup_insert_eq. rewrite Hr in H. simpl in *. by rewrite Hd.
  - by rewrite lookup_insert_ne.
Qed.

Lemma client_and_authorize_known w p a md ci r s :
  st_db s !! serverId p = Some r -> srv_clientInfo r = Some ci ->
  Check.client_and_authorize w p a md s = Check.authorize w p a md ci s.
Proof.
  intros Hr Hci.
  unfold Check.client_and_authorize, Provider.clientInformation,
    prisma.findUnique, bind, ret.
  by rewrite Hr, Hci.
Qed.

Lemma client_and_authorize_reuses w id name a md ci :
  stable (reuses_client id ci)
    (Check.client_and_authorize w {| serverId := id; serverName := name |} a md).
Proof.
  intros s Hhas.
  pose proof (stable_authorize (reuses_client id ci) (client_reused ci)
                (fun d => set_clientInfo d = None)
                (reuses_client_push id ci) (reuses_client_updated id ci)
                w {| serverId := id; serverName := name |} a md ci
                (fun _ => eq_refl) (fun _ => eq_refl) s Hhas) as Hauth.
  unfold has_client in Hhas.
  destruct (st_db s !! id) as [r|] eqn:Hr; [|done]. simpl in Hhas.
  injection Hhas as Hci.
  by rewrite (client_and_authorize_known w
                {| serverId := id; serverName := name |} a md ci r s Hr Hci).
Qed.

Lemma check_reuses_client w id ci : stable (reuses_client id ci) (Check.GET w id).
Proof.
  apply (stable_check_with (reuses_client id ci) (client_reused ci)
           (fun d => set_clientInfo d = None)
           (reuses_client_push id ci) (reuses_client_updated id ci)); try done.
  intros name a md. apply client_and_authorize_reuses.
Qed.

Lemma check_keeps {X} (f : MCPServer -> X) w id :
  (forall st, leaves f (status_update st)) ->
  (forall info, leaves f (clientInfo_update info)) ->
  (forall v, leaves f (verifier_update v)) ->
  stable (keeps f) (Check.GET w id).
Proof.
  intros Hs Hc Hv. apply (stable_check (keeps f) (fun _ => True) (leaves f)).
  - intros. apply keeps_push.
  - intros. by apply keeps_updated.
  - done.
  - intros. apply Hs.
  - exact Hc.
  - exact Hv.
Qed.

(** ** The verdict of the check endpoint *)

Lemma check_returns_verdict (w : World) (id : string) (db : gmap string MCPServer) :
  exists resp s',
    Check.GET w id (init db) = (Normal resp, s')
    /\ resp_oauthStatus resp = check_verdict w db id
    /\ ((http_row db id = None \/ check_verdict w db id = OAuthStatus.CONNECTED)
        -> s' = init db)
    /\ (http_row db id <> None ->
        check_verdict w db id <> OAuthStatus.CONNECTED ->
        srv_oauthStatus <$> (st_db s' !! id) = Some (Some (check_verdict w db id))).
Proof.
  rewrite check_eq. unfold check_verdict. simpl.
  destruct (http_row db id) as [server|] eqn:Hrow.
  2:{ eexists _, _. split_and!; [done|done|done|done]. }
  pose proof (http_row_Some _ _ _ Hrow) as Hr.
  destruct (Check.connected_with_tokens server) eqn:Hconn; simpl.
  - destruct (isTokenExpired (date_now w) (srv_authTokens server)) eqn:Hexp; simpl.
    + destruct (detect_outcome w id server
                  (apply_update (status_update OAuthStatus.EXPIRED) server)
                  (updated id (status_update OAuthStatus.EXPIRED) server (init db)))
        as (resp & s' & evs & -> & Hresp & Hdb & Htr).
      { apply lookup_updated. }
      exists resp, s'. split_and!; [done|done| |].
      * intros [?|H]; [done|]. by destruct (det_requiresAuth _).
      * intros _ _. by rewrite <- Hresp.
    + eexists _, _. split_and!; [done|done|done|done].
  - destruct (detect_outcome w id server server (init db) Hr)
      as (resp & s' & evs & -> & Hresp & Hdb & Htr).
    exists resp, s'. split_and!; [done|done| |].
    + intros [?|H]; [done|]. by destruct (det_requiresAuth _).
    + intros _ _. by rewrite <- Hresp.
Qed.

Lemma http_row_after (db0 db1 : gmap string MCPServer) (id : string) (r0 : MCPServer) :
  http_row db0 id = Some r0 ->
  srv_type <$> (db1 !! id) = srv_type <$> (db0 !! id) ->
  srv_url <$> (db1 !! id) = srv_url <$> (db0 !! id) ->
  exists r1, http_row db1 id = Some r1 /\ db1 !! id = Some r1
             /\ srv_url r1 = srv_url r0.
Proof.
  unfold http_row. destruct (db0 !! id) as [r|] eqn:H0; [|done].
  destruct (_ && _) eqn:Hb; [|done]. intros [= ->] Ht Hu.
  destruct (db1 !! id) as [r1|]; [|done]. simpl in Ht, Hu.
  injection Ht as Ht. injection Hu as Hu. exists r1.
  by rewrite Ht, Hu, Hb.
Qed.

(** Checking again, at another instant at which the stored tokens are no
    more and no less expired, gives the same verdict. *)
Lemma check_verdict_again (w : World) (t2 : Z) (id : string)
  (db : gmap string MCPServer) :
  (forall r, db !! id = Some r ->
             isTokenExpired t2 (srv_authTokens r)
             = isTokenExpired (date_now w) (srv_authTokens r)) ->
  check_verdict (at_time w t2) (st_db (Check.GET w id (init db)).2) id
  = check_verdict w db id.
Proof.
  intros Hexp.
  destruct (check_returns_verdict w id db) as (resp & s' & Hrun & _ & Hsame & Hst).
  pose proof (check_keeps srv_type w id (fun _ _ => eq_refl) (fun _ _ => eq_refl)
                (fun _ _ => eq_refl) (init db) id) as Ktype.
  pose proof (check_keeps srv_url w id (fun _ _ => eq_refl) (fun _ _ => eq_refl)
                (fun _ _ => eq_refl) (init db) id) as Kurl.
  rewrite Hrun in *. simpl in *.
  destruct (http_row db id) as [r0|] eqn:Hrow.
  2:{ rewrite (Hsame (or_introl eq_refl)). simpl.
      unfold check_verdict. by rewrite Hrow. }
  destruct (decide (check_verdict w db id = OAuthStatus.CONNECTED)) as [Hc|Hc].
  - rewrite (Hsame (or_intror Hc)). simpl. rewrite Hc.
    unfold check_verdict in *. rewrite Hrow in *. simpl.
    rewrite (Hexp r0 (http_row_Some _ _ _ Hrow)).
    destruct (_ && _); [done|]. by destruct (det_requiresAuth _).
  - specialize (Hst ltac:(done) Hc).
    destruct (http_row_after db (st_db s') id r0 Hrow Ktype Kurl)
      as (r1 & Hrow1 & Hr1 & Hurl).
    rewrite Hr1 in Hst. simpl in Hst. injection Hst as Hst.
    unfold check_verdict at 1. rewrite Hrow1. simpl.
    assert (Check.connected_with_tokens r1 = false) as ->.
    { unfold Check.connected_with_tokens. rewrite Hst.
      rewrite bool_decide_eq_false_2; [done|]. congruence. }
    simpl. rewrite Hurl.
    unfold check_verdict in *. rewrite Hrow in *.
    destruct (_ && _); [done|]. done.
Qed.


(** ** The callback endpoint, step by step *)

Lemma redirect_eq w target appUrl s :
  url_parses w appUrl = true ->
  Callback.redirect w target appUrl s = (Normal (redirect_response target appUrl), s).
Proof.
  intros H. unfold Callback.redirect, bind, lift, new_URL, ret. by rewrite H.
Qed.

Lemma redirect_throws w target appUrl s :
  url_parses w appUrl = false ->
  Callback.redirect w target appUrl s = (Throw (ErrorObj "Invalid URL"), s).
Proof.
  intros H. unfold Callback.redirect, bind, lift, new_URL, ret. by rewrite H.
Qed.

(** The SDK neither adds nor removes rows. *)
Lemma finish_keeps_rows w p url code :
  stable (keeps (fun _ => ())) (Callback.finish w p url code).
Proof.
  unfold Callback.finish.
  apply (stable_bind (keeps (fun _ => ())));
    [apply (stable_lift (keeps (fun _ => ())))|]. intros _.
  apply (stable_run_sdk (keeps (fun _ => ())) (fun _ => True) (fun _ => True));
    intros; first [apply keeps_push | by apply keeps_updated | done].
Qed.

Lemma finish_row w p url code s id r :
  st_db s !! id = Some r ->
  exists r1, st_db (Callback.finish w p url code s).2 !! id = Some r1.
Proof.
  intros Hr. pose proof (finish_keeps_rows w p url code s id) as H.
  rewrite Hr in H.
  destruct (st_db (Callback.finish w p url code s).2 !! id) as [r1|];
    [by exists r1|done].
Qed.

Lemma exchange_eq w id code appUrl server s r :
  st_db s !! id = Some r ->
  let fin := Callback.finish w {| serverId := id; serverName := srv_name server |}
               (default "" (srv_url server)) code s in
  exists r1,
    st_db fin.2 !! id = Some r1
    /\ Callback.exchange w id code appUrl server s =
       match fin.1 with
       | Normal _ =>
           if url_parses w appUrl
           then (Normal (redirect_response
                           (Callback.success_target (srv_name server)) appUrl),
                 updated id Callback.connected_update r1 fin.2)
           else (Throw (ErrorObj "Invalid URL"),
                 updated id Callback.required_update
                   (apply_update Callback.connected_update r1)
                   (updated id Callback.connected_update r1 fin.2))
       | Throw e =>
           if url_parses w appUrl
           then (Normal (redirect_response
                           (Callback.error_target
                              (error_message_or e "Token exchange failed")) appUrl),
                 updated id Callback.required_update r1 fin.2)
           else (Throw (ErrorObj "Invalid URL"),
                 updated id Callback.required_update r1 fin.2)
       end.
Proof.
  intros Hr fin.
  destruct (finish_row w {| serverId := id; serverName := srv_name server |}
              (default "" (srv_url server)) code s id r Hr) as [r1 Hr1].
  fold fin in Hr1.
  exists r1. split; [done|].
  unfold Callback.exchange, try_catch, bind at 1. fold fin.
  destruct fin as [[[]|e] s1]; simpl in *.
  - unfold bind at 1. rewrite (update_found id _ r1 s1 Hr1).
    destruct (url_parses w appUrl) eqn:Hp.
    + by rewrite redirect_eq.
    + rewrite redirect_throws by done. unfold bind.
      rewrite (update_found id _ (apply_update Callback.connected_update r1))
        by apply lookup_updated.
      by rewrite redirect_throws.
  - unfold bind. rewrite (update_found id _ r1 s1 Hr1).
    destruct (url_parses w appUrl) eqn:Hp.
    + by rewrite redirect_eq.
    + by rewrite redirect_throws.
Qed.

Lemma callback_eq w id q s appUrl :
  getAppUrl w = Normal appUrl ->
  Callback.GET w id q s =
  if truthy_str (q_error q) then
    Callback.redirect w
      (Callback.error_target
         (Callback.description_or_error (q_error_description q)
            (default "" (q_error q)))) appUrl s
  else if negb (truthy_str (q_code q)) then
    Callback.redirect w "/?oauth_error=missing_code" appUrl s
  else match st_db s !! id with
       | Some server =>
           if truthy_str (srv_url server)
           then Callback.exchange w id (default "" (q_code q)) appUrl server s
           else Callback.redirect w "/?oauth_error=server_not_found" appUrl s
       | None => Callback.redirect w "/?oauth_error=server_not_found" appUrl s
       end.
Proof.
  intros Happ. unfold Callback.GET, bind at 1, lift. rewrite Happ.
  destruct (q_error q) as [[|c e]|]; simpl; try done;
    destruct (q_code q) as [[|c' code]|]; simpl; try done;
    unfold bind, prisma.findUnique;
    (destruct (st_db s !! id) as [server|]; [by destruct (truthy_str _)|done]).
Qed.

(** A handler that returned had a base URL that resolved and parsed. *)
Lemma callback_returned w id q s resp :
  (Callback.GET w id q s).1 = Normal resp ->
  exists appUrl, getAppUrl w = Normal appUrl /\ url_parses w appUrl = true.
Proof.
  destruct (getAppUrl w) as [appUrl|e] eqn:Happ.
  2:{ unfold Callback.GET, bind, lift. by rewrite Happ. }
  rewrite (callback_eq w id q s appUrl Happ). intros H.
  exists appUrl. split; [done|].
  destruct (url_parses w appUrl) eqn:Hp; [done|]. exfalso.
  destruct (truthy_str (q_error q)).
  { by rewrite redirect_throws in H. }
  destruct (negb (truthy_str (q_code q))).
  { by rewrite redirect_throws in H. }
  destruct (st_db s !! id) as [server|] eqn:Hr.
  2:{ by rewrite redirect_throws in H. }
  destruct (truthy_str (srv_url server)).
  2:{ by rewrite redirect_throws in H. }
  destruct (exchange_eq w id (default "" (q_code q)) appUrl server s server Hr)
    as (r1 & _ & Heq).
  rewrite Heq, Hp in H. by destruct (Callback.finish _ _ _ _ _).1.
Qed.

Section CallbackEndpoint.

Local Arguments truthy_str : simpl never.


(** With a base URL that resolves and parses, what the handler answers. *)
Lemma callback_redirects
  (w : World) (id : string) (q : CallbackParams) (db : gmap string MCPServer)
  (appUrl : string) :
  getAppUrl w = Normal appUrl ->
  url_parses w appUrl = true ->
  exists resp,
    (run (Callback.GET w id q) db).1.1 = Normal resp
    /\ url_base (redirect_to resp) = Some appUrl
    /\ ((exists r, db !! id = Some r
                   /\ url_input (redirect_to resp) = Callback.success_target (srv_name r))
        \/ (exists reason,
              url_input (redirect_to resp) = Callback.error_target reason))
    /\ (forall e d,
          q_error q = Some e -> e <> "" ->
          q_error_description q = Some d -> d <> "" ->
          url_input (redirect_to resp) = Callback.error_target d).
Proof.
  intros Happ Hp. rewrite run_eq. simpl.
  rewrite (callback_eq w id q (init db) appUrl Happ).
  destruct (q_error q) as [[|c e]|] eqn:He; simpl.
  2:{ rewrite redirect_eq by done. eexists. split_and!; [done|done| |].
      - right. by eexists.
      - intros e' d [= <-] _ -> Hd. simpl. by destruct d. }
  all: assert (forall e d : string, @None string = Some e \/ Some "" = Some e ->
                 e <> "" -> False) as Hno
         by (intros e' d [H|H] Hne; [done|by injection H as <-]).
  all: destruct (negb (truthy_str (q_code q))).
  all: try (rewrite redirect_eq by done; eexists; split_and!; [done|done| |];
            [right; by exists "missing_code"
            |intros e' d H1 H2; exfalso; eapply (Hno e' d); eauto]).
  all: destruct (db !! id) as [server|] eqn:Hr.
  all: try (rewrite redirect_eq by done; eexists; split_and!; [done|done| |];
            [right; by exists "server_not_found"
            |intros e' d H1 H2; exfalso; eapply (Hno e' d); eauto]).
  all: destruct (truthy_str (srv_url server)).
  all: try (rewrite redirect_eq by done; eexists; split_and!; [done|done| |];
            [right; by exists "server_not_found"
            |intros e' d H1 H2; exfalso; eapply (Hno e' d); eauto]).
  all: destruct (exchange_eq w id (default "" (q_code q)) appUrl server (init db)
                   server Hr) as (r1 & _ & ->); rewrite Hp.
  all: destruct (Callback.finish _ _ _ _ _).1 as [[]|err]; simpl.
  all: eexists; split_and!; [done|done| |];
         [|intros e' d H1 H2; exfalso; eapply (Hno e' d); eauto].
  all: first [left; by exists server | right; by eexists].
Qed.

(** C7, as amended.  Whenever the callback handler returns a response, the
    response is a redirect to the root of the application's base URL,
    carrying either [oauth_success=true&server=<name>], with the URL-encoded
    name of the stored server, or [oauth_error=<reason>], with a URL-encoded
    reason.  When the provider reports an error together with a non-empty
    [error_description], the reason is that description. *)
Theorem callback_returns_a_redirect
  (w : World) (id : string) (q : CallbackParams) (db : gmap string MCPServer)
  (resp : RedirectResponse) :
  (run (Callback.GET w id q) db).1.1 = Normal resp ->
  exists appUrl,
    getAppUrl w = Normal appUrl
    /\ url_base (redirect_to resp) = Some appUrl
    /\ ((exists r, db !! id = Some r
                   /\ url_input (redirect_to resp) = Callback.success_target (srv_name r))
        \/ (exists reason,
              url_input (redirect_to resp) = Callback.error_target reason))
    /\ (forall e d,
          q_error q = Some e -> e <> "" ->
          q_error_description q = Some d -> d <> "" ->
          url_input (redirect_to resp) = Callback.error_target d).
Proof.
  intros Hret.
  assert ((Callback.GET w id q (init db)).1 = Normal resp) as Hret'.
  { by rewrite run_eq in Hret. }
  destruct (callback_returned w id q (init db) resp Hret') as (appUrl & Happ & Hp).
  destruct (callback_redirects w id q db appUrl Happ Hp)
    as (resp' & Hrun & Hbase & Hform & Hdesc).
  rewrite Hret in Hrun. injection Hrun as <-.
  by exists appUrl.
Qed.

End CallbackEndpoint.

(** ** Production without a base URL *)








Section Misconfiguration.


End Misconfiguration.

(* ===================================================================== *)
(** * The scenarios, run *)
(* ===================================================================== *)

Section Runs.
Import Scenario.






(** The provider reports [access_denied] with a description. *)
Lemma callback_returns_a_redirect_witness :
  exists appUrl,
    getAppUrl w_ok = Normal appUrl
    /\ appUrl = "https://app.example"
    /\ (run (Callback.GET w_ok "srv1" denied) (table awaiting)).1.1
       = Normal (redirect_response "/?oauth_error=User%20declined" appUrl).
Proof.
  destruct (callback_returns_a_redirect w_ok "srv1" denied (table awaiting)
              (redirect_response "/?oauth_error=User%20declined"
                 "https://app.example"))
    as (appUrl & Happ & Hbase & _ & Hdesc).
  { vm_compute. reflexivity. }
  exists appUrl. injection Hbase as <-. split_and!; [exact Happ|reflexivity|].
  vm_compute. reflexivity.
Defined.

(** C7, as stated, fails.  In production without a base URL the callback
    handler throws and so produces no redirect, and so it does with a base
    URL that is not a URL.  And when the provider reports an error with an
    empty [error_description], the reason carried is the error code, not
    the description. *)
Lemma callback_no_redirect_counterexample :
  (misconfigured w_misconfigured
   /\ (run (Callback.GET w_misconfigured "srv1" denied) (table awaiting)).1.1
      = Throw (ErrorObj app_url_required_message))
  /\ (getAppUrl w_unparsable = Normal "not a url"
      /\ (run (Callback.GET w_unparsable "srv1" denied) (table awaiting)).1.1
         = Throw (ErrorObj "Invalid URL"))
  /\ (run (Callback.GET w_ok "srv1"
             {| q_code := None; q_error := Some "access_denied";
                q_error_description := Some "" |}) (table awaiting)).1.1
     = Normal (redirect_response "/?oauth_error=access_denied"
                 "https://app.example").
Proof.
  split_and!; try (vm_compute; reflexivity).
  split; [reflexivity|discriminate].
Qed.

(** A fresh server, checked, called back, and then connected to. *)
Lemma oauthStatus_always_enum_witness :
  statuses_valid
    (steps [OpCheck w_ok "srv1"; OpCallback w_ok "srv1" with_code;
            OpConnect w_ok {| serverId := "srv1"; serverName := "Files" |}
              (SdkTokens (fun _ => SdkResolve))]
       (table fresh))
  /\ Forall writes_valid_status
       (steps_trace [OpCheck w_ok "srv1"; OpCallback w_ok "srv1" with_code;
                     OpConnect w_ok {| serverId := "srv1"; serverName := "Files" |}
                       (SdkTokens (fun _ => SdkResolve))]
          (table fresh)).
Proof.
  apply oauthStatus_always_enum.
  intros id r Hr. unfold table in Hr.
  apply lookup_singleton_Some in Hr as [_ <-].
  exists OAuthStatus.UNKNOWN. split; [reflexivity|]. apply list_elem_of_here.
Defined.

(** A connected server whose tokens ran out some hours ago. *)
Lemma check_never_returns_expired_witness :
  exists resp db' tr tr',
    run (Check.GET w_ok "srv1") (table (connected (Some (Number.of_Z 1699990000))))
    = (Normal resp, db', tr)
    /\ tr = EvDbUpdate "srv1" (status_update OAuthStatus.EXPIRED)
              :: EvFetch server_url :: tr'
    /\ resp_oauthStatus resp <> OAuthStatus.EXPIRED
    /\ srv_oauthStatus <$> (db' !! "srv1") = Some (Some (resp_oauthStatus resp)).
Proof.
  destruct (check_never_returns_expired w_ok "srv1"
              (table (connected (Some (Number.of_Z 1699990000)))))
    as (resp & db' & tr & Hrun & _ & Hne & _ & Hexp).
  destruct (Hexp (connected (Some (Number.of_Z 1699990000))))
    as (tr' & Htr & _ & Hdb).
  - vm_compute. reflexivity.
  - reflexivity.
  - by eexists.
  - vm_compute. reflexivity.
  - exists resp, db', tr, tr'. by split_and!.
Defined.

End Runs.

(* ===================================================================== *)
(** * The credential provider *)
(* ===================================================================== *)

Section ProviderFacts.

Lemma run_save_read {A} (id : string) (d : UpdateData) (read : M A)
  (db : gmap string MCPServer) (r : MCPServer) :
  db !! id = Some r ->
  run (prisma.update id d ;;; read) db =
  ((read (updated id d r (init db))).1,
   st_db (read (updated id d r (init db))).2,
   st_trace (read (updated id d r (init db))).2).
Proof.
  intros Hr. rewrite run_eq. unfold bind at 1 2 3.
  by rewrite (update_found id d r (init db) Hr).
Qed.

Lemma codeVerifier_eq (p : ServerOAuthProvider) (s : St) :
  Provider.codeVerifier p s =
  (match st_db s !! serverId p ≫= srv_codeVerifier with
   | Some (String c v) => Normal (String c v)
   | _ => Throw (ErrorObj "No code verifier stored")
   end, s).
Proof.
  unfold Provider.codeVerifier, bind, prisma.findUnique, ret, throw.
  destruct (st_db s !! serverId p) as [r|]; [|done]. simpl.
  by destruct (srv_codeVerifier r) as [[|c v]|].
Qed.

(** X1.  What the provider saves for a stored server is what it hands out next:
    [saveTokens] then [tokens], [saveClientInformation] then
    [clientInformation], and [saveCodeVerifier] then [codeVerifier] for a
    non-empty verifier.  Each write touches its own fields of that one row;
    [saveTokens] also sets the status to CONNECTED. *)
Theorem provider_round_trip (p : ServerOAuthProvider)
  (db : gmap string MCPServer) (r : MCPServer) :
  db !! serverId p = Some r ->
  (forall t,
      run (Provider.saveTokens p t ;;; Provider.tokens p) db =
      (Normal (Some t),
       <[serverId p :=
           {| srv_name := srv_name r; srv_type := srv_type r;
              srv_url := srv_url r; srv_requiresAuth := srv_requiresAuth r;
              srv_authTokens := Some t; srv_clientInfo := srv_clientInfo r;
              srv_codeVerifier := srv_codeVerifier r;
              srv_oauthStatus := Some OAuthStatus.CONNECTED |}]> db,
       [EvDbUpdate (serverId p) (tokens_update t)]))
  /\ (forall info,
        run (Provider.saveClientInformation p info ;;; Provider.clientInformation p) db =
        (Normal (Some info),
         <[serverId p :=
             {| srv_name := srv_name r; srv_type := srv_type r;
                srv_url := srv_url r; srv_requiresAuth := srv_requiresAuth r;
                srv_authTokens := srv_authTokens r; srv_clientInfo := Some info;
                srv_codeVerifier := srv_codeVerifier r;
                srv_oauthStatus := srv_oauthStatus r |}]> db,
         [EvDbUpdate (serverId p) (clientInfo_update info)]))
  /\ (forall v,
        v <> "" ->
        run (Provider.saveCodeVerifier p v ;;; Provider.codeVerifier p) db =
        (Normal v,
         <[serverId p :=
             {| srv_name := srv_name r; srv_type := srv_type r;
                srv_url := srv_url r; srv_requiresAuth := srv_requiresAuth r;
                srv_authTokens := srv_authTokens r;
                srv_clientInfo := srv_clientInfo r;
                srv_codeVerifier := Some v;
                srv_oauthStatus := srv_oauthStatus r |}]> db,
         [EvDbUpdate (serverId p) (verifier_update v)])).
Proof.
  intros Hr. split_and!.
  - intros t. unfold Provider.saveTokens. rewrite (run_save_read _ _ _ _ r Hr).
    unfold Provider.tokens, bind, prisma.findUnique, ret. simpl.
    by rewrite lookup_insert_eq.
  - intros info. unfold Provider.saveClientInformation.
    rewrite (run_save_read _ _ _ _ r Hr).
    unfold Provider.clientInformation, bind, prisma.findUnique, ret. simpl.
    by rewrite lookup_insert_eq.
  - intros v Hv. unfold Provider.saveCodeVerifier.
    rewrite (run_save_read _ _ _ _ r Hr), codeVerifier_eq. simpl.
    rewrite lookup_insert_eq. simpl. by destruct v.
Qed.

Lemma provider_round_trip_witness :
  run (Provider.saveCodeVerifier {| serverId := "srv1"; serverName := "Files" |}
         "verifier-9" ;;;
       Provider.codeVerifier {| serverId := "srv1"; serverName := "Files" |})
      (Scenario.table Scenario.fresh)
  = (Normal "verifier-9",
     <["srv1" :=
         {| srv_name := "Files"; srv_type := "http";
            srv_url := Some Scenario.server_url;
            srv_requiresAuth := Some false; srv_authTokens := None;
            srv_clientInfo := None; srv_codeVerifier := Some "verifier-9";
            srv_oauthStatus := Some OAuthStatus.UNKNOWN |}]>
       (Scenario.table Scenario.fresh),
     [EvDbUpdate "srv1" (verifier_update "verifier-9")]).
Proof.
  destruct (provider_round_trip {| serverId := "srv1"; serverName := "Files" |}
              (Scenario.table Scenario.fresh) Scenario.fresh) as (_ & _ & H).
  - unfold Scenario.table. apply lookup_singleton_eq.
  - apply H. discriminate.
Defined.

(** X2.  [codeVerifier] returns exactly when the server is stored with a
    non-empty verifier, and then returns that verifier; for a missing row, a
    null verifier and an empty verifier alike it throws the error
    [No code verifier stored].  It never writes.  In particular an empty
    verifier that was saved cannot be read back. *)
Theorem codeVerifier_present_or_throws (p : ServerOAuthProvider)
  (db : gmap string MCPServer) :
  let out := run (Provider.codeVerifier p) db in
  out.1.2 = db /\ out.2 = []
  /\ (forall v, out.1.1 = Normal v <->
                v <> "" /\ db !! serverId p ≫= srv_codeVerifier = Some v)
  /\ (isNormal out.1.1 = false ->
      out.1.1 = Throw (ErrorObj "No code verifier stored"))
  /\ (forall r, db !! serverId p = Some r ->
                (run (Provider.saveCodeVerifier p "" ;;; Provider.codeVerifier p) db).1.1
                = Throw (ErrorObj "No code verifier stored")).
Proof.
  intros out. subst out. rewrite run_eq, codeVerifier_eq. simpl.
  split_and!; [done|done| | |].
  - intros v. destruct (db !! serverId p ≫= srv_codeVerifier) as [[|c v']|].
    + split; [done|]. by intros [? [= <-]].
    + split; [intros [= <-]; by split|]. by intros [_ [= <-]].
    + split; [done|]. by intros [_ ?].
  - by destruct (db !! serverId p ≫= srv_codeVerifier) as [[|c v']|].
  - intros r Hr. unfold Provider.saveCodeVerifier.
    rewrite (run_save_read _ _ _ _ r Hr), codeVerifier_eq. simpl.
    by rewrite lookup_insert_eq.
Qed.

Lemma codeVerifier_present_or_throws_witness :
  (run (Provider.codeVerifier {| serverId := "srv1"; serverName := "Files" |})
     (Scenario.table Scenario.fresh)).1.1
  = Throw (ErrorObj "No code verifier stored").
Proof.
  destruct (codeVerifier_present_or_throws
              {| serverId := "srv1"; serverName := "Files" |}
              (Scenario.table Scenario.fresh)) as (_ & _ & _ & H & _).
  apply H. vm_compute. reflexivity.
Defined.

(** X3.  [redirectToAuthorization] never redirects: for every table,
    whether or not the server is stored, it throws an error whose message is
    the prefix [REDIRECT_REQUIRED:] followed by the URL, from which the URL
    can be read back, and it touches nothing.  For a server id with no row,
    the three save methods throw and leave the table and the trace as they
    are, while [clientInformation] and [tokens] return undefined without
    throwing. *)
Theorem provider_without_row (p : ServerOAuthProvider)
  (db : gmap string MCPServer) :
  (forall url,
      exists msg,
        run (Provider.redirectToAuthorization p url) db
        = (Throw (ErrorObj msg), db, [])
        /\ Str.strip_prefix "REDIRECT_REQUIRED:" msg = Some url)
  /\ (db !! serverId p = None ->
      (forall t, isNormal (run (Provider.saveTokens p t) db).1.1 = false
                 /\ (run (Provider.saveTokens p t) db).1.2 = db
                 /\ (run (Provider.saveTokens p t) db).2 = [])
      /\ (forall info,
            isNormal (run (Provider.saveClientInformation p info) db).1.1 = false
            /\ (run (Provider.saveClientInformation p info) db).1.2 = db
            /\ (run (Provider.saveClientInformation p info) db).2 = [])
      /\ (forall v, isNormal (run (Provider.saveCodeVerifier p v) db).1.1 = false
                    /\ (run (Provider.saveCodeVerifier p v) db).1.2 = db
                    /\ (run (Provider.saveCodeVerifier p v) db).2 = [])
      /\ run (Provider.clientInformation p) db = (Normal None, db, [])
      /\ run (Provider.tokens p) db = (Normal None, db, [])).
Proof.
  split.
  { intros url. eexists. split; [reflexivity|].
    apply StrFacts.strip_prefix_app. }
  intros Hr.
  assert (forall d, run (prisma.update (serverId p) d) db
                    = (Throw prisma.record_not_found, db, [])) as Hupd.
  { intros d. rewrite run_eq. unfold prisma.update. simpl. by rewrite Hr. }
  split_and!.
  - intros t. unfold Provider.saveTokens. by rewrite Hupd.
  - intros info. unfold Provider.saveClientInformation. by rewrite Hupd.
  - intros v. unfold Provider.saveCodeVerifier. by rewrite Hupd.
  - rewrite run_eq. unfold Provider.clientInformation, bind, prisma.findUnique, ret.
    simpl. by rewrite Hr.
  - rewrite run_eq. unfold Provider.tokens, bind, prisma.findUnique, ret.
    simpl. by rewrite Hr.
Qed.

(** A provider for an id that is not in the table, and one for a stored
    server asked to redirect. *)
Lemma provider_without_row_witness :
  run (Provider.tokens {| serverId := "nope"; serverName := "Files" |})
    (Scenario.table Scenario.fresh)
  = (Normal None, Scenario.table Scenario.fresh, [])
  /\ exists msg,
       run (Provider.redirectToAuthorization
              {| serverId := "srv1"; serverName := "Files" |}
              "https://as.example/authorize")
         (Scenario.table Scenario.fresh)
       = (Throw (ErrorObj msg), Scenario.table Scenario.fresh, [])
       /\ Str.strip_prefix "REDIRECT_REQUIRED:" msg
          = Some "https://as.example/authorize".
Proof.
  split.
  - destruct (provider_without_row {| serverId := "nope"; serverName := "Files" |}
                (Scenario.table Scenario.fresh)) as (_ & H).
    destruct H as (_ & _ & _ & _ & H); [vm_compute; reflexivity|exact H].
  - apply (provider_without_row {| serverId := "srv1"; serverName := "Files" |}
             (Scenario.table Scenario.fresh)).
Defined.

End ProviderFacts.

(* ===================================================================== *)
(** * The base URL *)
(* ===================================================================== *)

Section AppUrlFacts.

Lemma strip_trailing_slash_spec (s : string) :
  (exists r, s = r +:+ "/" /\ Str.strip_trailing_slash s = r)
  \/ ((forall t, s <> t +:+ "/") /\ Str.strip_trailing_slash s = s).
Proof.
  induction s as [|c s IH].
  - right. split; [|done]. by intros [|? ?].
  - destruct s as [|d s'].
    + simpl. destruct (Ascii.eqb_spec c "/") as [->|Hc].
      * left. by exists "".
      * right. split; [|done]. intros [|c' [|? ?]]; [|done|done].
        intros [= ->]. done.
    + destruct IH as [(r & Hr & Hs)|[Hno Hs]].
      * left. exists (String c r). split.
        -- by rewrite StrFacts.app_cons, <- Hr.
        -- change (Str.strip_trailing_slash (String c (String d s')))
             with (String c (Str.strip_trailing_slash (String d s'))).
           by rewrite Hs.
      * right. split.
        -- intros [|c' t]; [done|]. rewrite StrFacts.app_cons.
           intros [= -> Ht]. by apply (Hno t).
        -- change (Str.strip_trailing_slash (String c (String d s')))
             with (String c (Str.strip_trailing_slash (String d s'))).
           by rewrite Hs.
Qed.

(** X4.  [getAppUrl] throws exactly in production with the base URL unset or
    empty, and then with the documented message.  A non-empty configured
    URL is returned with one trailing slash removed if it ends in a slash
    and unchanged otherwise; with none configured, development falls back
    to [http://localhost:3000]. *)
Theorem getAppUrl_outcomes (w : World) :
  (isNormal (getAppUrl w) = false <-> misconfigured w)
  /\ (isNormal (getAppUrl w) = false ->
      getAppUrl w = Throw (ErrorObj app_url_required_message))
  /\ (forall u,
        env_NEXT_PUBLIC_APP_URL w = Some u -> u <> "" ->
        exists r, getAppUrl w = Normal r
                  /\ (u = r +:+ "/" \/ (u = r /\ forall t, u <> t +:+ "/")))
  /\ (truthy_str (env_NEXT_PUBLIC_APP_URL w) = false ->
      env_NODE_ENV w = Some "development" ->
      getAppUrl w = Normal "http://localhost:3000").
Proof.
  unfold getAppUrl, misconfigured. split_and!.
  - destruct (env_NEXT_PUBLIC_APP_URL w) as [[|c u]|]; simpl;
      try case_bool_decide; simpl; unfold truthy_str;
      intuition (try congruence; try discriminate).
  - destruct (env_NEXT_PUBLIC_APP_URL w) as [[|c u]|]; simpl; try done;
      by case_bool_decide.
  - intros u -> Hu. destruct u as [|c u]; [done|].
    eexists. split; [reflexivity|].
    destruct (strip_trailing_slash_spec (String c u)) as [(r & Hr & ->)|[Hno ->]].
    + by left.
    + by right.
  - intros Hurl Henv.
    destruct (env_NEXT_PUBLIC_APP_URL w) as [[|c u]|]; simpl in *; try done;
      by rewrite bool_decide_eq_true_2.
Qed.

Lemma getAppUrl_outcomes_witness :
  exists r, getAppUrl Scenario.w_ok = Normal r
            /\ ("https://app.example/" = r +:+ "/"
                \/ ("https://app.example/" = r
                    /\ forall t, "https://app.example/" <> t +:+ "/")).
Proof.
  destruct (getAppUrl_outcomes Scenario.w_ok) as (_ & _ & H & _).
  apply (H "https://app.example/" eq_refl). discriminate.
Defined.

End AppUrlFacts.

(* ===================================================================== *)
(** * More on detection and expiry *)
(* ===================================================================== *)

Section DetectionMore.
Import Regex.

Local Arguments contains_bearer : simpl never.
Local Arguments extractResourceMetadataUrl : simpl never.

Lemma str_app_assoc (s t u : string) : (s +:+ t) +:+ u = s +:+ (t +:+ u).
Proof.
  induction s as [|c s IH]; [done|]. by rewrite !StrFacts.app_cons, IH.
Qed.

Lemma first_occurrence_value (key h x : string) :
  first_occurrence key h x ->
  x <> "" /\ quote_free x /\ exists pre post, h = pre +:+ x +:+ post.
Proof.
  intros (pre & post & (Hh & Hne & Hq) & _). split_and!; [done|done|].
  exists (pre +:+ literal key), (dquote_str +:+ post).
  by rewrite str_app_assoc.
Qed.

Lemma extract_value (h x : string) :
  extractResourceMetadataUrl h = Some x ->
  x <> "" /\ quote_free x /\ exists pre post, h = pre +:+ x +:+ post.
Proof.
  unfold extractResourceMetadataUrl.
  destruct (first_match "resource_metadata" h) as [y|] eqn:Hrm.
  - intros [= <-]. by apply (first_occurrence_value "resource_metadata"),
      StrFacts.first_match_sound.
  - intros Hrealm. by apply (first_occurrence_value "realm"),
      StrFacts.first_match_sound.
Qed.

(** X5.  Detection answers [requiresAuth = true] exactly when the probe got a
    response with status 401, whatever its headers, and then reports no
    error.  It makes one request, to the URL it was given, and nothing
    else. *)
Theorem requires_auth_exactly_on_401
  (w : World) (url : string) (db : gmap string MCPServer)
  (det : OAuthDetectionResult) :
  (run (detectOAuthRequirement w url) db).1.1 = Normal det ->
  (det_requiresAuth det = true <->
   exists resp, fetch w url = Normal resp /\ http_status resp = 401)
  /\ (det_requiresAuth det = true -> det_error det = None)
  /\ (run (detectOAuthRequirement w url) db).2 = [EvFetch url].
Proof.
  rewrite DetectionFacts.detect_result. simpl. intros [= <-].
  unfold detection_of. split_and!; [| |done].
  - destruct (fetch w url) as [resp|e]; simpl.
    + destruct (Z.eqb_spec (http_status resp) 401) as [H401|H401].
      * split; [intros _; by exists resp|intros _].
        destruct (www_authenticate resp) as [h|]; [|done].
        by destruct (contains_bearer (Some h)).
      * split; [done|]. by intros (resp' & [= <-] & ?).
    + split; [done|]. by intros (resp' & ? & ?).
  - destruct (fetch w url) as [resp|e]; simpl; [|done].
    destruct (http_status resp =? 401); [|done].
    destruct (www_authenticate resp) as [h|]; [|done].
    by destruct (contains_bearer (Some h)).
Qed.

Lemma requires_auth_exactly_on_401_witness :
  exists resp,
    fetch (Scenario.world Scenario.app Scenario.production
             (Normal {| http_status := 401; www_authenticate := None |})
             SdkResolve) Scenario.server_url = Normal resp
    /\ http_status resp = 401.
Proof.
  destruct (requires_auth_exactly_on_401
              (Scenario.world Scenario.app Scenario.production
                 (Normal {| http_status := 401; www_authenticate := None |})
                 SdkResolve)
              Scenario.server_url ∅
              {| det_requiresAuth := true; det_resourceMetadataUrl := None;
                 det_error := None |}) as (H & _).
  - vm_compute. reflexivity.
  - by apply H.
Defined.

(** X6.  A metadata URL is reported only for a 401 whose
    [WWW-Authenticate] header contains [bearer] in some letter case,
    wherever in the header and whatever its scheme; it is then a non-empty
    piece of that header without a double quote.  So the check endpoint's
    test [detection.resourceMetadataUrl ?] never drops a reported URL: the
    hint it hands to discovery is the reported URL. *)
Theorem reported_hint_comes_from_challenge
  (w : World) (url : string) (db : gmap string MCPServer)
  (det : OAuthDetectionResult) :
  (run (detectOAuthRequirement w url) db).1.1 = Normal det ->
  Check.metadata_hint det = det_resourceMetadataUrl det
  /\ (forall x,
        det_resourceMetadataUrl det = Some x ->
        x <> "" /\ quote_free x
        /\ exists resp h pre post,
             fetch w url = Normal resp /\ http_status resp = 401
             /\ www_authenticate resp = Some h
             /\ contains_bearer (Some h) = true
             /\ h = pre +:+ x +:+ post).
Proof.
  rewrite DetectionFacts.detect_result. simpl. intros [= <-].
  assert (forall x,
             det_resourceMetadataUrl (detection_of (fetch w url)) = Some x ->
             x <> "" /\ quote_free x
             /\ exists resp h pre post,
                  fetch w url = Normal resp /\ http_status resp = 401
                  /\ www_authenticate resp = Some h
                  /\ contains_bearer (Some h) = true
                  /\ h = pre +:+ x +:+ post) as Hx.
  { intros x. unfold detection_of.
    destruct (fetch w url) as [resp|e]; simpl; [|done].
    destruct (Z.eqb_spec (http_status resp) 401) as [H401|H401]; [|done].
    destruct (www_authenticate resp) as [h|] eqn:Hh; [|done].
    destruct (contains_bearer (Some h)) eqn:Hb; [|done]. simpl.
    intros Hex. destruct (extract_value h x Hex) as (Hne & Hq & pre & post & ->).
    split_and!; [done|done|]. by exists resp, (pre +:+ x +:+ post), pre, post. }
  split; [|exact Hx].
  unfold Check.metadata_hint.
  destruct (det_resourceMetadataUrl (detection_of (fetch w url))) as [x|] eqn:E;
    [|done].
  destruct (Hx x eq_refl) as (Hne & _). by destruct x.
Qed.

Lemma reported_hint_comes_from_challenge_witness :
  Check.metadata_hint
    {| det_requiresAuth := true;
       det_resourceMetadataUrl := Some Scenario.metadata_url;
       det_error := None |}
  = Some Scenario.metadata_url.
Proof.
  destruct (reported_hint_comes_from_challenge Scenario.w_ok Scenario.server_url ∅
              {| det_requiresAuth := true;
                 det_resourceMetadataUrl := Some Scenario.metadata_url;
                 det_error := None |}) as (H & _).
  - vm_compute. reflexivity.
  - exact H.
Defined.

End DetectionMore.

(* ===================================================================== *)
(** * [encodeURIComponent] and the redirect targets *)
(* ===================================================================== *)

Section EncodingFacts.
Import Str.

Lemma all_chars_app (f : ascii -> bool) (s t : string) :
  all_chars f (s +:+ t) = all_chars f s && all_chars f t.
Proof.
  induction s as [|c s IH]; [done|].
  rewrite StrFacts.app_cons. simpl. by rewrite IH, andb_assoc.
Qed.

Lemma encoded_char_ok (c : ascii) :
  all_chars is_encoded_char
    (if is_unreserved c then String c "" else percent_encode c) = true.
Proof. destruct c as [[] [] [] [] [] [] [] []]; vm_compute; reflexivity. Qed.

Lemma hex_digits_value (c : ascii) :
  ascii_of_nat (16 * hex_value (hex_digit (nat_of_ascii c / 16))
                + hex_value (hex_digit (nat_of_ascii c mod 16))) = c.
Proof. destruct c as [[] [] [] [] [] [] [] []]; vm_compute; reflexivity. Qed.

Lemma unreserved_not_percent (c : ascii) : is_unreserved c = true -> c <> "%"%char.
Proof. intros Hu ->. vm_compute in Hu. discriminate. Qed.

Lemma decode_percent_encode (c : ascii) (t : string) :
  percent_decode (percent_encode c +:+ t) = String c (percent_decode t).
Proof.
  unfold percent_encode. rewrite !StrFacts.app_cons. change ("" +:+ t) with t.
  change (percent_decode (String "%" (String ?h1 (String ?h2 t))))
    with (String (ascii_of_nat (16 * hex_value h1 + hex_value h2))
            (percent_decode t)).
  by rewrite hex_digits_value.
Qed.

Lemma decode_unreserved (c : ascii) (t : string) :
  c <> "%"%char -> percent_decode (String c t) = String c (percent_decode t).
Proof.
  intros Hc. simpl. destruct t as [|h1 [|h2 rest]]; try done.
  by destruct (Ascii.eqb_spec c "%").
Qed.

Lemma percent_decode_encode (s : string) :
  percent_decode (encodeURIComponent s) = s.
Proof.
  induction s as [|c s IH]; [done|]. simpl.
  destruct (is_unreserved c) eqn:Hu.
  - rewrite StrFacts.app_cons. change ("" +:+ ?t) with t.
    by rewrite (decode_unreserved c _ (unreserved_not_percent c Hu)), IH.
  - by rewrite decode_percent_encode, IH.
Qed.

(** X8.  The targets the callback redirects to can be read back: the value
    after [server=] percent-decodes to the name of the server, the value
    after [oauth_error=] to the reason.  So two names never give the same
    success target, two reasons never the same error target, and no success
    target is an error target. *)
Theorem callback_targets_read_back :
  (forall name,
      exists v, Callback.success_target name = "/?oauth_success=true&server=" +:+ v
                /\ percent_decode v = name)
  /\ (forall reason,
        exists v, Callback.error_target reason = "/?oauth_error=" +:+ v
                  /\ percent_decode v = reason)
  /\ (forall name name',
        Callback.success_target name = Callback.success_target name' -> name = name')
  /\ (forall reason reason',
        Callback.error_target reason = Callback.error_target reason' ->
        reason = reason')
  /\ (forall name reason, Callback.success_target name <> Callback.error_target reason).
Proof.
  split_and!.
  - intros name. eexists. split; [reflexivity|]. apply percent_decode_encode.
  - intros reason. eexists. split; [reflexivity|]. apply percent_decode_encode.
  - intros name name' Heq. unfold Callback.success_target in Heq.
    apply String.app_inj in Heq.
    by rewrite <- (percent_decode_encode name), <- (percent_decode_encode name'), Heq.
  - intros reason reason' Heq. unfold Callback.error_target in Heq.
    apply String.app_inj in Heq.
    by rewrite <- (percent_decode_encode reason), <- (percent_decode_encode reason'),
         Heq.
  - intros name reason Heq.
    apply (f_equal (String.get 8)) in Heq. discriminate Heq.
Qed.

(** X9.  [encodeURIComponent] puts out unreserved characters and percent signs
    only.  So the value the callback appends after [oauth_error=] or
    [server=] contains no ampersand, equals sign, hash, question mark,
    slash, plus or space: whatever the provider or the SDK reported, the
    redirect target carries no parameter beyond the ones the handler
    wrote. *)
Theorem encodeURIComponent_alphabet (s : string) :
  all_chars is_encoded_char (encodeURIComponent s) = true
  /\ all_chars (fun c => negb (is_query_delimiter c)) (encodeURIComponent s) = true
  /\ (exists v, Callback.error_target s = "/?oauth_error=" +:+ v
                /\ all_chars is_encoded_char v = true)
  /\ (exists v, Callback.success_target s = "/?oauth_success=true&server=" +:+ v
                /\ all_chars is_encoded_char v = true).
Proof.
  assert (all_chars is_encoded_char (encodeURIComponent s) = true) as Hall.
  { induction s as [|c s IH]; [done|]. simpl.
    by rewrite all_chars_app, encoded_char_ok, IH. }
  split_and!; [done| |by eexists|by eexists].
  revert Hall. generalize (encodeURIComponent s) as t.
  induction t as [|c t IH]; [done|]. simpl.
  intros [Hc Ht]%andb_prop. rewrite (IH Ht), andb_true_r.
  revert Hc. destruct c as [[] [] [] [] [] [] [] []]; vm_compute; congruence.
Qed.

End EncodingFacts.

(* ===================================================================== *)
(** * One server at a time *)
(* ===================================================================== *)

Section StableAt.
Context (R : St -> St -> Prop) `{!PreOrder R}.
Context (ok_update : string -> UpdateData -> Prop).
Hypothesis R_push : forall e s, (forall i d, e <> EvDbUpdate i d) -> R s (push e s).
Hypothesis R_updated :
  forall id d r s, ok_update id d -> st_db s !! id = Some r -> R s (updated id d r s).

Lemma update_at (id : string) (d : UpdateData) :
  ok_update id d -> stable R (prisma.update id d).
Proof.
  intros Hd s. unfold prisma.update.
  destruct (st_db s !! id) as [r|] eqn:Hr; simpl; [|reflexivity].
  by apply R_updated.
Qed.

Lemma call_at {A} (e : Event) (c : Completion A) :
  (forall i d, e <> EvDbUpdate i d) -> stable R (call e c).
Proof.
  intros He. apply (stable_bind R); [|intros _; apply (stable_lift R)].
  intros s. by apply R_push.
Qed.

Lemma run_sdk_at (w : World) (p : ServerOAuthProvider) (prog : SdkProg) :
  (forall d, ok_update (serverId p) d) -> stable R (run_sdk w p prog).
Proof.
  intros Hp.
  induction prog as [|e|label k IH|k IH|k IH|k IH|info k IH|k IH|t k IH
                    |url k IH|v k IH|k IH]; simpl;
    try (apply (stable_bind R); [|intros c; apply IH]).
  - apply (stable_ret R).
  - apply (stable_throw R).
  - intros s. apply R_push. discriminate.
  - apply (stable_ret R).
  - apply (stable_ret R).
  - apply (stable_attempt R), (stable_clientInformation R).
  - apply (stable_attempt R), update_at, Hp.
  - apply (stable_attempt R). unfold Provider.tokens.
    apply (stable_bind R); [apply (stable_findUnique R)|].
    intros ?. apply (stable_ret R).
  - apply (stable_attempt R), update_at, Hp.
  - apply (stable_attempt R), (stable_throw R).
  - apply (stable_attempt R), update_at, Hp.
  - apply (stable_attempt R). intros s. rewrite codeVerifier_eq. reflexivity.
Qed.

Lemma authorize_at w p a md ci :
  (forall d, ok_update (serverId p) d) -> stable R (Check.authorize w p a md ci).
Proof.
  intros Hp. unfold Check.authorize.
  apply (stable_bind R); [apply (stable_lift R)|]. intros u.
  apply (stable_bind R); [apply call_at; discriminate|]. intros [au v].
  apply (stable_bind R); [apply update_at, Hp|]. intros _. apply (stable_ret R).
Qed.

Lemma client_and_authorize_at w p a md :
  (forall d, ok_update (serverId p) d) ->
  stable R (Check.client_and_authorize w p a md).
Proof.
  intros Hp. unfold Check.client_and_authorize.
  apply (stable_bind R); [apply (stable_clientInformation R)|]. intros [ci|].
  - by apply authorize_at.
  - destruct (truthy_str _); [|apply (stable_ret R)].
    apply (stable_bind R); [apply (stable_lift R)|]. intros cm.
    apply (stable_bind R); [apply call_at; discriminate|]. intros ci.
    apply (stable_bind R); [apply update_at, Hp|]. intros _.
    by apply authorize_at.
Qed.

Lemma generate_at w p url det :
  (forall d, ok_update (serverId p) d) -> stable R (Check.generate w p url det).
Proof.
  intros Hp. unfold Check.generate. apply (stable_try_catch R).
  - apply (stable_bind R); [apply (stable_lift R)|]. intros _.
    apply (stable_bind R); [apply call_at; discriminate|]. intros rm.
    destruct (Check.first_authorization_server rm) as [a|];
      [|apply (stable_ret R)].
    apply (stable_bind R); [apply call_at; discriminate|].
    intros [md|]; [|apply (stable_ret R)].
    by apply client_and_authorize_at.
  - intros e. apply (stable_ret R).
Qed.

Lemma check_at w id :
  (forall d, ok_update id d) -> stable R (Check.GET w id).
Proof.
  intros Hp.
  assert (forall server, stable R (Check.detect w id server)) as Hdet.
  { intros server. unfold Check.detect. apply (stable_bind R).
    { intros s. rewrite DetectionFacts.detect_run. apply R_push. discriminate. }
    intros det. destruct (negb _).
    - apply (stable_bind R); [apply update_at, Hp|]. intros _. apply (stable_ret R).
    - apply (stable_bind R); [apply update_at, Hp|]. intros _.
      by apply generate_at. }
  unfold Check.GET.
  apply (stable_bind R); [apply (stable_findFirst_http R)|].
  intros [server|]; [|apply (stable_ret R)].
  destruct (Check.connected_with_tokens server); [|apply Hdet].
  destruct (negb _); [apply (stable_ret R)|].
  apply (stable_bind R); [apply update_at, Hp|]. intros _. apply Hdet.
Qed.

Lemma callback_at w id q :
  (forall d, ok_update id d) -> stable R (Callback.GET w id q).
Proof.
  intros Hp.
  assert (forall code appUrl server,
             stable R (Callback.exchange w id code appUrl server)) as Hex.
  { intros code appUrl server. unfold Callback.exchange.
    apply (stable_try_catch R).
    - apply (stable_bind R).
      { unfold Callback.finish. apply (stable_bind R); [apply (stable_lift R)|].
        intros _. by apply run_sdk_at. }
      intros _. apply (stable_bind R); [apply update_at, Hp|]. intros _.
      apply (stable_redirect R).
    - intros err. apply (stable_bind R); [apply update_at, Hp|]. intros _.
      apply (stable_redirect R). }
  unfold Callback.GET.
  apply (stable_bind R); [apply (stable_lift R)|]. intros appUrl.
  destruct (q_error q) as [[|c e]|]; try apply (stable_redirect R);
    (destruct (q_code q) as [[|c' code]|]; try apply (stable_redirect R);
     apply (stable_bind R); [apply (stable_findUnique R)|];
     intros [server|]; [|apply (stable_redirect R)];
     destruct (truthy_str (srv_url server));
       [apply Hex|apply (stable_redirect R)]).
Qed.

End StableAt.

Global Instance isolates_preorder id0 : PreOrder (isolates id0).
Proof.
  split.
  - by intros s id'.
  - intros s1 s2 s3 H12 H23 id' Hne. by rewrite H23, H12.
Qed.

Lemma isolates_updated id0 d r s : isolates id0 s (updated id0 d r s).
Proof. intros id' Hne. simpl. by rewrite lookup_insert_ne. Qed.

Section Isolation.

(** X10.  An operation for one server leaves every other row of the table as it
    is, and every update it makes is of that server's row: this holds for
    the check endpoint, for the callback endpoint, and for whatever the SDK
    does with the provider of that server. *)
Theorem operations_touch_one_row (id : string) (db : gmap string MCPServer) :
  (forall w,
      (forall id', id' <> id ->
                   (run (Check.GET w id) db).1.2 !! id' = db !! id')
      /\ Forall (targets id) (run (Check.GET w id) db).2)
  /\ (forall w q,
        (forall id', id' <> id ->
                     (run (Callback.GET w id q) db).1.2 !! id' = db !! id')
        /\ Forall (targets id) (run (Callback.GET w id q) db).2)
  /\ (forall w name session,
        (forall id', id' <> id ->
            (run (run_sdk w {| serverId := id; serverName := name |} session)
               db).1.2 !! id' = db !! id')
        /\ Forall (targets id)
             (run (run_sdk w {| serverId := id; serverName := name |} session)
                db).2).
Proof.
  assert (forall e s, (forall i d, e <> EvDbUpdate i d) ->
                      extends (targets id) s (push e s)) as Hpush.
  { intros e s He. apply extends_push. destruct e; try done. by destruct (He id0 data). }
  assert (forall i d r s, i = id -> st_db s !! i = Some r ->
                          extends (targets id) s (updated i d r s)) as Hupd.
  { intros i d r s -> _. by apply extends_updated. }
  assert (forall i d r s, i = id -> st_db s !! i = Some r ->
                          isolates id s (updated i d r s)) as Hiso.
  { intros i d r s -> _. apply isolates_updated. }
  split_and!.
  - intros w. rewrite run_eq. simpl. split.
    + apply (check_at (isolates id) (fun i _ => i = id)); try done.
    + destruct (check_at (extends (targets id)) (fun i _ => i = id) Hpush Hupd
                  w id (fun _ => eq_refl) (init db)) as (evs & -> & H). done.
  - intros w q. rewrite run_eq. simpl. split.
    + apply (callback_at (isolates id) (fun i _ => i = id)); try done.
    + destruct (callback_at (extends (targets id)) (fun i _ => i = id) Hpush Hupd
                  w id q (fun _ => eq_refl) (init db)) as (evs & -> & H). done.
  - intros w name session. rewrite run_eq. simpl. split.
    + apply (run_sdk_at (isolates id) (fun i _ => i = id)); try done.
    + destruct (run_sdk_at (extends (targets id)) (fun i _ => i = id) Hpush Hupd
                  w {| serverId := id; serverName := name |} session
                  (fun _ => eq_refl) (init db)) as (evs & -> & H). done.
Qed.

End Isolation.

(* ===================================================================== *)
(** * A returned authorization URL is backed by the table *)
(* ===================================================================== *)

Section Ensures.
Context {A : Type} (Q : A -> St -> Prop).

Lemma ensures_ret (a : A) : (forall s, Q a s) -> ensures Q (ret a).
Proof. intros H s a' s' [= <- <-]. apply H. Qed.

Lemma ensures_bind {B} (m : M B) (k : B -> M A) :
  (forall b, ensures Q (k b)) -> ensures Q (bind m k).
Proof.
  intros Hk s a s'. unfold bind. destruct (m s) as [[b|e] s1]; [|done].
  apply Hk.
Qed.

Lemma ensures_try_catch (body : M A) (handler : JsError -> M A) :
  ensures Q body -> (forall e, ensures Q (handler e)) ->
  ensures Q (try_catch body handler).
Proof.
  intros Hb Hh s a s'. unfold try_catch.
  destruct (body s) as [[b|e] s1] eqn:Hbody.
  - intros [= <- <-]. by apply (Hb s).
  - apply Hh.
Qed.

End Ensures.

Lemma authorize_eq w p a md ci s :
  Check.authorize w p a md ci s =
  match Provider.redirectUrl w p with
  | Throw e => (Throw e, s)
  | Normal u =>
      match startAuthorization w a md ci u with
      | Throw e => (Throw e, push (EvStartAuthorization a ci u) s)
      | Normal (au, v) =>
          match st_db s !! serverId p with
          | Some r =>
              (Normal (Check.required (serverId p) (Some au) None),
               updated (serverId p) (verifier_update v) r
                 (push (EvStartAuthorization a ci u) s))
          | None =>
              (Throw prisma.record_not_found, push (EvStartAuthorization a ci u) s)
          end
      end
  end.
Proof.
  unfold Check.authorize, bind at 1, lift.
  destruct (Provider.redirectUrl w p) as [u|e]; [|done].
  unfold bind at 1, call, bind at 1, emit, lift. fold (push (EvStartAuthorization a ci u) s).
  destruct (startAuthorization w a md ci u) as [[au v]|e]; [|done].
  unfold bind, Provider.saveCodeVerifier, prisma.update, ret. simpl.
  by destruct (st_db s !! serverId p).
Qed.

Lemma redirectUrl_eq w p :
  Provider.redirectUrl w p =
  match getAppUrl w with
  | Normal appUrl => Normal (callback_uri appUrl (serverId p))
  | Throw e => Throw e
  end.
Proof. unfold Provider.redirectUrl, cbind. by destruct (getAppUrl w). Qed.

Lemma authorize_ensures w p a md ci :
  ensures (fun resp s' =>
             srv_clientInfo <$> (st_db s' !! serverId p) = Some (Some ci) ->
             url_backed w (serverId p) resp s')
    (Check.authorize w p a md ci).
Proof.
  intros s resp s'. rewrite authorize_eq, redirectUrl_eq.
  destruct (getAppUrl w) as [appUrl|e] eqn:Happ; [|done].
  destruct (startAuthorization w a md ci _) as [[au v]|e] eqn:Hstart; [|done].
  destruct (st_db s !! serverId p) as [r|] eqn:Hr; [|done].
  intros [= <- <-] Hci au' [= <-].
  exists appUrl, a, md, ci, v. split_and!; try done.
  - by rewrite lookup_updated.
  - exists (st_trace s). simpl. by rewrite <- app_assoc.
Qed.

Lemma authorize_keeps_client w p a md ci :
  stable (keeps srv_clientInfo) (Check.authorize w p a md ci).
Proof.
  apply (stable_authorize (keeps srv_clientInfo) (fun _ => True)
           (leaves srv_clientInfo)
           (fun e s _ => keeps_push srv_clientInfo e s)
           (keeps_updated srv_clientInfo)); done.
Qed.

Lemma client_and_authorize_ensures w p a md :
  ensures (url_backed w (serverId p)) (Check.client_and_authorize w p a md).
Proof.
  intros s resp s'.
  unfold Check.client_and_authorize, bind at 1, Provider.clientInformation,
    bind at 1, prisma.findUnique, ret.
  destruct (st_db s !! serverId p ≫= srv_clientInfo) as [ci|] eqn:Hci.
  - assert (match st_db s !! serverId p with
            | Some r => srv_clientInfo r | None => None end = Some ci) as ->.
    { by destruct (st_db s !! serverId p). }
    intros Hrun. apply (authorize_ensures w p a md ci s resp s' Hrun).
    pose proof (authorize_keeps_client w p a md ci s (serverId p)) as Hk.
    rewrite Hrun in Hk. simpl in Hk. rewrite Hk.
    destruct (st_db s !! serverId p) as [r|]; [|done]. simpl in *. by rewrite Hci.
  - assert (match st_db s !! serverId p with
            | Some r => srv_clientInfo r | None => None end = None) as ->.
    { by destruct (st_db s !! serverId p). }
    destruct (truthy_str _).
    2:{ intros [= <- <-] au. done. }
    unfold bind at 1, lift.
    destruct (Provider.clientMetadata w p) as [cm|e]; [|done].
    unfold bind at 1, call, bind at 1, emit, lift.
    destruct (registerClient w a md cm) as [ci|e]; [|done].
    unfold bind at 1, Provider.saveClientInformation, prisma.update. simpl.
    destruct (st_db s !! serverId p) as [r|] eqn:Hr; [|done].
    match goal with
    | |- Check.authorize _ _ _ _ _ ?s1 = _ -> _ =>
        intros Hrun; apply (authorize_ensures w p a md ci s1 resp s' Hrun);
        pose proof (authorize_keeps_client w p a md ci s1 (serverId p)) as Hk
    end.
    rewrite Hrun in Hk. simpl in Hk. rewrite Hk.
    by rewrite lookup_insert_eq.
Qed.

Lemma check_ensures w id : ensures (url_backed w id) (Check.GET w id).
Proof.
  assert (forall server, ensures (url_backed w id) (Check.detect w id server)) as Hdet.
  { intros server. unfold Check.detect. apply ensures_bind. intros det.
    destruct (negb _).
    - apply ensures_bind. intros _. apply ensures_ret. by intros s au.
    - apply ensures_bind. intros _. unfold Check.generate.
      apply ensures_try_catch; [|intros e; apply ensures_ret; by intros s au].
      apply ensures_bind. intros _. apply ensures_bind. intros rm.
      destruct (Check.first_authorization_server rm) as [a|];
        [|apply ensures_ret; by intros s au].
      apply ensures_bind. intros [md|]; [|apply ensures_ret; by intros s au].
      apply (client_and_authorize_ensures w
               {| serverId := id; serverName := srv_name server |}). }
  unfold Check.GET. apply ensures_bind.
  intros [server|]; [|apply ensures_ret; by intros s au].
  destruct (Check.connected_with_tokens server); [|apply Hdet].
  destruct (negb _); [apply ensures_ret; by intros s au|].
  apply ensures_bind. intros _. apply Hdet.
Qed.

(* ===================================================================== *)
(** * Checking twice *)
(* ===================================================================== *)

(** The authorization part with a client on record, when everything it
    asks for is answered. *)
Lemma generate_authorizes w p url det rm a md ci appUrl au v r0 s :
  url_parses w url = true ->
  discoverOAuthProtectedResourceMetadata w url (Check.metadata_hint det) = Normal rm ->
  Check.first_authorization_server rm = Some a ->
  discoverAuthorizationServerMetadata w a = Normal (Some md) ->
  st_db s !! serverId p = Some r0 ->
  srv_clientInfo r0 = Some ci ->
  getAppUrl w = Normal appUrl ->
  startAuthorization w a md ci (callback_uri appUrl (serverId p)) = Normal (au, v) ->
  Check.generate w p url det s =
  (Normal (Check.required (serverId p) (Some au) None),
   updated (serverId p) (verifier_update v) r0
     (push (EvStartAuthorization a ci (callback_uri appUrl (serverId p)))
        (push (EvDiscoverAuthServerMetadata a)
           (push (EvDiscoverResourceMetadata url (Check.metadata_hint det)) s)))).
Proof.
  intros Hp Hrm Ha Hmd Hr Hci Happ Hstart.
  unfold Check.generate, try_catch, bind at 1, lift, new_URL. rewrite Hp.
  unfold bind at 1, call, bind at 1, emit, lift. rewrite Hrm, Ha.
  unfold bind at 1, call, bind at 1, emit, lift. rewrite Hmd.
  rewrite (client_and_authorize_known w p a md ci r0) by done.
  rewrite authorize_eq, redirectUrl_eq, Happ, Hstart. simpl. by rewrite Hr.
Qed.

(** A check that finds authorization required, with a client on record and
    every call answered: what it returns and what it did. *)
Lemma check_authorizes w id db r rm a md ci appUrl au v :
  http_row db id = Some r ->
  srv_clientInfo r = Some ci ->
  check_verdict w db id = OAuthStatus.REQUIRED ->
  url_parses w (default "" (srv_url r)) = true ->
  discoverOAuthProtectedResourceMetadata w (default "" (srv_url r))
    (Check.metadata_hint (detection_of (fetch w (default "" (srv_url r)))))
  = Normal rm ->
  Check.first_authorization_server rm = Some a ->
  discoverAuthorizationServerMetadata w a = Normal (Some md) ->
  getAppUrl w = Normal appUrl ->
  startAuthorization w a md ci (callback_uri appUrl id) = Normal (au, v) ->
  exists prefix,
    (prefix = [] \/ prefix = [EvDbUpdate id (status_update OAuthStatus.EXPIRED)])
    /\ (run (Check.GET w id) db).1.1 = Normal (Check.required id (Some au) None)
    /\ (run (Check.GET w id) db).2
       = prefix
         ++ [EvFetch (default "" (srv_url r));
             EvDbUpdate id (status_update OAuthStatus.REQUIRED);
             EvDiscoverResourceMetadata (default "" (srv_url r))
               (Check.metadata_hint
                  (detection_of (fetch w (default "" (srv_url r)))));
             EvDiscoverAuthServerMetadata a;
             EvStartAuthorization a ci (callback_uri appUrl id);
             EvDbUpdate id (verifier_update v)].
Proof.
  intros Hrow Hci Hv Hp Hrm Ha Hmd Happ Hstart.
  pose proof (http_row_Some _ _ _ Hrow) as Hr.
  rewrite run_eq, check_eq. simpl. rewrite Hrow.
  unfold check_verdict in Hv. rewrite Hrow in Hv.
  assert (forall r' s,
             st_db s !! id = Some r' -> srv_clientInfo r' = Some ci ->
             Check.detect w id r s =
             (Normal (Check.required id (Some au) None),
              updated id (verifier_update v)
                (apply_update (status_update OAuthStatus.REQUIRED) r')
                (push (EvStartAuthorization a ci (callback_uri appUrl id))
                   (push (EvDiscoverAuthServerMetadata a)
                      (push (EvDiscoverResourceMetadata (default "" (srv_url r))
                               (Check.metadata_hint
                                  (detection_of (fetch w (default "" (srv_url r))))))
                         (updated id (status_update OAuthStatus.REQUIRED) r'
                            (push (EvFetch (default "" (srv_url r))) s)))))))
    as Hdet.
  { intros r' s Hr' Hci'. rewrite (detect_eq w id r r' s Hr'). cbv zeta.
    destruct (Check.connected_with_tokens r && _) in Hv; [done|].
    destruct (det_requiresAuth _); [|done]. simpl.
    apply (generate_authorizes w {| serverId := id; serverName := srv_name r |}
             _ _ rm a md ci appUrl au v); try done.
    simpl. by rewrite lookup_insert_eq. }
  destruct (Check.connected_with_tokens r); simpl in *.
  - destruct (isTokenExpired _ _); simpl in *; [|done].
    exists [EvDbUpdate id (status_update OAuthStatus.EXPIRED)].
    rewrite (Hdet (apply_update (status_update OAuthStatus.EXPIRED) r));
      [|apply lookup_updated|done].
    by split_and!; [right|..].
  - exists []. rewrite (Hdet r) by done. by split_and!; [left|..].
Qed.

Section Idempotence.

(** C6, as amended.  Two check invocations in a row, with no callback in
    between, for a server whose client information is persisted after the
    first.  The second performs no dynamic registration and leaves the
    persisted client as it is; an authorization URL it returns was obtained
    from [startAuthorization] with the persisted client; and when it finds
    authorization required and every call it makes is answered, it does
    start the authorization with the persisted client and returns the URL
    it got.  When the stored tokens are reported expired at both instants or
    at neither, and the network answers both invocations alike, both
    return, with the same [oauthStatus]. *)
Theorem check_idempotent (w : World) (t2 : Z) (id : string)
  (db : gmap string MCPServer) (ci : OAuthClientInformation) :
  let first := run (Check.GET w id) db in
  let second := run (Check.GET (at_time w t2) id) first.1.2 in
  srv_clientInfo <$> (first.1.2 !! id) = Some (Some ci) ->
  (Forall (fun e => is_registration e = false) second.2
   /\ Forall (client_reused ci) second.2
   /\ srv_clientInfo <$> (second.1.2 !! id) = Some (Some ci))
  /\ (forall resp au,
        second.1.1 = Normal resp ->
        resp_authorizationUrl resp = Some au ->
        exists appUrl a md v tr0,
          getAppUrl w = Normal appUrl
          /\ startAuthorization w a md ci (callback_uri appUrl id) = Normal (au, v)
          /\ second.2
             = tr0 ++ [EvStartAuthorization a ci (callback_uri appUrl id);
                       EvDbUpdate id (verifier_update v)])
  /\ (forall r rm a md appUrl au v,
        http_row first.1.2 id = Some r ->
        check_verdict (at_time w t2) first.1.2 id = OAuthStatus.REQUIRED ->
        url_parses w (default "" (srv_url r)) = true ->
        discoverOAuthProtectedResourceMetadata w (default "" (srv_url r))
          (Check.metadata_hint (detection_of (fetch w (default "" (srv_url r)))))
        = Normal rm ->
        Check.first_authorization_server rm = Some a ->
        discoverAuthorizationServerMetadata w a = Normal (Some md) ->
        getAppUrl w = Normal appUrl ->
        startAuthorization w a md ci (callback_uri appUrl id) = Normal (au, v) ->
        second.1.1 = Normal (Check.required id (Some au) None)
        /\ In (EvStartAuthorization a ci (callback_uri appUrl id)) second.2)
  /\ ((forall r, db !! id = Some r ->
                 isTokenExpired t2 (srv_authTokens r)
                 = isTokenExpired (date_now w) (srv_authTokens r)) ->
      exists r1 r2,
        first.1.1 = Normal r1 /\ second.1.1 = Normal r2
        /\ resp_oauthStatus r2 = resp_oauthStatus r1).
Proof.
  intros first second Hci. subst first second.
  set (db1 := (run (Check.GET w id) db).1.2) in *.
  assert (db1 = st_db (Check.GET w id (init db)).2) as Hdb1.
  { unfold db1. by rewrite run_eq. }
  assert (Forall (client_reused ci) (run (Check.GET (at_time w t2) id) db1).2
          /\ srv_clientInfo <$> ((run (Check.GET (at_time w t2) id) db1).1.2 !! id)
             = Some (Some ci)) as [Hreused Hkept].
  { rewrite run_eq. simpl.
    destruct (check_reuses_client (at_time w t2) id ci (init db1) Hci)
      as [(evs & Hevs & Hreused) Hhas].
    simpl in Hevs. by rewrite Hevs. }
  split_and!; [|exact Hreused|exact Hkept|..].
  - eapply Forall_impl; [exact Hreused|]. by intros [].
  - intros resp au Hresp Hau. rewrite run_eq in Hresp |- *. simpl in *.
    destruct (Check.GET (at_time w t2) id (init db1)) as [c s2] eqn:Hget.
    simpl in *. subst c.
    destruct (check_ensures (at_time w t2) id (init db1) resp s2 Hget au Hau)
      as (appUrl & a & md & ci' & v & Happ & Hstart & _ & Hci' & (tr0 & Htr) & _).
    destruct (check_reuses_client (at_time w t2) id ci (init db1) Hci) as [_ Hhas].
    rewrite Hget in Hhas. unfold has_client in Hhas. simpl in Hhas.
    rewrite Hhas in Hci'. injection Hci' as <-.
    by exists appUrl, a, md, v, tr0.
  - intros r rm a md appUrl au v Hrow Hv Hp Hrm Ha Hmd Happ Hstart.
    assert (srv_clientInfo r = Some ci) as Hcir.
    { apply http_row_Some in Hrow. rewrite Hrow in Hci. by injection Hci. }
    destruct (check_authorizes (at_time w t2) id db1 r rm a md ci appUrl au v)
      as (prefix & _ & Hresp & Htr); try done.
    split; [done|]. rewrite Htr. apply in_or_app. right. simpl. tauto.
  - intros Hexp. rewrite !run_eq. simpl. rewrite Hdb1.
    destruct (check_returns_verdict w id db) as (r1 & s1 & Hrun1 & Hv1 & _).
    destruct (check_returns_verdict (at_time w t2) id
                (st_db (Check.GET w id (init db)).2))
      as (r2 & s2 & Hrun2 & Hv2 & _).
    exists r1, r2. rewrite Hrun2, Hrun1. split_and!; [done|done|].
    rewrite Hv1, Hv2. by apply check_verdict_again.
Qed.

End Idempotence.

Section IdempotenceRuns.
Import Scenario.

(** A fresh server checked twice, one second apart: the first check
    registers a client, the second registers none and starts the
    authorization with that client. *)
Lemma check_idempotent_witness :
  let first := run (Check.GET w_ok "srv1") (table fresh) in
  let second := run (Check.GET (at_time w_ok 1700000001000) "srv1") first.1.2 in
  Forall (fun e => is_registration e = false) second.2
  /\ srv_clientInfo <$> (second.1.2 !! "srv1") = Some (Some client)
  /\ second.1.1
     = Normal (Check.required "srv1"
                 (Some "https://as.example/authorize?code_challenge=c") None)
  /\ In (EvStartAuthorization "https://as.example" client
           (callback_uri "https://app.example" "srv1")) second.2.
Proof.
  intros first second.
  destruct (check_idempotent w_ok 1700000001000 "srv1" (table fresh) client)
    as ((Hreg & _ & Hci) & _ & Hstart & _).
  { vm_compute. reflexivity. }
  destruct (Hstart
              (default fresh (first.1.2 !! "srv1"))
              (Some {| authorization_servers := Some ["https://as.example"] |})
              "https://as.example" as_metadata "https://app.example"
              "https://as.example/authorize?code_challenge=c" "verifier-2")
    as [Hresp Hin]; try (vm_compute; reflexivity).
  by split_and!.
Defined.

(** C6, as stated, fails.  A connected server with a client on record whose
    tokens run out 100 seconds after the first check: checked again 50
    seconds later, inside the buffer, with no callback in between and the
    same answers from the network, it is CONNECTED the first time and
    REQUIRED the second.  And a fresh server that answers the first probe
    with 401 and the second, at the same instant, with 200 is REQUIRED
    the first time and NOT_REQUIRED the second. *)
Lemma check_status_changes_counterexample :
  (let db := table (connected (Some (Number.of_Z 1700000100))) in
   let first := run (Check.GET w_ok "srv1") db in
   let second := run (Check.GET (at_time w_ok 1700000050000) "srv1") first.1.2 in
   srv_clientInfo <$> (first.1.2 !! "srv1") = Some (Some client)
   /\ first.1.1 = Normal (Check.json 200 "srv1" true true OAuthStatus.CONNECTED
                            None None)
   /\ second.1.1
      = Normal (Check.required "srv1"
                  (Some "https://as.example/authorize?code_challenge=c") None))
  /\ (let first := run (Check.GET w_ok "srv1") (table fresh) in
      let second :=
        run (Check.GET
               (world app production
                  (Normal {| http_status := 200; www_authenticate := None |})
                  exchange_ok) "srv1") first.1.2 in
      srv_clientInfo <$> (first.1.2 !! "srv1") = Some (Some client)
      /\ first.1.1
         = Normal (Check.required "srv1"
                     (Some "https://as.example/authorize?code_challenge=c") None)
      /\ second.1.1
         = Normal (Check.json 200 "srv1" false false OAuthStatus.NOT_REQUIRED
                     None None)).
Proof. vm_compute. by split_and!. Qed.

End IdempotenceRuns.

Section UrlBacked.

(** X11.  When the check endpoint returns an authorization URL, the table backs
    it: the URL and the verifier now stored for the server were produced by
    one [startAuthorization] call, made with the client now stored for the
    server and with the redirect URI [<base>/api/oauth/callback/<id>]; that
    call and the write of the verifier are the last two steps of the
    invocation; the response carries no error, and the response and the
    stored status are both REQUIRED. *)
Theorem authorization_url_is_backed
  (w : World) (id : string) (db db' : gmap string MCPServer)
  (resp : CheckOAuthResponse) (tr : list Event) (au : string) :
  run (Check.GET w id) db = (Normal resp, db', tr) ->
  resp_authorizationUrl resp = Some au ->
  exists appUrl a md ci v,
    getAppUrl w = Normal appUrl
    /\ startAuthorization w a md ci (callback_uri appUrl id) = Normal (au, v)
    /\ srv_codeVerifier <$> (db' !! id) = Some (Some v)
    /\ srv_clientInfo <$> (db' !! id) = Some (Some ci)
    /\ (exists tr0,
          tr = tr0 ++ [EvStartAuthorization a ci (callback_uri appUrl id);
                       EvDbUpdate id (verifier_update v)])
    /\ resp_error resp = None
    /\ resp_oauthStatus resp = OAuthStatus.REQUIRED
    /\ srv_oauthStatus <$> (db' !! id) = Some (Some OAuthStatus.REQUIRED).
Proof.
  rewrite run_eq. intros Hrun Hau.
  destruct (Check.GET w id (init db)) as [c s'] eqn:Hget. simpl in Hrun.
  injection Hrun as -> <- <-.
  destruct (check_ensures w id (init db) resp s' Hget au Hau)
    as (appUrl & a & md & ci & v & Happ & Hstart & Hv & Hci & Htr & Herr & Hst).
  exists appUrl, a, md, ci, v. split_and!; try done.
  destruct (check_returns_verdict w id db) as (resp' & s'' & Hrun & Hverdict & _ & Hdb).
  rewrite Hget in Hrun. injection Hrun as <- <-.
  rewrite <- Hverdict, Hst in Hdb. apply Hdb; [|done].
  intros Hrow. rewrite check_eq in Hget. simpl in Hget. rewrite Hrow in Hget.
  injection Hget as <- _. done.
Qed.

Lemma authorization_url_is_backed_witness :
  exists v,
    srv_codeVerifier
      <$> ((run (Check.GET Scenario.w_ok "srv1") (Scenario.table Scenario.fresh)).1.2
             !! "srv1")
    = Some (Some v)
    /\ srv_clientInfo
         <$> ((run (Check.GET Scenario.w_ok "srv1")
                 (Scenario.table Scenario.fresh)).1.2 !! "srv1")
       = Some (Some Scenario.client).
Proof.
  destruct (run (Check.GET Scenario.w_ok "srv1") (Scenario.table Scenario.fresh))
    as [[c db'] tr] eqn:Hrun.
  assert (c = Normal (Check.required "srv1"
                        (Some "https://as.example/authorize?code_challenge=c") None))
    as ->.
  { apply (f_equal (fun x => x.1.1)) in Hrun. simpl in Hrun. rewrite <- Hrun.
    vm_compute. reflexivity. }
  destruct (authorization_url_is_backed Scenario.w_ok "srv1"
              (Scenario.table Scenario.fresh) db' _ tr
              "https://as.example/authorize?code_challenge=c" Hrun eq_refl)
    as (appUrl & a & md & ci & v & Happ & Hstart & Hv & Hci & _).
  exists v. simpl. split; [exact Hv|].
  rewrite Hci. injection Hstart as _. clear -Hci Hrun.
  apply (f_equal (fun x => srv_clientInfo <$> (x.1.2 !! "srv1"))) in Hrun.
  simpl in Hrun. rewrite Hci in Hrun. rewrite <- Hrun. vm_compute. reflexivity.
Defined.

End UrlBacked.

(* ===================================================================== *)
(** * The shapes of a check response *)
(* ===================================================================== *)

Lemma check_returns_shape w id : returns (check_shape id) (Check.GET w id).
Proof.
  unfold Check.GET, Check.detect, Check.generate, Check.client_and_authorize,
    Check.authorize.
  repeat first
    [ apply returns_ret; constructor
    | apply returns_throw
    | apply returns_try_catch; [|intros ?]
    | apply returns_bind; intros ?
    | match goal with
      | |- returns _ (match ?x with _ => _ end) => destruct x
      end ].
Qed.

(** X12.  Whatever the check endpoint returns has one of five bodies: the
    404 of an unknown HTTP server; connected; no authorization required;
    authorization required with a URL and no error; authorization required
    with an error and no URL.  So a URL and an error never come together,
    [connected] is true exactly with CONNECTED, [requiresAuth] is false
    exactly with NOT_REQUIRED, and the HTTP status is 200 or 404. *)
Theorem check_response_shapes (w : World) (id : string)
  (db : gmap string MCPServer) (resp : CheckOAuthResponse) :
  (run (Check.GET w id) db).1.1 = Normal resp -> check_shape id resp.
Proof.
  rewrite run_eq. simpl. apply (check_returns_shape w id (init db)).
Qed.

(** The first check of a fresh server that answers 401. *)
Lemma check_response_shapes_witness :
  check_shape "srv1"
    (Check.required "srv1"
       (Some "https://as.example/authorize?code_challenge=c") None).
Proof.
  apply (check_response_shapes Scenario.w_ok "srv1" (Scenario.table Scenario.fresh)).
  vm_compute. reflexivity.
Defined.

(* ===================================================================== *)
(** * The calls of a check, in order *)
(* ===================================================================== *)

Lemma ascending_weaken lo lo' hi hi' evs :
  (lo' <= lo)%nat -> (hi <= hi')%nat -> ascending lo hi evs -> ascending lo' hi' evs.
Proof.
  revert lo lo'. induction evs as [|e evs IH]; simpl; intros lo lo' Hlo Hhi.
  - lia.
  - destruct (stage e) as [k|].
    + intros [Hk Hrest]. split; [lia|]. by apply (IH (S k) (S k)).
    + by apply IH.
Qed.

Lemma ascending_app lo mid hi evs1 evs2 :
  ascending lo mid evs1 -> ascending mid hi evs2 -> ascending lo hi (evs1 ++ evs2).
Proof.
  revert lo. induction evs1 as [|e evs1 IH]; simpl; intros lo.
  - intros Hlo. by apply ascending_weaken.
  - destruct (stage e) as [k|].
    + intros [Hk H1] H2. split; [done|]. by apply IH.
    + apply IH.
Qed.

Lemma ascending_order lo hi evs i j e1 e2 k1 k2 :
  ascending lo hi evs ->
  evs !! i = Some e1 -> evs !! j = Some e2 ->
  stage e1 = Some k1 -> stage e2 = Some k2 ->
  (i < j)%nat -> (lo <= k1 < k2)%nat /\ (k2 < hi)%nat.
Proof.
  assert (forall evs lo hi j e k,
             ascending lo hi evs -> evs !! j = Some e -> stage e = Some k ->
             (lo <= k < hi)%nat) as Hbound.
  { clear. induction evs as [|e0 evs IH]; intros lo hi j e k Hasc Hj Hk; [done|].
    simpl in Hasc. destruct j as [|j]; simpl in Hj.
    - injection Hj as ->. rewrite Hk in Hasc. destruct Hasc as [Hlo Hrest].
      split; [done|]. clear -Hrest.
      revert k Hrest. induction evs as [|e1 evs IH]; simpl; intros k; [lia|].
      destruct (stage e1) as [k1|]; [|apply IH].
      intros [Hk Hrest]. specialize (IH _ Hrest). lia.
    - destruct (stage e0) as [k0|].
      + destruct Hasc as [Hlo Hrest]. specialize (IH _ _ _ _ _ Hrest Hj Hk). lia.
      + by apply (IH _ _ _ _ _ Hasc Hj Hk). }
  revert lo i j. induction evs as [|e0 evs IH]; intros lo i j Hasc Hi Hj H1 H2 Hlt;
    [done|].
  destruct j as [|j]; [lia|]. simpl in Hj, Hasc.
  destruct i as [|i]; simpl in Hi.
  - injection Hi as ->. rewrite H1 in Hasc. destruct Hasc as [Hlo Hrest].
    pose proof (Hbound _ _ _ _ _ _ Hrest Hj H2). lia.
  - destruct (stage e0) as [k0|].
    + destruct Hasc as [Hlo Hrest].
      destruct (IH (S k0) i j Hrest Hi Hj H1 H2 ltac:(lia)). lia.
    + apply (IH lo i j Hasc Hi Hj H1 H2). lia.
Qed.

Section Within.

Lemma within_same {A} (m : M A) lo hi :
  (lo <= hi)%nat -> (forall s, st_trace (m s).2 = st_trace s) -> within lo hi m.
Proof.
  intros Hle Hm s. exists []. rewrite Hm, app_nil_r. by split.
Qed.

Lemma within_ret {A} (a : A) lo hi : (lo <= hi)%nat -> within lo hi (ret a).
Proof. intros. by apply within_same. Qed.

Lemma within_lift {A} (c : Completion A) lo hi :
  (lo <= hi)%nat -> within lo hi (lift c).
Proof. intros. by apply within_same. Qed.

Lemma within_weaken {A} (m : M A) lo lo' hi hi' :
  (lo' <= lo)%nat -> (hi <= hi')%nat -> within lo hi m -> within lo' hi' m.
Proof.
  intros Hlo Hhi Hm s. destruct (Hm s) as (evs & Htr & Hasc).
  exists evs. split; [done|]. by apply (ascending_weaken lo lo' hi hi').
Qed.

Lemma within_bind {A B} (m : M A) (k : A -> M B) lo mid hi :
  (mid <= hi)%nat ->
  within lo mid m -> (forall a, within mid hi (k a)) -> within lo hi (bind m k).
Proof.
  intros Hle Hm Hk s. unfold bind. destruct (Hm s) as (evs1 & Htr1 & Hasc1).
  destruct (m s) as [[a|e] s1]; simpl in *.
  - destruct (Hk a s1) as (evs2 & Htr2 & Hasc2).
    exists (evs1 ++ evs2). split.
    + by rewrite Htr2, Htr1, app_assoc.
    + by apply (ascending_app lo mid hi).
  - exists evs1. split; [done|]. by apply (ascending_weaken lo lo mid hi).
Qed.

Lemma within_try_catch {A} (body : M A) (handler : JsError -> M A) lo mid hi :
  (mid <= hi)%nat ->
  within lo mid body -> (forall e, within mid hi (handler e)) ->
  within lo hi (try_catch body handler).
Proof.
  intros Hle Hb Hh s. unfold try_catch. destruct (Hb s) as (evs1 & Htr1 & Hasc1).
  destruct (body s) as [[a|e] s1]; simpl in *.
  - exists evs1. split; [done|]. by apply (ascending_weaken lo lo mid hi).
  - destruct (Hh e s1) as (evs2 & Htr2 & Hasc2).
    exists (evs1 ++ evs2). split.
    + by rewrite Htr2, Htr1, app_assoc.
    + by apply (ascending_app lo mid hi).
Qed.

Lemma within_call {A} (e : Event) (c : Completion A) k :
  stage e = Some k -> within k (S k) (call e c).
Proof.
  intros Hk s. exists [e]. split; [done|]. simpl. rewrite Hk. lia.
Qed.

Lemma within_update (id : string) (d : UpdateData) lo :
  within lo lo (prisma.update id d).
Proof.
  intros s. unfold prisma.update. destruct (st_db s !! id) as [r|]; simpl.
  - exists [EvDbUpdate id d]. split; [done|]. simpl. lia.
  - exists []. rewrite app_nil_r. split; [done|]. simpl. lia.
Qed.

Lemma within_authorize w p a md ci : within 5 6 (Check.authorize w p a md ci).
Proof.
  unfold Check.authorize.
  apply (within_bind _ _ 5 5 6); [lia|by apply within_lift|]. intros u.
  apply (within_bind _ _ 5 6 6); [lia|by apply within_call|]. intros [au v].
  apply (within_bind _ _ 6 6 6); [lia|apply within_update|]. intros _.
  by apply within_ret.
Qed.

Lemma within_client_and_authorize w p a md :
  within 4 6 (Check.client_and_authorize w p a md).
Proof.
  unfold Check.client_and_authorize.
  apply (within_bind _ _ 4 4 6); [lia|by apply within_same|]. intros [ci|].
  - apply (within_weaken _ 5 4 6 6); [lia|lia|apply within_authorize].
  - destruct (truthy_str _); [|apply within_ret; lia].
    apply (within_bind _ _ 4 4 6); [lia|by apply within_lift|]. intros cm.
    apply (within_bind _ _ 4 5 6); [lia|by apply within_call|]. intros ci.
    apply (within_bind _ _ 5 5 6); [lia|apply within_update|]. intros _.
    apply within_authorize.
Qed.

Lemma within_generate w p url det : within 2 6 (Check.generate w p url det).
Proof.
  unfold Check.generate.
  apply (within_try_catch _ _ 2 6 6); [lia| |intros e; by apply within_ret].
  apply (within_bind _ _ 2 2 6); [lia|by apply within_lift|]. intros _.
  apply (within_bind _ _ 2 3 6); [lia|by apply within_call|]. intros rm.
  destruct (Check.first_authorization_server rm) as [a|]; [|apply within_ret; lia].
  apply (within_bind _ _ 3 4 6); [lia|by apply within_call|].
  intros [md|]; [|apply within_ret; lia].
  apply within_client_and_authorize.
Qed.

Lemma within_check w id : within 1 6 (Check.GET w id).
Proof.
  assert (forall server, within 1 6 (Check.detect w id server)) as Hdet.
  { intros server. unfold Check.detect.
    apply (within_bind _ _ 1 2 6); [lia| |].
    - intros s. exists [EvFetch (default "" (srv_url server))].
      rewrite DetectionFacts.detect_run. split; [done|]. simpl. lia.
    - intros det. destruct (negb _).
      + apply (within_bind _ _ 2 2 6); [lia|apply within_update|]. intros _.
        apply within_ret. lia.
      + apply (within_bind _ _ 2 2 6); [lia|apply within_update|]. intros _.
        apply within_generate. }
  unfold Check.GET.
  apply (within_bind _ _ 1 1 6); [lia|by apply within_same|].
  intros [server|]; [|apply within_ret; lia].
  destruct (Check.connected_with_tokens server); [|apply Hdet].
  destruct (negb _); [apply within_ret; lia|].
  apply (within_bind _ _ 1 1 6); [lia|apply within_update|]. intros _. apply Hdet.
Qed.

End Within.

Section CallOrder.

(** X13.  The outbound calls of one check come in a fixed order and none is
    repeated: the probe of the server, the discovery of the resource
    metadata, the discovery of the authorization server metadata, the client
    registration, the start of the authorization. Of any two calls in the
    trace the later one belongs to a strictly later stage, and no call is
    an SDK request of the token exchange. *)
Theorem check_calls_in_order (w : World) (id : string)
  (db : gmap string MCPServer) (i j : nat) (e1 e2 : Event) (k1 k2 : nat) :
  (run (Check.GET w id) db).2 !! i = Some e1 ->
  (run (Check.GET w id) db).2 !! j = Some e2 ->
  stage e1 = Some k1 -> stage e2 = Some k2 ->
  (i < j)%nat ->
  (1 <= k1 < k2)%nat /\ (k2 <= 5)%nat.
Proof.
  rewrite run_eq. simpl. intros Hi Hj H1 H2 Hlt.
  destruct (within_check w id (init db)) as (evs & Htr & Hasc).
  simpl in Htr. rewrite Htr in Hi, Hj.
  destruct (ascending_order 1 6 evs i j e1 e2 k1 k2 Hasc Hi Hj H1 H2 Hlt). lia.
Qed.

Lemma check_calls_in_order_witness :
  (1 <= 1 < 2)%nat /\ (2 <= 5)%nat.
Proof.
  apply (check_calls_in_order Scenario.w_ok "srv1" (Scenario.table Scenario.fresh)
           0 2 (EvFetch Scenario.server_url)
           (EvDiscoverResourceMetadata Scenario.server_url
              (Some Scenario.metadata_url)) 1 2);
    first [vm_compute; reflexivity | lia].
Defined.

End CallOrder.

(* ===================================================================== *)
(** * One redirect URI per server *)
(* ===================================================================== *)

Lemma stable_bind_lift (R : St -> St -> Prop) `{!PreOrder R} {A B}
  (c : Completion A) (k : A -> M B) :
  (forall a, c = Normal a -> stable R (k a)) -> stable R (bind (lift c) k).
Proof.
  intros Hk s. unfold bind, lift. destruct c as [a|e]; [by apply Hk|reflexivity].
Qed.

Lemma authorize_uses_redirect w p a md ci appUrl :
  getAppUrl w = Normal appUrl ->
  stable (extends (uses_redirect (callback_uri appUrl (serverId p))))
    (Check.authorize w p a md ci).
Proof.
  intros Happ s. rewrite authorize_eq, redirectUrl_eq, Happ.
  destruct (startAuthorization w a md ci _) as [[au v]|e]; simpl.
  - destruct (st_db s !! serverId p) as [r|]; simpl.
    + exists [EvStartAuthorization a ci (callback_uri appUrl (serverId p));
              EvDbUpdate (serverId p) (verifier_update v)].
      split; [simpl; by rewrite <- app_assoc|]. by repeat constructor.
    + by apply extends_push.
  - by apply extends_push.
Qed.

Lemma client_and_authorize_uses_redirect w p a md appUrl :
  getAppUrl w = Normal appUrl ->
  stable (extends (uses_redirect (callback_uri appUrl (serverId p))))
    (Check.client_and_authorize w p a md).
Proof.
  intros Happ. set (P := uses_redirect (callback_uri appUrl (serverId p))).
  unfold Check.client_and_authorize.
  apply (stable_bind (extends P)); [apply (stable_clientInformation (extends P))|].
  intros [ci|]; [by apply authorize_uses_redirect|].
  destruct (truthy_str _); [|apply (stable_ret (extends P))].
  apply (stable_bind_lift (extends P)). intros cm Hcm.
  assert (redirect_uris cm = [callback_uri appUrl (serverId p)]) as Huris.
  { unfold Provider.clientMetadata in Hcm. rewrite redirectUrl_eq, Happ in Hcm.
    simpl in Hcm. by injection Hcm as <-. }
  apply (stable_bind (extends P)).
  { intros s. unfold call, bind, emit, lift. simpl.
    apply (extends_push P (EvRegisterClient a cm) s). exact Huris. }
  intros ci'. apply (stable_bind (extends P)).
  { intros s. unfold Provider.saveClientInformation, prisma.update.
    destruct (st_db s !! serverId p) as [r|]; simpl; [|reflexivity].
    by apply (extends_updated P). }
  intros _. by apply authorize_uses_redirect.
Qed.

Section RedirectUri.

(** X14.  With the base URL configured, every client registration and every
    authorization start made by a check of server [id] uses the one
    redirect URI [<base>/api/oauth/callback/<id>]: what is registered with
    the authorization server is what is later sent to it. That URI
    determines the server: two ids never share one. *)
Theorem check_redirect_uri_consistent (w : World) (id : string)
  (db : gmap string MCPServer) (appUrl : string) :
  getAppUrl w = Normal appUrl ->
  Forall (uses_redirect (callback_uri appUrl id)) (run (Check.GET w id) db).2
  /\ (forall id', callback_uri appUrl id' = callback_uri appUrl id -> id' = id).
Proof.
  intros Happ. split.
  - rewrite run_eq. simpl.
    assert (stable (extends (uses_redirect (callback_uri appUrl id)))
              (Check.GET w id)) as Hst.
    { apply (stable_check_with (extends (uses_redirect (callback_uri appUrl id)))
               (uses_redirect (callback_uri appUrl id)) (fun _ => True));
        first [ done
              | by intros; apply extends_push
              | by intros; apply extends_updated
              | intros name a md;
                by apply (client_and_authorize_uses_redirect w
                            {| serverId := id; serverName := name |}) ]. }
    destruct (Hst (init db)) as (evs & Htr & HP). simpl in Htr. by rewrite Htr.
  - intros id'. unfold callback_uri. intros Heq.
    by repeat (apply String.app_inj in Heq).
Qed.

Lemma check_redirect_uri_consistent_witness :
  Forall (uses_redirect (callback_uri "https://app.example" "srv1"))
    (run (Check.GET Scenario.w_ok "srv1") (Scenario.table Scenario.fresh)).2
  /\ (forall id', callback_uri "https://app.example" id'
                  = callback_uri "https://app.example" "srv1" -> id' = "srv1").
Proof.
  apply (check_redirect_uri_consistent Scenario.w_ok "srv1"
           (Scenario.table Scenario.fresh) "https://app.example").
  vm_compute. reflexivity.
Defined.

End RedirectUri.

(* ===================================================================== *)
(** * Tool schemas: what [sanitizeSchema] removes and what it keeps *)
(* ===================================================================== *)

Lemma sanitize_entries_cons sanitize key value rest :
  sanitize_entries sanitize ((key, value) :: rest) =
  match sanitize_entry sanitize key value with
  | Some entry => entry :: sanitize_entries sanitize rest
  | None => sanitize_entries sanitize rest
  end.
Proof. reflexivity. Qed.

Section SchemaFacts.

Local Arguments sanitize_entries : simpl never.
Local Arguments unsupported : simpl never.

Lemma sanitizeSchema_primitive v :
  js_truthy v && is_object v = false -> sanitizeSchema v = v.
Proof. by destruct v. Qed.

Lemma is_array_sanitizeSchema v : is_array (sanitizeSchema v) = is_array v.
Proof. by destruct v. Qed.

(** What a turn of the loop sets, when it sets something. *)
Lemma sanitize_entry_Some key value key' value' :
  sanitize_entry sanitizeSchema key value = Some (key', value') ->
  key' = key /\ unsupported key = false /\ key <> "__proto__"
  /\ ((key = "type" /\ normalizeType value = Some value'
       /\ js_truthy value' = true)
      \/ (key <> "type" /\ key = "items"
          /\ exists first rest, value = JArr (first :: rest)
                                /\ value' = sanitizeSchema first)
      \/ (key <> "type" /\ (String.eqb key "items" && is_array value = false)
          /\ value' = sanitizeSchema value)).
Proof.
  unfold sanitize_entry.
  destruct (unsupported key); [done|].
  assert (forall v, set_property key v = Some (key', value') ->
                    key' = key /\ key <> "__proto__" /\ value' = v) as Hset.
  { intros v. unfold set_property.
    destruct (String.eqb_spec key "__proto__"); [done|]. by intros [= <- <-]. }
  destruct (String.eqb_spec key "type") as [->|Htype].
  - destruct (normalizeType value) as [t|]; [|done].
    destruct (js_truthy t) eqn:Ht; [|done].
    intros (-> & Hp & ->)%Hset. split_and!; try done. by left.
  - destruct (String.eqb key "items" && is_array value) eqn:Hitems.
    + apply andb_prop in Hitems as [Hk Hv]. apply String.eqb_eq in Hk as ->.
      destruct value as [| | | |[|first rest]|]; try done.
      intros (-> & Hp & ->)%Hset. split_and!; try done.
      right; left. split_and!; try done. by exists first, rest.
    + destruct (js_truthy value && is_object value) eqn:Hobj.
      * intros (-> & Hp & ->)%Hset. split_and!; try done.
        right; right. by split_and!.
      * intros (-> & Hp & ->)%Hset. split_and!; try done.
        right; right. split_and!; try done. by rewrite sanitizeSchema_primitive.
Qed.

Lemma sanitize_entry_plain key value :
  unsupported key = false -> key <> "__proto__" ->
  (if String.eqb key "type" then is_string value && js_truthy value
   else negb (String.eqb key "items" && is_array value)) = true ->
  sanitizeSchema value = value ->
  sanitize_entry sanitizeSchema key value = Some (key, value).
Proof.
  intros Hun Hp Hshape Hfix. unfold sanitize_entry. rewrite Hun.
  assert (forall v, set_property key v = Some (key, v)) as Hset.
  { intros v. unfold set_property. by destruct (String.eqb_spec key "__proto__"). }
  destruct (String.eqb key "type").
  - destruct value; try done. simpl in *. by rewrite Hshape.
  - apply negb_true_iff in Hshape. rewrite Hshape.
    destruct (js_truthy value && is_object value); by rewrite ?Hfix.
Qed.

Lemma normalizeType_names value t :
  type_names value = true -> normalizeType value = Some t -> is_string t = true.
Proof.
  destruct value as [| | |s|ts|]; try done; simpl.
  - by intros _ [= <-].
  - intros Hts.
    assert (forallb is_string (List.filter (fun t => negb (is_null_name t)) ts) = true)
      as Hf.
    { induction ts as [|x ts IH]; [done|]. simpl in *.
      apply andb_prop in Hts as [Hx Hts].
      destruct (negb (is_null_name x)); simpl; rewrite ?Hx; by apply IH. }
    destruct (List.filter _ ts) as [|x l]; [by intros [= <-]|].
    intros [= <-]. simpl in Hf. by apply andb_prop in Hf as [? _].
Qed.

Lemma stripped_sanitizeSchema (schema : Json) :
  stripped (sanitizeSchema schema) = true.
Proof.
  induction schema as [| | | |items IH|entries IH] using Json_induction; try done.
  - simpl. induction IH as [|x l Hx _ IHl]; [done|]. simpl. by rewrite Hx, IHl.
  - simpl. induction IH as [|[key value] l Hx _ IHl]; [done|].
    rewrite sanitize_entries_cons.
    destruct (sanitize_entry sanitizeSchema key value) as [[key' value']|] eqn:He;
      [|exact IHl].
    apply sanitize_entry_Some in He
        as (-> & Hun & _ & [(-> & _)|[(_ & -> & first & rest & -> & ->)|(_ & _ & ->)]]);
      simpl in *; rewrite ?Hun; simpl; try done.
    + apply andb_prop in Hx as [Hx _]. by rewrite Hx.
    + by rewrite Hx, orb_true_r.
Qed.

(** X15.  However the schema looks, the sanitized schema has none of the
    unsupported keywords as a key, at any depth of objects and arrays; the
    one exception are values stored under [type], which [normalizeType]
    passes on as they are. *)
Theorem sanitizeSchema_strips_unsupported (schema : Json) :
  stripped (sanitizeSchema schema) = true.
Proof. exact (stripped_sanitizeSchema schema). Qed.

(** X16.  A schema that is already in the provider's form comes back unchanged:
    nothing but unsupported keywords, list-valued types, tuple items and
    [__proto__] keys is ever touched. *)
Theorem sanitizeSchema_fixes_plain (schema : Json) :
  plain schema = true -> sanitizeSchema schema = schema.
Proof.
  induction schema as [| | | |items IH|entries IH] using Json_induction; try done.
  - simpl. intros Hplain. f_equal.
    induction IH as [|x l Hx _ IHl]; [done|]. simpl in *.
    apply andb_prop in Hplain as [H1 H2]. by rewrite Hx, IHl.
  - simpl. intros Hplain. f_equal.
    induction IH as [|[key value] l Hx _ IHl]; [done|]. simpl in *.
    apply andb_prop in Hplain as [H1 H2].
    apply andb_prop in H1 as [H1 Hshape]. apply andb_prop in H1 as [Hun Hp].
    apply negb_true_iff in Hun. apply negb_true_iff in Hp.
    apply String.eqb_neq in Hp.
    rewrite sanitize_entries_cons, sanitize_entry_plain; try done.
    + f_equal. by apply IHl.
    + destruct (String.eqb key "type"); [done|]. by apply andb_prop in Hshape as [? ?].
    + destruct (String.eqb key "type").
      * by destruct value.
      * apply andb_prop in Hshape as [_ Hv]. by apply Hx.
Qed.

Lemma sanitizeSchema_fixes_plain_witness :
  sanitizeSchema
    (JObj [("type", JStr "object");
           ("properties",
            JObj [("path", JObj [("type", JStr "string");
                                 ("description", JStr "File to read")])]);
           ("required", JArr [JStr "path"])])
  = JObj [("type", JStr "object");
          ("properties",
           JObj [("path", JObj [("type", JStr "string");
                                ("description", JStr "File to read")])]);
          ("required", JArr [JStr "path"])].
Proof. apply sanitizeSchema_fixes_plain. vm_compute. reflexivity. Defined.

(** X17.  On a schema whose types are names or lists of names, and whose tuple
    items do not start with an array, the result is in the provider's form:
    every [type] is a single non-empty name, no [items] is a tuple, and no
    unsupported keyword is left. *)
Theorem sanitizeSchema_output_plain (schema : Json) :
  well_typed schema = true -> plain (sanitizeSchema schema) = true.
Proof.
  cut ((well_typed schema = true -> plain (sanitizeSchema schema) = true)
       /\ match schema with
          | JArr (first :: _) =>
              well_typed first = true -> plain (sanitizeSchema first) = true
          | _ => True
          end); [by intros [? _]|].
  induction schema as [| | | |items IH|entries IH] using Json_induction; try done.
  - split; [|destruct IH as [|x l [Hx _] _]; done].
    simpl. intros Hwt.
    induction IH as [|x l [Hx _] _ IHl]; [done|]. simpl in *.
    apply andb_prop in Hwt as [H1 H2]. by rewrite Hx, IHl.
  - split; [|done]. simpl. intros Hwt.
    induction IH as [|[key value] l [Hx Hfirst] _ IHl]; [done|]. simpl in *.
    apply andb_prop in Hwt as [Hentry Hrest]. specialize (IHl Hrest).
    rewrite sanitize_entries_cons.
    destruct (sanitize_entry sanitizeSchema key value) as [[key' value']|] eqn:He;
      [|exact IHl].
    simpl. rewrite IHl, andb_true_r.
    apply sanitize_entry_Some in He
        as (-> & Hun & Hp & [(-> & Hn & Ht)|[(Htype & -> & first & rest & -> & ->)
                                           |(Htype & Hitems & ->)]]);
      simpl in *; try rewrite Hun in *; simpl in *.
    + rewrite Ht, andb_true_r. by apply (normalizeType_names value).
    + apply andb_prop in Hentry as [Harr Hwt]. rewrite is_array_sanitizeSchema, Harr.
      simpl. by apply Hfirst.
    + apply String.eqb_neq in Hp, Htype. rewrite Hp, Htype in *. simpl.
      rewrite is_array_sanitizeSchema, Hitems in *. simpl. by apply Hx.
Qed.

Lemma sanitizeSchema_output_plain_witness :
  plain
    (sanitizeSchema
       (JObj [("$schema", JStr "http://json-schema.org/draft-07/schema#");
              ("type", JArr [JStr "null"; JStr "object"]);
              ("additionalProperties", JBool false);
              ("properties",
               JObj [("tags", JObj [("type", JStr "array");
                                    ("minItems", JNum 1);
                                    ("items", JArr [JObj [("type", JStr "string");
                                                          ("format", JStr "uri")];
                                                    JObj [("type", JStr "number")]])])])]))
  = true.
Proof. apply sanitizeSchema_output_plain. vm_compute. reflexivity. Defined.

(** X18.  The keys of a sanitized object are keys of the object it was made
    from, in the same order, and none is unsupported; every key of the
    source other than the unsupported ones, [type], [items] and [__proto__]
    is kept. *)
Theorem sanitizeSchema_keeps_supported_keys (entries : list (string * Json)) :
  exists out,
    sanitizeSchema (JObj entries) = JObj out
    /\ sublist out.*1 entries.*1
    /\ (forall key, key ∈ out.*1 -> unsupported key = false)
    /\ (forall key,
          unsupported key = false ->
          key <> "type" -> key <> "items" -> key <> "__proto__" ->
          key ∈ entries.*1 -> key ∈ out.*1).
Proof.
  exists (sanitize_entries sanitizeSchema entries). split; [reflexivity|].
  induction entries as [|[key value] l (Hsub & Hin & Hkept)].
  - split_and!; [done|by intros key ?%elem_of_nil|done].
  - rewrite sanitize_entries_cons. simpl.
    destruct (sanitize_entry sanitizeSchema key value) as [[key' value']|] eqn:He.
    + apply sanitize_entry_Some in He as (-> & Hun & _).
      simpl. split_and!.
      * by apply sublist_skip.
      * intros k [->|Hk]%elem_of_cons; [done|by apply Hin].
      * intros k ? ? ? ? [->|Hk]%elem_of_cons; [left|right; by apply Hkept].
    + split_and!.
      * by apply sublist_cons.
      * done.
      * intros k Hun Ht Hi Hp [->|Hk]%elem_of_cons; [|by apply Hkept].
        exfalso. revert He. unfold sanitize_entry, set_property.
        rewrite Hun.
        apply String.eqb_neq in Ht, Hi, Hp. rewrite Ht, Hi, Hp. simpl.
        by destruct (js_truthy value && is_object value).
Qed.

End SchemaFacts.

(* ===================================================================== *)
(** * The MCP client configuration and the tools it loads *)
(* ===================================================================== *)

Section McpFacts.

Import Mcp.

Lemma add_servers_lookup servers configs name config :
  fold_left add_server servers configs !! name = Some config ->
  configs !! name = Some config
  \/ exists server,
       server ∈ servers
       /\ srv_name (row_server server) = name
       /\ name <> "__proto__"
       /\ server_config server = Some config.
Proof.
  revert configs. induction servers as [|server servers IH]; intros configs; simpl.
  - by left.
  - intros [Hacc|(server' & Hin & Hname & Hp & Hcfg)]%IH.
    + unfold add_server, set_config in Hacc.
      destruct (server_config server) as [c|] eqn:Hc; [|by left].
      destruct (String.eqb_spec (srv_name (row_server server)) "__proto__");
        [by left|].
      destruct (decide (srv_name (row_server server) = name)) as [Heq|Hne].
      * rewrite <- Heq, lookup_insert_eq in Hacc. injection Hacc as ->.
        right. exists server. split_and!; try done; [left|congruence].
      * rewrite lookup_insert_ne in Hacc by done. by left.
    + right. exists server'. split_and!; try done. by right.
Qed.

(** X19.  Every entry of the configuration handed to the MCP client stems from
    an enabled server of that name, and is what that one row gives.  An
    entry carries an OAuth provider only if the row requires
    authorization and its stored status is CONNECTED, and the provider is
    bound to the id of that very row. *)
Theorem configs_come_from_enabled_servers (table : Completion (list ServerRow)) :
  map_Forall
    (fun name config =>
       exists rows server,
         table = Normal rows /\ server ∈ rows
         /\ row_enabled server = true
         /\ srv_name (row_server server) = name
         /\ server_config server = Some config
         /\ forall url headers p,
              config = HttpMCPServerConfig url headers (Some p) ->
              p = {| serverId := row_id server; serverName := name |}
              /\ srv_requiresAuth (row_server server) = Some true
              /\ srv_oauthStatus (row_server server) = Some OAuthStatus.CONNECTED)
    (getMCPServerConfigs table).
Proof.
  intros name config. unfold getMCPServerConfigs, findMany_enabled.
  destruct table as [rows|e]; [|done].
  intros [Hempty|(server & Hin & Hname & _ & Hcfg)]%add_servers_lookup; [done|].
  apply list_elem_of_In, filter_In in Hin as [Hin Hen].
  apply list_elem_of_In in Hin.
  exists rows, server. split_and!; try done.
  intros url headers p ->. revert Hcfg. unfold server_config.
  destruct (_ && _); [done|]. destruct (_ && _); [|done].
  unfold wants_provider.
  destruct (bool_decide_reflect (srv_requiresAuth (row_server server) = Some true));
    [|done].
  destruct (bool_decide_reflect
              (srv_oauthStatus (row_server server) = Some OAuthStatus.CONNECTED));
    [|done].
  simpl. intros [= _ _ <-]. by rewrite Hname.
Qed.

(** X20.  Loading the tools never fails, and every tool it returns has been
    sanitized: its schema holds no unsupported keyword, and a schema kept
    under [lc_kwargs] that is set is that same schema. *)
Theorem getMCPTools_sanitized (adapter : Adapter)
  (table : Completion (list ServerRow)) :
  Forall (fun tool =>
            stripped (tool_schema tool) = true
            /\ forall s, tool_lc_kwargs_schema tool = Some s ->
                         js_truthy s = true -> s = tool_schema tool)
    (getMCPTools adapter table)
  /\ (size (getMCPServerConfigs table) = 0%nat -> getMCPTools adapter table = []).
Proof.
  unfold getMCPTools, createMCPClient. split.
  - destruct (bool_decide _); [done|].
    destruct (construct adapter _); [done|].
    destruct (getTools adapter _) as [tools|e]; [|done].
    apply Forall_forall. intros tool (tool0 & -> & _)%list_elem_of_fmap. split.
    + apply stripped_sanitizeSchema.
    + simpl. destruct (tool_lc_kwargs_schema tool0) as [s0|]; [|done].
      destruct (js_truthy s0) eqn:Hs0; intros s [= <-]; [done|].
      by rewrite Hs0.
  - intros Hsize. by rewrite bool_decide_eq_true_2.
Qed.

End McpFacts.

(* ===================================================================== *)
(** * The flow and the client configuration together *)
(* ===================================================================== *)

Lemma leaves_identity_columns :
  (forall d, leaves srv_name d) /\ (forall d, leaves srv_type d)
  /\ (forall d, leaves srv_url d).
Proof. by split_and!. Qed.

Lemma run_sdk_keeps {X} (f : MCPServer -> X) w p prog :
  (forall d, leaves f d) -> stable (keeps f) (run_sdk w p prog).
Proof.
  intros Hl.
  apply (stable_run_sdk (keeps f) (fun _ => True) (leaves f));
    intros; first [apply keeps_push | by apply keeps_updated | apply Hl | done].
Qed.

Lemma finish_keeps {X} (f : MCPServer -> X) w p url code :
  (forall d, leaves f d) -> stable (keeps f) (Callback.finish w p url code).
Proof.
  intros Hl. unfold Callback.finish.
  apply (stable_bind (keeps f)); [apply (stable_lift (keeps f))|]. intros _.
  by apply run_sdk_keeps.
Qed.

Section FlowAndConfiguration.

Import Mcp.

Local Arguments truthy_str : simpl never.

(** X22.  When the check endpoint answers that a server is not connected, the
    row it leaves behind gives the MCP client a configuration without an
    OAuth provider: tokens the check found expired or missing are not
    offered to the server again. *)
Theorem not_connected_means_no_provider
  (w : World) (id : string) (db db' : gmap string MCPServer)
  (resp : CheckOAuthResponse) (tr : list Event) (server : ServerRow) :
  run (Check.GET w id) db = (Normal resp, db', tr) ->
  resp_status resp = 200 ->
  resp_connected resp = false ->
  db' !! id = Some (row_server server) ->
  authProvider_of (server_config server) = None.
Proof.
  rewrite run_eq. intros Hrun Hstatus Hconn Hrow.
  destruct (Check.GET w id (init db)) as [c s'] eqn:Hget. simpl in Hrun.
  injection Hrun as -> <- _.
  pose proof (check_returns_shape w id (init db) resp) as Hshape.
  rewrite Hget in Hshape. specialize (Hshape eq_refl).
  destruct (check_returns_verdict w id db) as (resp' & s'' & Hrun & Hverdict & _ & Hdb).
  rewrite Hget in Hrun. injection Hrun as <- <-.
  assert (http_row db id <> None) as Hhttp.
  { intros Hnone. rewrite check_eq in Hget. simpl in Hget. rewrite Hnone in Hget.
    injection Hget as <- _. done. }
  assert (resp_oauthStatus resp <> OAuthStatus.CONNECTED) as Hnot.
  { by destruct Hshape. }
  rewrite <- Hverdict in Hdb. specialize (Hdb Hhttp Hnot).
  rewrite Hrow in Hdb. simpl in Hdb. injection Hdb as Hstored.
  unfold server_config. destruct (_ && _); [done|]. destruct (_ && _); [|done].
  unfold wants_provider. rewrite Hstored.
  rewrite (bool_decide_eq_false_2 (Some (resp_oauthStatus resp) = _)) by congruence.
  by rewrite andb_false_r.
Qed.

Lemma not_connected_means_no_provider_witness :
  let db' := (run (Check.GET Scenario.w_ok "srv1")
                (Scenario.table Scenario.fresh)).1.2 in
  authProvider_of
    (server_config
       {| row_id := "srv1"; row_enabled := true; row_command := None;
          row_args := None; row_env := None; row_headers := None;
          row_server := default Scenario.fresh (db' !! "srv1") |})
  = None.
Proof.
  intros db'.
  apply (not_connected_means_no_provider Scenario.w_ok "srv1"
           (Scenario.table Scenario.fresh) db'
           (Check.required "srv1"
              (Some "https://as.example/authorize?code_challenge=c") None)
           (run (Check.GET Scenario.w_ok "srv1") (Scenario.table Scenario.fresh)).2);
    vm_compute; reflexivity.
Defined.

Lemma not_success_target (target name : string) :
  String.get 8 target = Some "e"%char -> target <> Callback.success_target name.
Proof. intros Hget ->. discriminate Hget. Qed.

(** After a callback that redirects with [oauth_success], what the row it
    leaves behind gives. *)
Lemma success_redirect_server_config
  (w : World) (id : string) (q : CallbackParams) (db db' : gmap string MCPServer)
  (resp : RedirectResponse) (tr : list Event) (name : string) (server : ServerRow) :
  run (Callback.GET w id q) db = (Normal resp, db', tr) ->
  url_input (redirect_to resp) = Callback.success_target name ->
  db' !! id = Some (row_server server) ->
  row_id server = id ->
  srv_type (row_server server) = "http" ->
  exists url r,
    db !! id = Some r /\ srv_url r = Some url
    /\ server_config server
       = Some (HttpMCPServerConfig url (object_or_none (row_headers server))
                 (Some {| serverId := id;
                          serverName := srv_name (row_server server) |})).
Proof.
  rewrite run_eq. intros Hrun Htarget Hrow Hid Htype.
  destruct (Callback.GET w id q (init db)) as [c s'] eqn:Hget. simpl in Hrun.
  injection Hrun as -> <- _.
  destruct (callback_returned w id q (init db) resp) as (appUrl & Happ & Hp).
  { by rewrite Hget. }
  rewrite (callback_eq w id q (init db) appUrl Happ) in Hget. simpl in Hget.
  assert (forall target s,
             String.get 8 target = Some "e"%char ->
             Callback.redirect w target appUrl s <> (Normal resp, s')) as Herr.
  { intros target s Hchar. rewrite redirect_eq by done. intros [= <- _].
    by apply (not_success_target target name). }
  destruct (truthy_str (q_error q)); [by apply Herr in Hget|].
  destruct (negb (truthy_str (q_code q))); [by apply Herr in Hget|].
  destruct (db !! id) as [r|] eqn:Hr; [|by apply Herr in Hget].
  destruct (truthy_str (srv_url r)) eqn:Hurl; [|by apply Herr in Hget].
  destruct (exchange_eq w id (default "" (q_code q)) appUrl r (init db) r Hr)
    as (r1 & Hr1 & Heq).
  rewrite Hp in Heq. rewrite Heq in Hget. clear Heq.
  pose proof (finish_keeps srv_url w {| serverId := id; serverName := srv_name r |}
                (default "" (srv_url r)) (default "" (q_code q))
                (proj2 (proj2 leaves_identity_columns)) (init db) id) as Hkeep.
  destruct (Callback.finish _ _ _ _ _) as [[[]|e] s1]; simpl in *.
  2:{ injection Hget as <- _. simpl in Htarget.
      by apply (not_success_target _ name) in Htarget. }
  injection Hget as _ <-. simpl in Hrow. rewrite lookup_insert_eq in Hrow.
  injection Hrow as Hrow. rewrite Hr1, Hr in Hkeep. simpl in Hkeep.
  injection Hkeep as Hkeep.
  destruct (srv_url r) as [url|] eqn:Hu; [|done].
  exists url, r. split_and!; try done.
  unfold server_config, wants_provider. rewrite <- Hrow in *. simpl in *.
  by rewrite Htype, Hkeep, Hurl, Hid.
Qed.

(** Rows of the same name later in the table do not change an entry when
    they are the row that made it. *)
Lemma add_servers_keep servers configs server config :
  server_config server = Some config ->
  (forall other, other ∈ servers ->
                 srv_name (row_server other) = srv_name (row_server server) ->
                 other = server) ->
  configs !! srv_name (row_server server) = Some config ->
  fold_left add_server servers configs !! srv_name (row_server server) = Some config.
Proof.
  intros Hcfg. revert configs.
  induction servers as [|other servers IH]; intros configs Huniq Hlook; [done|].
  simpl. apply IH.
  - intros o Ho. apply Huniq. by right.
  - unfold add_server, set_config.
    destruct (server_config other) as [c|] eqn:Hc; [|done].
    destruct (String.eqb _ "__proto__"); [done|].
    destruct (decide (srv_name (row_server other) = srv_name (row_server server)))
      as [Heq|Hne].
    + rewrite (Huniq other ltac:(left) Heq) in Hc |- *.
      rewrite lookup_insert_eq. congruence.
    + by rewrite lookup_insert_ne.
Qed.

(** The entry of a server whose name no other row shares. *)
Lemma add_servers_unique servers configs server config :
  server ∈ servers ->
  server_config server = Some config ->
  srv_name (row_server server) <> "__proto__" ->
  (forall other, other ∈ servers ->
                 srv_name (row_server other) = srv_name (row_server server) ->
                 other = server) ->
  fold_left add_server servers configs !! srv_name (row_server server) = Some config.
Proof.
  intros Hin Hcfg Hp. revert configs.
  induction servers as [|first servers IH]; intros configs Huniq.
  { by apply elem_of_nil in Hin. }
  apply elem_of_cons in Hin as [<-|Hin].
  - simpl. apply add_servers_keep; [done| |].
    + intros o Ho. apply Huniq. by right.
    + unfold add_server, set_config. rewrite Hcfg.
      apply String.eqb_neq in Hp. rewrite Hp. apply lookup_insert_eq.
  - simpl. apply IH; [done|]. intros o Ho. apply Huniq. by right.
Qed.

(** X23.  When the callback redirects with [oauth_success], and the row it
    leaves behind is read by [getMCPServerConfigs] as an enabled HTTP server
    whose name no other enabled row shares, the configuration built for the
    MCP client has, under that name, an HTTP entry with the URL the server
    had before and with an OAuth provider bound to the id the callback was
    called for. *)
Theorem success_redirect_means_provider
  (w : World) (id : string) (q : CallbackParams) (db db' : gmap string MCPServer)
  (resp : RedirectResponse) (tr : list Event) (name : string)
  (rows : list ServerRow) (server : ServerRow) :
  run (Callback.GET w id q) db = (Normal resp, db', tr) ->
  url_input (redirect_to resp) = Callback.success_target name ->
  db' !! id = Some (row_server server) ->
  row_id server = id ->
  srv_type (row_server server) = "http" ->
  server ∈ rows ->
  row_enabled server = true ->
  srv_name (row_server server) <> "__proto__" ->
  (forall other,
      other ∈ rows -> row_enabled other = true ->
      srv_name (row_server other) = srv_name (row_server server) ->
      other = server) ->
  exists url r,
    db !! id = Some r /\ srv_url r = Some url
    /\ getMCPServerConfigs (Normal rows) !! srv_name (row_server server)
       = Some (HttpMCPServerConfig url (object_or_none (row_headers server))
                 (Some {| serverId := id;
                          serverName := srv_name (row_server server) |})).
Proof.
  intros Hrun Htarget Hrow Hid Htype Hin Hen Hp Huniq.
  destruct (success_redirect_server_config w id q db db' resp tr name server
              Hrun Htarget Hrow Hid Htype) as (url & r & Hr & Hurl & Hcfg).
  exists url, r. split_and!; [done|done|].
  unfold getMCPServerConfigs, findMany_enabled.
  apply add_servers_unique; [|done|done|].
  - apply list_elem_of_In, filter_In. split; [by apply list_elem_of_In|done].
  - intros other [Ho Heno]%list_elem_of_In%filter_In. apply Huniq; [|done].
    by apply list_elem_of_In.
Qed.

Lemma success_redirect_means_provider_witness :
  let db' := (run (Callback.GET Scenario.w_ok "srv1" Scenario.with_code)
                (Scenario.table Scenario.awaiting)).1.2 in
  let server :=
    {| row_id := "srv1"; row_enabled := true; row_command := None;
       row_args := None; row_env := None; row_headers := None;
       row_server := default Scenario.fresh (db' !! "srv1") |} in
  let local :=
    {| row_id := "srv2"; row_enabled := true; row_command := Some "node";
       row_args := Some (JArr [JStr "server.js"]); row_env := None;
       row_headers := None; row_server := Scenario.stdio |} in
  exists url r,
    Scenario.table Scenario.awaiting !! "srv1" = Some r /\ srv_url r = Some url
    /\ getMCPServerConfigs (Normal [local; server]) !! srv_name (row_server server)
       = Some (HttpMCPServerConfig url (object_or_none (row_headers server))
                 (Some {| serverId := "srv1";
                          serverName := srv_name (row_server server) |})).
Proof.
  intros db' server local.
  apply (success_redirect_means_provider Scenario.w_ok "srv1" Scenario.with_code
           (Scenario.table Scenario.awaiting) db'
           (redirect_response (Callback.success_target "Files") "https://app.example")
           (run (Callback.GET Scenario.w_ok "srv1" Scenario.with_code)
              (Scenario.table Scenario.awaiting)).2
           "Files" [local; server] server);
    try (vm_compute; reflexivity).
  - right. left.
  - vm_compute. discriminate.
  - intros other [->|[->|Hnil%elem_of_nil]%elem_of_cons]%elem_of_cons; done.
Defined.

End FlowAndConfiguration.
